(** * Tag and cluster association storage of lintiflux

    A shallow embedding of [internal/storage/tag.go] (tags and entry-tag
    associations), [internal/storage/cluster.go] and the rows of
    [internal/model] they read and write.  The relational store is a record
    of tables (lists of rows); every SQL statement of the Go code is a
    function on that record; the Go methods are written in a small monad that
    threads the connection state and stops at the first error, like the
    [if err != nil { return ... }] chains of the source.

    Identifiers are [int64] values that the code only compares and passes
    on, and timestamps are only compared: both are integers here.  Row
    counts are lengths of lists. *)

From Stdlib Require Import ZArith List String Bool Lia Arith.
Import ListNotations.
Local Open Scope string_scope.
Local Open Scope list_scope.
Local Open Scope Z_scope.

(* ================================================================== *)
(** ** Rows of the persisted tables *)
(* ================================================================== *)

(** [entries(id, user_id, ...)]: the two columns the storage code reads. *)
Record EntryRow := mkEntry {
  entry_id : Z;
  entry_user_id : Z
}.

(** [tags(id, user_id, name, created_at)]. *)
Record TagRow := mkTag {
  tag_id : Z;
  tag_user_id : Z;
  tag_name : string;
  tag_created_at : Z
}.

(** [entry_tags(entry_id, tag_id, source, created_at)]. *)
Record EntryTagRow := mkEntryTag {
  et_entry_id : Z;
  et_tag_id : Z;
  et_source : string;
  et_created_at : Z
}.

(** [clusters(id, user_id, name, created_at, expires_at)];
    [expires_at] is nullable. *)
Record ClusterRow := mkClusterRow {
  cluster_id : Z;
  cluster_user_id : Z;
  cluster_name : string;
  cluster_created_at : Z;
  cluster_expires_at : option Z
}.

(** [cluster_entries(cluster_id, entry_id)]. *)
Record ClusterEntry := mkClusterEntry {
  ClusterID : Z;
  EntryID : Z
}.

Record DB := mkDB {
  entries : list EntryRow;
  tags : list TagRow;
  entry_tags : list EntryTagRow;
  clusters : list ClusterRow;
  cluster_entries : list ClusterEntry
}.

Definition set_tags (d : DB) (l : list TagRow) : DB :=
  mkDB (entries d) l (entry_tags d) (clusters d) (cluster_entries d).
Definition set_entry_tags (d : DB) (l : list EntryTagRow) : DB :=
  mkDB (entries d) (tags d) l (clusters d) (cluster_entries d).
Definition set_clusters (d : DB) (l : list ClusterRow) : DB :=
  mkDB (entries d) (tags d) (entry_tags d) l (cluster_entries d).
Definition set_cluster_entries (d : DB) (l : list ClusterEntry) : DB :=
  mkDB (entries d) (tags d) (entry_tags d) (clusters d) l.

(* ================================================================== *)
(** ** internal/model *)
(* ================================================================== *)

Definition TagSourceManual : string := "manual".
Definition TagSourceAuto : string := "auto".

(** [model.Cluster].  The [Entries] field holds [model.Entry] values, a type
    declared outside the files at hand; no operation below but
    [GetClusterWithEntries] fills it, so it is left out. *)
Record Cluster := mkCluster {
  ID : Z;
  UserID : Z;
  Name : string;
  CreatedAt : Z;
  ExpiresAt : option Z;
  EntryCount : option Z
}.

(* ================================================================== *)
(** ** internal/model: requests and joined rows *)
(* ================================================================== *)

(** [model.TagCreationRequest]. *)
Module TagCreationRequest.
Record t := mk { Name : string }.
End TagCreationRequest.

(** [model.TagModificationRequest]; [Name] is a [*string]. *)
Module TagModificationRequest.
Record t := mk { Name : option string }.
End TagModificationRequest.

(** [model.EntryTagRequest]. *)
Module EntryTagRequest.
Record t := mk { TagIDs : list Z }.
End EntryTagRequest.

(** [model.EntryTagByNameRequest]. *)
Module EntryTagByNameRequest.
Record t := mk { TagNames : list string; Source : string }.
End EntryTagByNameRequest.

(** [model.EntryTag]: an association with the name of its tag. *)
Module EntryTag.
Record t := mk {
  EntryID : Z;
  TagID : Z;
  Source : string;
  CreatedAt : Z;
  TagName : string
}.
End EntryTag.


(** A [*locale.LocalizedError], by the key of its message. *)
Definition LocalizedError : Type := string.

(* ================================================================== *)
(** ** Errors and the storage monad *)
(* ================================================================== *)

(** Go [error] values: the two failures of [database/sql] the code can
    meet, [errors.New], and [fmt.Errorf] with its format, integer arguments
    and wrapped cause. *)
Inductive error :=
| ErrNoRows
| ErrDriver (reason : string)
| New (msg : string)
| Errorf (format : string) (args : list Z) (cause : error).

Inductive result (A : Type) :=
| Ok (a : A)
| Err (e : error).
Arguments Ok {A} a.
Arguments Err {A} e.

(** The connection as one caller sees it: the committed tables, the working
    copy of the transaction it has open (if any), the reading of the
    server clock behind [NOW()], and the number of round trips made. *)
Record World := mkWorld {
  store : DB;
  txn : option DB;
  now : Z;
  calls : nat
}.

Definition M (A : Type) : Type := World -> result A * World.

Definition ret {A} (a : A) : M A := fun w => (Ok a, w).

Definition bind {A B} (m : M A) (k : A -> M B) : M B :=
  fun w => match m w with
           | (Ok a, w1) => k a w1
           | (Err e, w1) => (Err e, w1)
           end.

Declare Scope store_scope.
Delimit Scope store_scope with store.
Notation "x <- m ;; k" := (bind m (fun x => k))
  (at level 61, m at next level, right associativity) : store_scope.
Notation "m ;;; k" := (bind m (fun _ => k))
  (at level 61, right associativity) : store_scope.
Local Open Scope store_scope.

(** [if err != nil { return fmt.Errorf(format, args..., err) }]. *)
Definition wrap {A} (format : string) (args : list Z) (m : M A) : M A :=
  fun w => match m w with
           | (Ok a, w1) => (Ok a, w1)
           | (Err e, w1) => (Err (Errorf format args e), w1)
           end.

(** A statement maps the clock and the tables to the new tables and the
    number of affected rows, or to [None] when a constraint rejects it. *)
Definition Stmt : Type := Z -> DB -> option (DB * Z).

Definition set_store (w : World) (d : DB) : World :=
  mkWorld d (txn w) (now w) (calls w).
Definition set_txn (w : World) (t : option DB) : World :=
  mkWorld (store w) t (now w) (calls w).
Definition tick (w : World) : World :=
  mkWorld (store w) (txn w) (now w) (S (calls w)).

(** What a handler sends: the call of [internal/http/response/json] it
    ends in, with the value it passes. *)
Inductive body :=
| BodyTags (tags : list TagRow)
| BodyTagsWithCount (tags : list (TagRow * Z))
| BodyTag (tag : TagRow)
| BodyEntryTags (entryTags : list EntryTag.t).

(** [json.BadRequest] is given the decoder's error ([None] here) or the
    message of a validation error. *)
Inductive response :=
| OK (b : body)
| Created (b : body)
| NoContent
| BadRequest (reason : option LocalizedError)
| NotFound
| ServerError (e : error).

Definition Handler : Type := World -> response * World.

Section Storage.

(** [faults k] tells whether the [k]-th round trip to the server fails
    (connection loss and the like). *)
Variable faults : nat -> bool.

Definition roundtrip : M unit :=
  fun w => if faults (calls w)
           then (Err (ErrDriver "bad connection"), tick w)
           else (Ok tt, tick w).

(** [s.db.QueryRow(query, args...).Scan(...)]: the first row of the answer,
    [sql.ErrNoRows] when there is none. *)
Definition db_QueryRow {A} (q : Z -> DB -> list A) : M A :=
  roundtrip ;;;
  fun w => match q (now w) (store w) with
           | r :: _ => (Ok r, w)
           | [] => (Err ErrNoRows, w)
           end.

(** [s.db.Query(query, args...)] followed by the [rows.Next()] loop. *)
Definition db_Query {A} (q : Z -> DB -> list A) : M (list A) :=
  roundtrip ;;;
  fun w => (Ok (q (now w) (store w)), w).

(** [s.db.Exec(query, args...)]: one statement, committed on its own. *)
Definition db_Exec (stmt : Stmt) : M Z :=
  roundtrip ;;;
  fun w => match stmt (now w) (store w) with
           | Some (d, n) => (Ok n, set_store w d)
           | None => (Err (ErrDriver "constraint violation"), w)
           end.

(** [s.db.Begin()]. *)
Definition db_Begin : M unit :=
  roundtrip ;;;
  fun w => (Ok tt, set_txn w (Some (store w))).

(** [tx.Prepare(query)]. *)
Definition tx_Prepare : M unit := roundtrip.

(** [tx.Exec(query, args...)] and [stmt.Exec(args...)] of a statement
    prepared on [tx]: the statement runs on the transaction's working
    copy. *)
Definition tx_Exec (stmt : Stmt) : M Z :=
  roundtrip ;;;
  fun w => match txn w with
           | Some d =>
               match stmt (now w) d with
               | Some (d', n) => (Ok n, set_txn w (Some d'))
               | None => (Err (ErrDriver "constraint violation"), w)
               end
           | None => (Err (ErrDriver "transaction has already been committed or rolled back"), w)
           end.

(** [tx.Rollback()]; the code never looks at its result. *)
Definition tx_Rollback (w : World) : World := set_txn w None.

(** [tx.Commit()]. *)
Definition tx_Commit : M unit :=
  fun w => match roundtrip w with
           | (Err e, w1) => (Err e, set_txn w1 None)
           | (Ok _, w1) =>
               match txn w1 with
               | Some d => (Ok tt, set_txn (set_store w1 d) None)
               | None => (Err (ErrDriver "transaction has already been committed or rolled back"), w1)
               end
           end.

(** [if _, err := ...; err != nil { tx.Rollback(); return fmt.Errorf(...) }]. *)
Definition wrap_rollback {A} (format : string) (args : list Z) (m : M A) : M A :=
  fun w => match m w with
           | (Ok a, w1) => (Ok a, w1)
           | (Err e, w1) => (Err (Errorf format args e), tx_Rollback w1)
           end.

(* ================================================================== *)
(** ** Schema constraints *)
(* ================================================================== *)

(** Modelled from the spec: the migrations that declare the tables are not
    among the files at hand.  The persisted layout of the spec has two
    relations, [tags] and [clusters], "each with a dependent association
    table" with composite uniqueness on its pair of ids: a row of
    [entry_tags] or [cluster_entries] references a stored parent and a
    stored entry, and is removed with its parent (the cascade the comments
    of [RemoveTag], [MergeTags] and [RemoveCluster] rely on).  An insert
    that adds a row whose references are not stored is rejected. *)
Definition has_entry (d : DB) (e : Z) : bool :=
  existsb (fun r => entry_id r =? e) (entries d).
Definition has_tag (d : DB) (t : Z) : bool :=
  existsb (fun r => tag_id r =? t) (tags d).
Definition has_cluster (d : DB) (c : Z) : bool :=
  existsb (fun r => cluster_id r =? c) (clusters d).

Definition ce_is (c e : Z) (r : ClusterEntry) : bool :=
  (ClusterID r =? c) && (EntryID r =? e).
Definition et_is (e t : Z) (r : EntryTagRow) : bool :=
  (et_entry_id r =? e) && (et_tag_id r =? t).

Definition fk_entry_tag (d : DB) (r : EntryTagRow) : bool :=
  has_tag d (et_tag_id r) && has_entry d (et_entry_id r).

(* ================================================================== *)
(** ** internal/storage/cluster.go *)
(* ================================================================== *)

(** Stable insertion sort, largest key first: [ORDER BY key DESC]. *)
Fixpoint insert_desc {A} (key : A -> Z) (x : A) (l : list A) : list A :=
  match l with
  | [] => [x]
  | y :: l' => if key x <? key y then y :: insert_desc key x l'
               else x :: y :: l'
  end.

Definition order_by_desc {A} (key : A -> Z) (l : list A) : list A :=
  fold_right (insert_desc key) [] l.

(** [c.expires_at IS NULL OR c.expires_at > NOW()]. *)
Definition not_expired (t : Z) (c : ClusterRow) : bool :=
  match cluster_expires_at c with
  | None => true
  | Some x => t <? x
  end.

(** [expires_at IS NOT NULL AND expires_at < NOW()]. *)
Definition expired (t : Z) (c : ClusterRow) : bool :=
  match cluster_expires_at c with
  | None => false
  | Some x => x <? t
  end.

(** [(SELECT COUNT( * ) FROM cluster_entries WHERE cluster_id = c.id)]. *)
Definition count_cluster_entries (d : DB) (c : Z) : Z :=
  Z.of_nat (List.length (filter (fun r => ClusterID r =? c) (cluster_entries d))).

(** [rows.Scan] into a [model.Cluster] and the [expiresAt.Valid] test. *)
Definition scan_cluster (c : ClusterRow) (count : option Z) : Cluster :=
  mkCluster (cluster_id c) (cluster_user_id c) (cluster_name c)
            (cluster_created_at c) (cluster_expires_at c) count.

Definition select_cluster_by_id (userID clusterID : Z) : Z -> DB -> list ClusterRow :=
  fun _ d => filter (fun c => (cluster_user_id c =? userID) && (cluster_id c =? clusterID))
                    (clusters d).

Definition ClusterByID (userID clusterID : Z) : M (option Cluster) :=
  fun w => match db_QueryRow (select_cluster_by_id userID clusterID) w with
           | (Err ErrNoRows, w1) => (Ok None, w1)
           | (Err e, w1) => (Err (Errorf "store: unable to fetch cluster: %v" [] e), w1)
           | (Ok c, w1) => (Ok (Some (scan_cluster c None)), w1)
           end.

Definition select_clusters (userID : Z) : Z -> DB -> list Cluster :=
  fun t d =>
    map (fun c => scan_cluster c (Some (count_cluster_entries d (cluster_id c))))
        (order_by_desc cluster_created_at
           (filter (fun c => (cluster_user_id c =? userID) && not_expired t c)
                   (clusters d))).

Definition Clusters (userID : Z) : M (list Cluster) :=
  wrap "store: unable to fetch clusters: %v" [] (db_Query (select_clusters userID)).

(** [INSERT INTO cluster_entries (cluster_id, entry_id) VALUES ($1, $2)
    ON CONFLICT (cluster_id, entry_id) DO NOTHING]. *)
Definition insert_cluster_entry (clusterID entryID : Z) : Stmt :=
  fun _ d =>
    if existsb (ce_is clusterID entryID) (cluster_entries d) then Some (d, 0)
    else if has_cluster d clusterID && has_entry d entryID
         then Some (set_cluster_entries d
                      (cluster_entries d ++ [mkClusterEntry clusterID entryID]), 1)
         else None.

Definition AddEntryToCluster (clusterID entryID : Z) : M unit :=
  wrap "store: unable to add entry to cluster: %v" []
       (db_Exec (insert_cluster_entry clusterID entryID)) ;;;
  ret tt.

Fixpoint add_entries_loop (clusterID : Z) (entryIDs : list Z) : M unit :=
  match entryIDs with
  | [] => ret tt
  | entryID :: rest =>
      wrap_rollback "store: unable to add entry to cluster: %v" []
                    (tx_Exec (insert_cluster_entry clusterID entryID)) ;;;
      add_entries_loop clusterID rest
  end.

Definition AddEntriesToCluster (clusterID : Z) (entryIDs : list Z) : M unit :=
  if (List.length entryIDs =? 0)%nat then ret tt
  else
    wrap "store: unable to begin transaction: %v" [] db_Begin ;;;
    wrap_rollback "store: unable to prepare statement: %v" [] tx_Prepare ;;;
    add_entries_loop clusterID entryIDs ;;;
    wrap "store: unable to commit transaction: %v" [] tx_Commit.

(** [DELETE FROM cluster_entries WHERE cluster_id = $1 AND entry_id = $2]. *)
Definition delete_cluster_entry (clusterID entryID : Z) : Stmt :=
  fun _ d =>
    let gone := filter (ce_is clusterID entryID) (cluster_entries d) in
    Some (set_cluster_entries d
            (filter (fun r => negb (ce_is clusterID entryID r)) (cluster_entries d)),
          Z.of_nat (List.length gone)).

Definition RemoveEntryFromCluster (clusterID entryID : Z) : M unit :=
  wrap "store: unable to remove entry from cluster: %v" []
       (db_Exec (delete_cluster_entry clusterID entryID)) ;;;
  ret tt.

(** [DELETE FROM clusters WHERE <p>]; the rows of [cluster_entries] that
    reference a deleted cluster go with it. *)
Definition delete_clusters (p : ClusterRow -> bool) (d : DB) : DB * Z :=
  let gone := filter p (clusters d) in
  let ids := map cluster_id gone in
  (mkDB (entries d) (tags d) (entry_tags d)
        (filter (fun c => negb (p c)) (clusters d))
        (filter (fun r => negb (existsb (Z.eqb (ClusterID r)) ids)) (cluster_entries d)),
   Z.of_nat (List.length gone)).

Definition RemoveCluster (userID clusterID : Z) : M unit :=
  count <- wrap "store: unable to remove cluster: %v" []
             (db_Exec (fun _ d => Some (delete_clusters
                (fun c => (cluster_id c =? clusterID) && (cluster_user_id c =? userID)) d))) ;;
  if count =? 0 then fun w => (Err (New "store: cluster not found"), w)
  else ret tt.

(** [DELETE FROM clusters WHERE expires_at IS NOT NULL AND expires_at < NOW()]. *)
Definition delete_expired_clusters : Stmt :=
  fun t d => Some (delete_clusters (expired t) d).

Definition RemoveExpiredClusters : M Z :=
  wrap "store: unable to remove expired clusters: %v" []
       (db_Exec delete_expired_clusters).

Definition select_entry_clusters (entryID userID : Z) : Z -> DB -> list Cluster :=
  fun t d =>
    map (fun c => scan_cluster c None)
        (order_by_desc cluster_created_at
           (flat_map (fun c =>
              map (fun _ => c)
                  (filter (fun ce => (ClusterID ce =? cluster_id c) && (EntryID ce =? entryID))
                          (cluster_entries d)))
              (filter (fun c => (cluster_user_id c =? userID) && not_expired t c)
                      (clusters d)))).

Definition GetEntryClusters (userID entryID : Z) : M (list Cluster) :=
  wrap "store: unable to fetch entry clusters: %v" []
       (db_Query (select_entry_clusters entryID userID)).

(* ================================================================== *)
(** ** internal/storage/tag.go *)
(* ================================================================== *)

(** PostgreSQL's [lower()], which depends on the collation of the server. *)
Variable lower : string -> string.

(** Modelled from the spec: the unique index on tag names is declared in
    the migrations, which are not among the files at hand; the spec has
    "tag name uniqueness is enforced case-insensitively per owner".
    [name_taken l t]: another tag of [t]'s owner in [l] has [t]'s name up
    to case. *)
Definition name_taken (l : list TagRow) (t : TagRow) : bool :=
  existsb (fun o => negb (tag_id o =? tag_id t)
                    && (tag_user_id o =? tag_user_id t)
                    && String.eqb (lower (tag_name o)) (lower (tag_name t))) l.

(** [DELETE FROM tags WHERE <p>] and its cascade on [entry_tags]. *)
Definition delete_tags (p : TagRow -> bool) (d : DB) : DB * Z :=
  let gone := filter p (tags d) in
  let ids := map tag_id gone in
  (mkDB (entries d)
        (filter (fun t => negb (p t)) (tags d))
        (filter (fun r => negb (existsb (Z.eqb (et_tag_id r)) ids)) (entry_tags d))
        (clusters d) (cluster_entries d),
   Z.of_nat (List.length gone)).

(** [UPDATE tags SET name=$1 WHERE id=$2 AND user_id=$3]. *)
Definition update_tag_name (name : string) (id userID : Z) : Stmt :=
  fun _ d =>
    let hit t := (tag_id t =? id) && (tag_user_id t =? userID) in
    let l := map (fun t => if hit t
                           then mkTag (tag_id t) (tag_user_id t) name (tag_created_at t)
                           else t) (tags d) in
    if existsb (fun t => hit t && name_taken l t) l then None
    else Some (set_tags d l, Z.of_nat (List.length (filter hit (tags d)))).

(** [UpdateTag(tag *model.Tag)]; a [model.Tag] has the columns of a row of
    [tags] (and an optional count that [UpdateTag] does not read). *)
Definition UpdateTag (tag : TagRow) : M unit :=
  wrap "store: unable to update tag: %v" []
       (db_Exec (update_tag_name (tag_name tag) (tag_id tag) (tag_user_id tag))) ;;;
  ret tt.

Definition RemoveTag (userID tagID : Z) : M unit :=
  count <- wrap "store: unable to remove tag: %v" []
             (db_Exec (fun _ d => Some (delete_tags
                (fun t => (tag_id t =? tagID) && (tag_user_id t =? userID)) d))) ;;
  if count =? 0 then fun w => (Err (New "store: no tag has been removed"), w)
  else ret tt.

(** The rows an [INSERT ... ON CONFLICT (entry_id, tag_id) DO NOTHING]
    adds to [old] out of the proposed [rows], taken one after the other. *)
Fixpoint do_nothing_on_conflict (old rows : list EntryTagRow) : list EntryTagRow :=
  match rows with
  | [] => []
  | r :: rest =>
      if existsb (et_is (et_entry_id r) (et_tag_id r)) old
      then do_nothing_on_conflict old rest
      else r :: do_nothing_on_conflict (old ++ [r]) rest
  end.

(** [INSERT INTO entry_tags (entry_id, tag_id, source, created_at)
    SELECT et.entry_id, $1, et.source, et.created_at FROM entry_tags et
    WHERE et.tag_id = $2 ON CONFLICT (entry_id, tag_id) DO NOTHING]: the
    rows the [SELECT] proposes, then the statement. *)
Definition select_reassigned (targetTagID sourceTagID : Z) (d : DB) : list EntryTagRow :=
  map (fun et => mkEntryTag (et_entry_id et) targetTagID (et_source et) (et_created_at et))
      (filter (fun et => et_tag_id et =? sourceTagID) (entry_tags d)).

Definition reassign_entry_tags (targetTagID sourceTagID : Z) : Stmt :=
  fun _ d =>
    let added := do_nothing_on_conflict (entry_tags d)
                   (select_reassigned targetTagID sourceTagID d) in
    if forallb (fk_entry_tag d) added
    then Some (set_entry_tags d (entry_tags d ++ added), Z.of_nat (List.length added))
    else None.

(** [DELETE FROM tags WHERE id = $1 AND user_id = $2]. *)
Definition delete_tag_of (tagID userID : Z) : Stmt :=
  fun _ d => Some (delete_tags (fun t => (tag_id t =? tagID) && (tag_user_id t =? userID)) d).

Fixpoint merge_loop (userID targetTagID : Z) (sourceTagIDs : list Z) : M unit :=
  match sourceTagIDs with
  | [] => ret tt
  | sourceTagID :: rest =>
      if sourceTagID =? targetTagID then merge_loop userID targetTagID rest
      else
        wrap_rollback "store: unable to reassign entries: %v" []
                      (tx_Exec (reassign_entry_tags targetTagID sourceTagID)) ;;;
        wrap_rollback "store: unable to delete source tag: %v" []
                      (tx_Exec (delete_tag_of sourceTagID userID)) ;;;
        merge_loop userID targetTagID rest
  end.

Definition MergeTags (userID targetTagID : Z) (sourceTagIDs : list Z) : M unit :=
  wrap "store: unable to begin transaction: %v" [] db_Begin ;;;
  merge_loop userID targetTagID sourceTagIDs ;;;
  wrap "store: unable to commit transaction: %v" [] tx_Commit.

(** [SELECT true FROM entries WHERE id=$1 AND user_id=$2]. *)
Definition select_entry_of (entryID userID : Z) : Z -> DB -> list bool :=
  fun _ d => map (fun _ => true)
                 (filter (fun e => (entry_id e =? entryID) && (entry_user_id e =? userID))
                         (entries d)).

(** [SELECT true FROM tags WHERE id=$1 AND user_id=$2]. *)
Definition select_tag_of (tagID userID : Z) : Z -> DB -> list bool :=
  fun _ d => map (fun _ => true)
                 (filter (fun t => (tag_id t =? tagID) && (tag_user_id t =? userID))
                         (tags d)).

(** [SET source = $s] on a row [WHERE entry_id = $e AND tag_id = $t]. *)
Definition set_source (source : string) (entryID tagID : Z) (r : EntryTagRow) : EntryTagRow :=
  if et_is entryID tagID r
  then mkEntryTag (et_entry_id r) (et_tag_id r) source (et_created_at r)
  else r.

(** [INSERT INTO entry_tags (entry_id, tag_id, source) VALUES ($1, $2, $3)
    ON CONFLICT (entry_id, tag_id) DO UPDATE SET source = $3].  The
    statement names no [created_at]: a new row takes the column's default,
    modelled as the clock. *)
Definition upsert_entry_tag (entryID tagID : Z) (source : string) : Stmt :=
  fun t d =>
    if existsb (et_is entryID tagID) (entry_tags d)
    then Some (set_entry_tags d (map (set_source source entryID tagID) (entry_tags d)), 1)
    else if fk_entry_tag d (mkEntryTag entryID tagID source t)
         then Some (set_entry_tags d (entry_tags d ++ [mkEntryTag entryID tagID source t]), 1)
         else None.

Definition AddTagToEntry (userID entryID tagID : Z) (source : string) : M unit :=
  wrap "store: entry #%d not found for user #%d: %v" [entryID; userID]
       (db_QueryRow (select_entry_of entryID userID)) ;;;
  wrap "store: tag #%d not found for user #%d: %v" [tagID; userID]
       (db_QueryRow (select_tag_of tagID userID)) ;;;
  let source := if String.eqb source "" then TagSourceManual else source in
  wrap "store: unable to add tag #%d to entry #%d: %v" [tagID; entryID]
       (db_Exec (upsert_entry_tag entryID tagID source)) ;;;
  ret tt.

Fixpoint AddTagsToEntry (userID entryID : Z) (tagIDs : list Z) (source : string) : M unit :=
  match tagIDs with
  | [] => ret tt
  | tagID :: rest =>
      AddTagToEntry userID entryID tagID source ;;;
      AddTagsToEntry userID entryID rest source
  end.

(** [DELETE FROM entry_tags WHERE entry_id=$1 AND tag_id=$2]. *)
Definition delete_entry_tag (entryID tagID : Z) : Stmt :=
  fun _ d =>
    Some (set_entry_tags d (filter (fun r => negb (et_is entryID tagID r)) (entry_tags d)),
          Z.of_nat (List.length (filter (et_is entryID tagID) (entry_tags d)))).

Definition RemoveTagFromEntry (userID entryID tagID : Z) : M unit :=
  wrap "store: entry #%d not found for user #%d: %v" [entryID; userID]
       (db_QueryRow (select_entry_of entryID userID)) ;;;
  wrap "store: unable to remove tag #%d from entry #%d: %v" [tagID; entryID]
       (db_Exec (delete_entry_tag entryID tagID)) ;;;
  ret tt.

(** [UPDATE entry_tags SET source=$1 WHERE entry_id=$2 AND tag_id=$3]. *)
Definition update_entry_tag_source (source : string) (entryID tagID : Z) : Stmt :=
  fun _ d =>
    Some (set_entry_tags d (map (set_source source entryID tagID) (entry_tags d)),
          Z.of_nat (List.length (filter (et_is entryID tagID) (entry_tags d)))).

Definition ConfirmAutoTag (userID entryID tagID : Z) : M unit :=
  wrap "store: entry #%d not found for user #%d: %v" [entryID; userID]
       (db_QueryRow (select_entry_of entryID userID)) ;;;
  wrap "store: unable to confirm tag: %v" []
       (db_Exec (update_entry_tag_source TagSourceManual entryID tagID)) ;;;
  ret tt.

(* ================================================================== *)
(** ** internal/storage/tag.go: the tag store *)
(* ================================================================== *)

(** What [nextval] of the sequence behind [tags.id] and behind
    [clusters.id] yields at the [k]-th round trip. *)
Variable tags_id_seq : nat -> Z.
Variable clusters_id_seq : nat -> Z.

(** The collation order of names behind [ORDER BY name ASC]. *)
Variable name_lt : string -> string -> bool.

(** The column [published_at] of a row of [entries]. *)
Variable published_at : EntryRow -> Z.

(** [s.db.QueryRow] of an [INSERT ... RETURNING]: the statement, given the
    index of its round trip, writes the tables and hands back a row. *)
Definition db_QueryRowReturning {A} (stmt : nat -> Z -> DB -> option (DB * A)) : M A :=
  fun w => match roundtrip w with
           | (Err e, w1) => (Err e, w1)
           | (Ok _, w1) =>
               match stmt (calls w) (now w) (store w) with
               | Some (d, a) => (Ok a, set_store w1 d)
               | None => (Err (ErrDriver "constraint violation"), w1)
               end
           end.

(** [ORDER BY]: stable insertion sort; [ahead y x] tells that [y] sorts
    strictly before [x]. *)
Fixpoint insert_by {A} (ahead : A -> A -> bool) (x : A) (l : list A) : list A :=
  match l with
  | [] => [x]
  | y :: l' => if ahead y x then y :: insert_by ahead x l'
               else x :: y :: l'
  end.

Definition order_by {A} (ahead : A -> A -> bool) (l : list A) : list A :=
  fold_right (insert_by ahead) [] l.

(** [SELECT id, user_id, name, created_at FROM tags WHERE user_id=$1 AND id=$2]. *)
Definition select_tag_by_id (userID tagID : Z) : Z -> DB -> list TagRow :=
  fun _ d => filter (fun t => (tag_user_id t =? userID) && (tag_id t =? tagID)) (tags d).

Definition TagByID (userID tagID : Z) : M (option TagRow) :=
  fun w => match db_QueryRow (select_tag_by_id userID tagID) w with
           | (Err ErrNoRows, w1) => (Ok None, w1)
           | (Err e, w1) => (Err (Errorf "store: unable to fetch tag: %v" [] e), w1)
           | (Ok t, w1) => (Ok (Some t), w1)
           end.

(** [... WHERE user_id=$1 AND lower(name)=lower($2)]. *)
Definition select_tag_by_name (userID : Z) (name : string) : Z -> DB -> list TagRow :=
  fun _ d => filter (fun t => (tag_user_id t =? userID)
                              && String.eqb (lower (tag_name t)) (lower name)) (tags d).

Definition TagByName (userID : Z) (name : string) : M (option TagRow) :=
  fun w => match db_QueryRow (select_tag_by_name userID name) w with
           | (Err ErrNoRows, w1) => (Ok None, w1)
           | (Err e, w1) => (Err (Errorf "store: unable to fetch tag by name: %v" [] e), w1)
           | (Ok t, w1) => (Ok (Some t), w1)
           end.

(** [... FROM tags WHERE user_id=$1 ORDER BY name ASC]. *)
Definition select_tags (userID : Z) : Z -> DB -> list TagRow :=
  fun _ d => order_by (fun y x => name_lt (tag_name y) (tag_name x))
                      (filter (fun t => tag_user_id t =? userID) (tags d)).

Definition Tags (userID : Z) : M (list TagRow) :=
  wrap "store: unable to fetch tags: %v" [] (db_Query (select_tags userID)).

(** [COUNT(et.entry_id)] of the [LEFT JOIN entry_tags et ON t.id = et.tag_id]
    grouped by the columns of [t]. *)
Definition count_tag_entries (d : DB) (t : TagRow) : Z :=
  Z.of_nat (List.length (filter (fun et => et_tag_id et =? tag_id t) (entry_tags d))).

(** [TagsWithCount]: each [model.Tag] with its [EntryCount]. *)
Definition select_tags_with_count (userID : Z) : Z -> DB -> list (TagRow * Z) :=
  fun _ d => map (fun t => (t, count_tag_entries d t))
                 (order_by (fun y x => name_lt (tag_name y) (tag_name x))
                           (filter (fun t => tag_user_id t =? userID) (tags d))).

Definition TagsWithCount (userID : Z) : M (list (TagRow * Z)) :=
  wrap "store: unable to fetch tags with count: %v" []
       (db_Query (select_tags_with_count userID)).

(** [INSERT INTO tags (user_id, name) VALUES ($1, $2) RETURNING id, user_id,
    name, created_at]: [id] comes from the sequence, [created_at] from the
    clock; the primary key and the index on names reject a clash. *)
Definition insert_tag (userID : Z) (name : string) : nat -> Z -> DB -> option (DB * TagRow) :=
  fun k t d =>
    let row := mkTag (tags_id_seq k) userID name t in
    if has_tag d (tag_id row) || name_taken (tags d) row then None
    else Some (set_tags d (tags d ++ [row]), row).

(** [CreateTag]; the name, a [%q] argument of the format, is not among the
    integer arguments kept with the error. *)
Definition CreateTag (userID : Z) (request : TagCreationRequest.t) : M TagRow :=
  wrap "store: unable to create tag %q for user ID %d: %v" [userID]
       (db_QueryRowReturning (insert_tag userID (TagCreationRequest.Name request))).

(** [s.db.QueryRow(query, args...).Scan(&result); return result]: the
    methods built on it return a [bool] and no error; a failed query or an
    empty answer leaves [result] false. *)
Definition scan_bool (q : Z -> DB -> list bool) : World -> bool * World :=
  fun w => match db_QueryRow q w with
           | (Ok b, w1) => (b, w1)
           | (Err _, w1) => (false, w1)
           end.

(** [SELECT true FROM tags WHERE user_id=$1 AND id=$2 LIMIT 1]. *)
Definition TagIDExists (userID tagID : Z) : World -> bool * World :=
  scan_bool (fun _ d =>
    firstn 1 (map (fun _ => true)
                  (filter (fun t => (tag_user_id t =? userID) && (tag_id t =? tagID))
                          (tags d)))).

(** [SELECT true FROM tags WHERE user_id=$1 AND lower(name)=lower($2) LIMIT 1]. *)
Definition TagNameExists (userID : Z) (name : string) : World -> bool * World :=
  scan_bool (fun _ d =>
    firstn 1 (map (fun _ => true)
                  (filter (fun t => (tag_user_id t =? userID)
                                    && String.eqb (lower (tag_name t)) (lower name))
                          (tags d)))).

(** [SELECT true FROM tags WHERE user_id=$1 AND id != $2 AND
    lower(name)=lower($3) LIMIT 1]. *)
Definition AnotherTagExists (userID tagID : Z) (name : string) : World -> bool * World :=
  scan_bool (fun _ d =>
    firstn 1 (map (fun _ => true)
                  (filter (fun t => (tag_user_id t =? userID)
                                    && negb (tag_id t =? tagID)
                                    && String.eqb (lower (tag_name t)) (lower name))
                          (tags d)))).

Definition GetOrCreateTag (userID : Z) (name : string) : M TagRow :=
  tag <- TagByName userID name ;;
  match tag with
  | Some t => ret t
  | None => CreateTag userID (TagCreationRequest.mk name)
  end.

(* ================================================================== *)
(** ** internal/storage/tag.go: entry-tag associations, continued *)
(* ================================================================== *)

Definition AddTagToEntryByName (userID entryID : Z) (tagName source : string) : M unit :=
  tag <- GetOrCreateTag userID tagName ;;
  AddTagToEntry userID entryID (tag_id tag) source.

Fixpoint AddTagsToEntryByName (userID entryID : Z) (tagNames : list string)
                              (source : string) : M unit :=
  match tagNames with
  | [] => ret tt
  | tagName :: rest =>
      AddTagToEntryByName userID entryID tagName source ;;;
      AddTagsToEntryByName userID entryID rest source
  end.

(** [DELETE FROM entry_tags WHERE entry_id=$1]. *)
Definition delete_entry_tags_of (entryID : Z) : Stmt :=
  fun _ d =>
    Some (set_entry_tags d (filter (fun r => negb (et_entry_id r =? entryID)) (entry_tags d)),
          Z.of_nat (List.length (filter (fun r => et_entry_id r =? entryID) (entry_tags d)))).

Definition RemoveAllTagsFromEntry (userID entryID : Z) : M unit :=
  wrap "store: entry #%d not found for user #%d: %v" [entryID; userID]
       (db_QueryRow (select_entry_of entryID userID)) ;;;
  wrap "store: unable to remove all tags from entry #%d: %v" [entryID]
       (db_Exec (delete_entry_tags_of entryID)) ;;;
  ret tt.

(** [entry_tags et JOIN tags t ON et.tag_id = t.id] on the rows of [et]
    that pass [p], with [WHERE t.user_id = $2]: one [model.EntryTag] per
    pair of joined rows. *)
Definition join_entry_tags (p : EntryTagRow -> bool) (userID : Z) (d : DB) : list EntryTag.t :=
  flat_map (fun et =>
     map (fun t => EntryTag.mk (et_entry_id et) (et_tag_id et) (et_source et)
                               (et_created_at et) (tag_name t))
         (filter (fun t => (tag_id t =? et_tag_id et) && (tag_user_id t =? userID)) (tags d)))
     (filter p (entry_tags d)).

(** [... WHERE et.entry_id = $1 AND t.user_id = $2 ORDER BY t.name ASC]. *)
Definition select_entry_tags (entryID userID : Z) : Z -> DB -> list EntryTag.t :=
  fun _ d => order_by (fun y x => name_lt (EntryTag.TagName y) (EntryTag.TagName x))
                      (join_entry_tags (fun et => et_entry_id et =? entryID) userID d).

Definition GetEntryTags (userID entryID : Z) : M (list EntryTag.t) :=
  wrap "store: unable to fetch entry tags: %v" [] (db_Query (select_entry_tags entryID userID)).

(** [... WHERE et.entry_id = $1 AND t.user_id = $2 AND et.source = $3
    ORDER BY t.name ASC]. *)
Definition select_auto_tags (entryID userID : Z) : Z -> DB -> list EntryTag.t :=
  fun _ d => order_by (fun y x => name_lt (EntryTag.TagName y) (EntryTag.TagName x))
                      (join_entry_tags (fun et => (et_entry_id et =? entryID)
                                                  && String.eqb (et_source et) TagSourceAuto)
                                       userID d).

Definition GetAutoTagsForEntry (userID entryID : Z) : M (list EntryTag.t) :=
  wrap "store: unable to fetch auto tags: %v" [] (db_Query (select_auto_tags entryID userID)).

(** [entry_tags et JOIN entries e ON et.entry_id = e.id WHERE et.tag_id = $1
    AND e.user_id = $2]. *)
Definition join_tagged_entries (tagID userID : Z) (d : DB) : list (EntryTagRow * EntryRow) :=
  flat_map (fun et =>
     map (fun e => (et, e))
         (filter (fun e => (entry_id e =? et_entry_id et) && (entry_user_id e =? userID))
                 (entries d)))
     (filter (fun et => et_tag_id et =? tagID) (entry_tags d)).

(** [SELECT et.entry_id ... ORDER BY e.published_at DESC]. *)
Definition select_entries_with_tag (tagID userID : Z) : Z -> DB -> list Z :=
  fun _ d => map (fun p => et_entry_id (fst p))
                 (order_by_desc (fun p => published_at (snd p))
                                (join_tagged_entries tagID userID d)).

Definition GetEntriesWithTag (userID tagID : Z) : M (list Z) :=
  wrap "store: unable to fetch entries with tag: %v" []
       (db_Query (select_entries_with_tag tagID userID)).

(** [DELETE FROM entry_tags WHERE entry_id = $1 AND source = $2 AND tag_id IN
    (SELECT id FROM tags WHERE user_id = $3)]. *)
Definition delete_auto_entry_tags (entryID userID : Z) : Stmt :=
  fun _ d =>
    let hit r := (et_entry_id r =? entryID) && String.eqb (et_source r) TagSourceAuto
                 && existsb (Z.eqb (et_tag_id r))
                            (map tag_id (filter (fun t => tag_user_id t =? userID) (tags d))) in
    Some (set_entry_tags d (filter (fun r => negb (hit r)) (entry_tags d)),
          Z.of_nat (List.length (filter hit (entry_tags d)))).

Definition RemoveAutoTagsFromEntry (userID entryID : Z) : M unit :=
  wrap "store: unable to remove auto tags from entry #%d: %v" [entryID]
       (db_Exec (delete_auto_entry_tags entryID userID)) ;;;
  ret tt.

(** [SELECT COUNT(et.entry_id) FROM entry_tags et JOIN entries e ON
    et.entry_id = e.id WHERE et.tag_id = $1 AND e.user_id = $2]: one row. *)
Definition CountEntriesWithTag (userID tagID : Z) : M Z :=
  wrap "store: unable to count entries with tag: %v" []
       (db_QueryRow (fun _ d => [Z.of_nat (List.length (join_tagged_entries tagID userID d))])).

(** [result[entryID] = append(result[entryID], tagName)] on a Go map held
    as an association list. *)
Fixpoint map_append (k : Z) (v : string) (m : list (Z * list string)) : list (Z * list string) :=
  match m with
  | [] => [(k, [v])]
  | (k', vs) :: m' => if k' =? k then (k', vs ++ [v]) :: m'
                      else (k', vs) :: map_append k v m'
  end.

(** [result[entryID]], [nil] for a key that is not there. *)
Fixpoint map_lookup (k : Z) (m : list (Z * list string)) : list string :=
  match m with
  | [] => []
  | (k', vs) :: m' => if k' =? k then vs else map_lookup k m'
  end.

(** [SELECT et.entry_id, t.name FROM entry_tags et JOIN tags t ON et.tag_id =
    t.id WHERE t.user_id = $1 AND et.entry_id = ANY($2) ORDER BY et.entry_id,
    t.name]. *)
Definition select_tag_names (userID : Z) (entryIDs : list Z) : Z -> DB -> list (Z * string) :=
  fun _ d =>
    order_by (fun y x => (fst y <? fst x) || ((fst y =? fst x) && name_lt (snd y) (snd x)))
             (map (fun r => (EntryTag.EntryID r, EntryTag.TagName r))
                  (join_entry_tags (fun et => existsb (Z.eqb (et_entry_id et)) entryIDs)
                                   userID d)).

Definition GetTagNamesForEntries (userID : Z) (entryIDs : list Z) : M (list (Z * list string)) :=
  if (List.length entryIDs =? 0)%nat then ret []
  else
    rows <- wrap "store: unable to fetch tag names for entries: %v" []
              (db_Query (select_tag_names userID entryIDs)) ;;
    ret (fold_left (fun result row => map_append (fst row) (snd row) result) rows []).

(* ================================================================== *)
(** ** internal/storage/cluster.go, continued *)
(* ================================================================== *)

(** [INSERT INTO clusters (user_id, name, expires_at) VALUES ($1, $2, $3)
    RETURNING id, user_id, name, created_at, expires_at]. *)
Definition insert_cluster (userID : Z) (name : string) (expiresAt : option Z)
  : nat -> Z -> DB -> option (DB * ClusterRow) :=
  fun k t d =>
    let row := mkClusterRow (clusters_id_seq k) userID name t expiresAt in
    if has_cluster d (cluster_id row) then None
    else Some (set_clusters d (clusters d ++ [row]), row).

Definition CreateCluster (userID : Z) (name : string) (expiresAt : option Z) : M Cluster :=
  row <- wrap "store: unable to create cluster: %v" []
           (db_QueryRowReturning (insert_cluster userID name expiresAt)) ;;
  ret (scan_cluster row None).

(** [DELETE FROM clusters WHERE user_id = $1]. *)
Definition RemoveAllClusters (userID : Z) : M unit :=
  wrap "store: unable to remove all clusters: %v" []
       (db_Exec (fun _ d => Some (delete_clusters (fun c => cluster_user_id c =? userID) d))) ;;;
  ret tt.

(* ================================================================== *)
(** ** internal/validator/tag.go *)
(* ================================================================== *)

Definition ValidateTagCreation (userID : Z) (request : TagCreationRequest.t)
  : World -> option LocalizedError * World :=
  fun w =>
    if String.eqb (TagCreationRequest.Name request) "" then
      (Some "error.tag_name_required", w)
    else if (255 <? String.length (TagCreationRequest.Name request))%nat then
      (Some "error.tag_name_too_long", w)
    else
      let (taken, w1) := TagNameExists userID (TagCreationRequest.Name request) w in
      if taken then (Some "error.tag_already_exists", w1) else (None, w1).

Definition ValidateTagModification (userID tagID : Z) (request : TagModificationRequest.t)
  : World -> option LocalizedError * World :=
  fun w =>
    match TagModificationRequest.Name request with
    | Some name =>
        if String.eqb name "" then (Some "error.tag_name_required", w)
        else if (255 <? String.length name)%nat then (Some "error.tag_name_too_long", w)
        else
          let (taken, w1) := AnotherTagExists userID tagID name w in
          if taken then (Some "error.tag_already_exists", w1) else (None, w1)
    | None => (None, w)
    end.

Definition ValidateEntryTagRequest (request : EntryTagRequest.t) : option LocalizedError :=
  if (List.length (EntryTagRequest.TagIDs request) =? 0)%nat
  then Some "error.tag_ids_required"
  else None.

(** The loop over [request.TagNames]: the error of the first name that is
    empty or too long. *)
Fixpoint validate_names (names : list string) : option LocalizedError :=
  match names with
  | [] => None
  | name :: rest =>
      if String.eqb name "" then Some "error.tag_name_required"
      else if (255 <? String.length name)%nat then Some "error.tag_name_too_long"
      else validate_names rest
  end.

Definition ValidateEntryTagByNameRequest (request : EntryTagByNameRequest.t)
  : option LocalizedError :=
  if (List.length (EntryTagByNameRequest.TagNames request) =? 0)%nat
  then Some "error.tag_names_required"
  else match validate_names (EntryTagByNameRequest.TagNames request) with
       | Some e => Some e
       | None =>
           if negb (String.eqb (EntryTagByNameRequest.Source request) "")
              && negb (String.eqb (EntryTagByNameRequest.Source request) TagSourceManual)
              && negb (String.eqb (EntryTagByNameRequest.Source request) TagSourceAuto)
           then Some "error.invalid_tag_source"
           else None
       end.

(* ================================================================== *)
(** ** internal/api: the tag handlers *)
(* ================================================================== *)

(** The arguments are what [request.UserID], [request.RouteInt64Param] and
    [request.QueryStringParam] read from the request; a body is the value
    [json_parser.NewDecoder(r.Body).Decode] produced, [None] when it
    failed.  A handler ends in one call of the [json] response package. *)
Definition getTags (userID : Z) (includeCounts : string) : Handler :=
  fun w =>
    if String.eqb includeCounts "true" then
      match TagsWithCount userID w with
      | (Err e, w1) => (ServerError e, w1)
      | (Ok tags, w1) => (OK (BodyTagsWithCount tags), w1)
      end
    else
      match Tags userID w with
      | (Err e, w1) => (ServerError e, w1)
      | (Ok tags, w1) => (OK (BodyTags tags), w1)
      end.

Definition createTag (userID : Z) (body : option TagCreationRequest.t) : Handler :=
  fun w =>
    match body with
    | None => (BadRequest None, w)
    | Some tagCreationRequest =>
        match ValidateTagCreation userID tagCreationRequest w with
        | (Some validationErr, w1) => (BadRequest (Some validationErr), w1)
        | (None, w1) =>
            match CreateTag userID tagCreationRequest w1 with
            | (Err e, w2) => (ServerError e, w2)
            | (Ok tag, w2) => (Created (BodyTag tag), w2)
            end
        end
    end.



Definition getEntryTags (userID entryID : Z) : Handler :=
  fun w =>
    match GetEntryTags userID entryID w with
    | (Err e, w1) => (ServerError e, w1)
    | (Ok entryTags, w1) => (OK (BodyEntryTags entryTags), w1)
    end.

Definition addTagsToEntry (userID entryID : Z) (body : option EntryTagByNameRequest.t)
  : Handler :=
  fun w =>
    match body with
    | None => (BadRequest None, w)
    | Some tagRequest =>
        match ValidateEntryTagByNameRequest tagRequest with
        | Some validationErr => (BadRequest (Some validationErr), w)
        | None =>
            let source := if String.eqb (EntryTagByNameRequest.Source tagRequest) ""
                          then TagSourceManual
                          else EntryTagByNameRequest.Source tagRequest in
            match AddTagsToEntryByName userID entryID
                    (EntryTagByNameRequest.TagNames tagRequest) source w with
            | (Err e, w1) => (ServerError e, w1)
            | (Ok _, w1) =>
                match GetEntryTags userID entryID w1 with
                | (Err e, w2) => (ServerError e, w2)
                | (Ok entryTags, w2) => (Created (BodyEntryTags entryTags), w2)
                end
            end
        end
    end.

Definition removeTagFromEntry (userID entryID tagID : Z) : Handler :=
  fun w =>
    match RemoveTagFromEntry userID entryID tagID w with
    | (Err e, w1) => (ServerError e, w1)
    | (Ok _, w1) => (NoContent, w1)
    end.

Definition confirmAutoTag (userID entryID tagID : Z) : Handler :=
  fun w =>
    match ConfirmAutoTag userID entryID tagID w with
    | (Err e, w1) => (ServerError e, w1)
    | (Ok _, w1) => (NoContent, w1)
    end.

Definition dismissAutoTag (userID entryID tagID : Z) : Handler :=
  fun w =>
    match RemoveTagFromEntry userID entryID tagID w with
    | (Err e, w1) => (ServerError e, w1)
    | (Ok _, w1) => (NoContent, w1)
    end.

End Storage.

(* ================================================================== *)
(** ** Invariants of the stored state *)
(* ================================================================== *)

Fixpoint distinct (l : list Z) : bool :=
  match l with
  | [] => true
  | x :: l' => negb (existsb (Z.eqb x) l') && distinct l'
  end.

(** No two rows of [l] are the [same]. *)
Fixpoint unique_by {A} (same : A -> A -> bool) (l : list A) : bool :=
  match l with
  | [] => true
  | r :: l' => negb (existsb (same r) l') && unique_by same l'
  end.

(** The primary key of [clusters]. *)
Definition pk_clusters (d : DB) : bool := distinct (map cluster_id (clusters d)).

(** I3: at most one association per [(entryID, tagID)]. *)
Definition et_unique : list EntryTagRow -> bool :=
  unique_by (fun r => et_is (et_entry_id r) (et_tag_id r)).
Definition I3 (d : DB) : bool := et_unique (entry_tags d).

(** I4: at most one membership per [(clusterID, entryID)]. *)
Definition ce_unique : list ClusterEntry -> bool :=
  unique_by (fun r => ce_is (ClusterID r) (EntryID r)).
Definition I4 (d : DB) : bool := ce_unique (cluster_entries d).

(** I2: every association references a stored tag whose owner owns the
    associated entry. *)
Definition isolated (d : DB) (r : EntryTagRow) : bool :=
  existsb (fun t => (tag_id t =? et_tag_id r)
                    && existsb (fun e => (entry_id e =? et_entry_id r)
                                         && (entry_user_id e =? tag_user_id t))
                               (entries d))
          (tags d).
Definition I2 (d : DB) : bool := forallb (isolated d) (entry_tags d).

(** Number of rows of [entry_tags] for a pair, of [cluster_entries] for a
    pair. *)
Definition count_et (d : DB) (e t : Z) : nat :=
  List.length (filter (et_is e t) (entry_tags d)).
Definition count_ce (d : DB) (c e : Z) : nat :=
  List.length (filter (ce_is c e) (cluster_entries d)).

(** A driver that never fails. *)
Definition reliable : nat -> bool := fun _ => false.

(** [n] calls of [AddEntryToCluster] for the same pair, one after the other,
    stopping at the first error. *)
Fixpoint add_entry_times (faults : nat -> bool) (n : nat) (clusterID entryID : Z) : M unit :=
  match n with
  | O => ret tt
  | S n' => bind (AddEntryToCluster faults clusterID entryID)
                 (fun _ => add_entry_times faults n' clusterID entryID)
  end.

(* ================================================================== *)
(** ** What the operations leave behind *)
(* ================================================================== *)

(** The tables [AddTagToEntry] leaves when all goes well. *)
Definition attached (d : DB) (entryID tagID : Z) (source : string) (t : Z) : DB :=
  set_entry_tags d
    (if existsb (et_is entryID tagID) (entry_tags d)
     then map (set_source source entryID tagID) (entry_tags d)
     else entry_tags d ++ [mkEntryTag entryID tagID source t]).

(** The source tags the loop does not skip. *)
Definition merged_sources (targetTagID : Z) (sourceTagIDs : list Z) : list Z :=
  filter (fun s => negb (s =? targetTagID)) sourceTagIDs.

(** What the statements of the loop make of the working copy [d] when none
    of them is rejected. *)
Fixpoint merged (userID targetTagID : Z) (sourceTagIDs : list Z) (t : Z) (d : DB)
  : option DB :=
  match sourceTagIDs with
  | [] => Some d
  | s :: rest =>
      if s =? targetTagID then merged userID targetTagID rest t d
      else match reassign_entry_tags targetTagID s t d with
           | Some (d1, _) =>
               match delete_tag_of s userID t d1 with
               | Some (d2, _) => merged userID targetTagID rest t d2
               | None => None
               end
           | None => None
           end
  end.

(** A stored tag with id [x] belongs to [userID]. *)
Definition owned_by (userID x : Z) (d : DB) : bool :=
  existsb (fun t => (tag_id t =? x) && (tag_user_id t =? userID)) (tags d).

(** [x] is one of the source ids [done] and a tag of [userID] in [d0]: the
    tags the [DELETE] of the loop removes. *)
Definition removed (userID : Z) (done : list Z) (d0 : DB) (x : Z) : bool :=
  existsb (Z.eqb x) done && owned_by userID x d0.

(** How the working copy [d] stands to the tables [d0] the transaction
    started from, once the loop has dealt with the source ids [done]. *)
Record merge_inv (userID targetTagID : Z) (d0 : DB) (done : list Z) (d : DB) : Prop := {
  inv_entries : entries d = entries d0;
  inv_clusters : clusters d = clusters d0;
  inv_cluster_entries : cluster_entries d = cluster_entries d0;
  inv_tags :
    tags d = filter (fun t => negb (existsb (Z.eqb (tag_id t)) done
                                    && (tag_user_id t =? userID))) (tags d0);
  inv_other :
    forall r, et_tag_id r <> targetTagID ->
      (In r (entry_tags d) <->
       In r (entry_tags d0) /\ removed userID done d0 (et_tag_id r) = false);
  inv_kept :
    forall r, In r (entry_tags d0) -> et_tag_id r = targetTagID -> In r (entry_tags d);
  inv_origin :
    forall r', In r' (entry_tags d) -> et_tag_id r' = targetTagID ->
      In r' (entry_tags d0) \/
      (existsb (et_is (et_entry_id r') targetTagID) (entry_tags d0) = false /\
       exists r, In r (entry_tags d0) /\ In (et_tag_id r) done /\
                 et_entry_id r = et_entry_id r' /\ et_source r = et_source r' /\
                 et_created_at r = et_created_at r');
  inv_moved :
    forall r, In r (entry_tags d0) -> In (et_tag_id r) done ->
      existsb (et_is (et_entry_id r) targetTagID) (entry_tags d) = true;
  inv_unique : et_unique (entry_tags d0) = true -> et_unique (entry_tags d) = true
}.

(* ================================================================== *)
(** ** Sample states *)
(* ================================================================== *)

(** A fresh connection on the tables [d] with the clock at [t]. *)
Definition world_of (d : DB) (t : Z) : World := mkWorld d None t 0.

(** Tags A, B, C of user 1 and an entry tagged with both A and B. *)
Definition merge_db : DB :=
  mkDB [mkEntry 42 1]
       [mkTag 1 1 "a" 10; mkTag 2 1 "b" 20; mkTag 3 1 "c" 30]
       [mkEntryTag 42 1 "auto" 100; mkEntryTag 42 2 "manual" 200] [] [].

(** Two users, each with a tag; user 2 has tagged its entry 10. *)
Definition two_owners_db : DB :=
  mkDB [mkEntry 10 2; mkEntry 11 1]
       [mkTag 1 1 "go" 1; mkTag 2 2 "rust" 2]
       [mkEntryTag 10 2 "manual" 7] [] [].

(** Five clusters, of which three have expired when the clock reads 1000. *)
Definition sweep_db : DB :=
  mkDB [mkEntry 42 1] [] []
       [mkClusterRow 1 1 "c1" 10 (Some 500); mkClusterRow 2 1 "c2" 20 None;
        mkClusterRow 3 2 "c3" 30 (Some 999); mkClusterRow 4 2 "c4" 40 (Some 2000);
        mkClusterRow 5 1 "c5" 50 (Some 0)]
       [mkClusterEntry 1 42; mkClusterEntry 2 42].

(** The fourth round trip fails, all others go through. *)
Definition fourth_fails : nat -> bool := fun k => Nat.eqb k 3.

(* ================================================================== *)
(** ** Relations between the tables before and after *)
(* ================================================================== *)

(** How the working copy [d'] stands to [d] once the loop has inserted the
    entries [ids] into cluster [c]. *)
Definition batch_added (c : Z) (ids : list Z) (d d' : DB) : Prop :=
  entries d' = entries d /\ tags d' = tags d /\ entry_tags d' = entry_tags d /\
  clusters d' = clusters d /\
  (forall e, In e ids -> In (mkClusterEntry c e) (cluster_entries d')) /\
  (forall r, In r (cluster_entries d) -> In r (cluster_entries d')) /\
  (forall r, In r (cluster_entries d') ->
             In r (cluster_entries d) \/ (ClusterID r = c /\ In (EntryID r) ids)) /\
  (I4 d = true -> I4 d' = true).


(** A list of integers in descending order. *)
Fixpoint descending (l : list Z) : Prop :=
  match l with
  | [] => True
  | x :: l' => (forall y, In y l' -> y <= x) /\ descending l'
  end.

(* ================================================================== *)
(** ** The driver when a round trip goes through *)
(* ================================================================== *)

Section DriverFacts.
Variable faults : nat -> bool.

Lemma roundtrip_ok w :
  faults (calls w) = false -> roundtrip faults w = (Ok tt, tick w).
Proof. unfold roundtrip; intros ->; reflexivity. Qed.

Lemma db_Exec_ok stmt w d n :
  faults (calls w) = false ->
  stmt (now w) (store w) = Some (d, n) ->
  db_Exec faults stmt w = (Ok n, set_store (tick w) d).
Proof.
  intros Hf Hs. unfold db_Exec, bind. rewrite (roundtrip_ok w Hf).
  cbn. rewrite Hs. reflexivity.
Qed.

Lemma db_Query_ok A (q : Z -> DB -> list A) w :
  faults (calls w) = false ->
  db_Query faults q w = (Ok (q (now w) (store w)), tick w).
Proof.
  intros Hf. unfold db_Query, bind. rewrite (roundtrip_ok w Hf). reflexivity.
Qed.

Lemma db_QueryRow_ok A (q : Z -> DB -> list A) w r rest :
  faults (calls w) = false ->
  q (now w) (store w) = r :: rest ->
  db_QueryRow faults q w = (Ok r, tick w).
Proof.
  intros Hf Hq. unfold db_QueryRow, bind. rewrite (roundtrip_ok w Hf).
  cbn. rewrite Hq. reflexivity.
Qed.

End DriverFacts.

(* ================================================================== *)
(** ** Lists *)
(* ================================================================== *)

Lemma In_insert_desc A (key : A -> Z) x y l :
  In y (insert_desc key x l) <-> y = x \/ In y l.
Proof.
  induction l as [|z l IH]; simpl.
  - intuition.
  - destruct (key x <? key z); simpl.
    + rewrite IH. intuition.
    + intuition.
Qed.

Lemma In_order_by_desc A (key : A -> Z) y l :
  In y (order_by_desc key l) <-> In y l.
Proof.
  induction l as [|x l IH]; simpl.
  - tauto.
  - rewrite In_insert_desc, IH. intuition.
Qed.

Lemma existsb_eqb_In x l : existsb (Z.eqb x) l = true <-> In x l.
Proof.
  rewrite existsb_exists. split.
  - intros [y [Hy E]]. apply Z.eqb_eq in E. now subst.
  - intros H. exists x. split; [assumption | apply Z.eqb_refl].
Qed.

Lemma filter_none A (p : A -> bool) l :
  (forall x, In x l -> p x = false) -> filter p l = [].
Proof.
  induction l as [|y l IH]; simpl; intros H.
  - reflexivity.
  - rewrite (H y (or_introl eq_refl)). apply IH. intros x Hx. apply H. now right.
Qed.

Lemma filter_all A (p : A -> bool) l :
  (forall x, In x l -> p x = true) -> filter p l = l.
Proof.
  induction l as [|y l IH]; simpl; intros H.
  - reflexivity.
  - rewrite (H y (or_introl eq_refl)). f_equal. apply IH. intros x Hx. apply H. now right.
Qed.

Lemma distinct_cons_neq A (f : A -> Z) y l z :
  distinct (map f (y :: l)) = true -> In z l -> f z <> f y.
Proof.
  simpl. intros Hd Hz E.
  apply andb_true_iff in Hd. destruct Hd as [Hn _].
  apply negb_true_iff in Hn.
  assert (existsb (Z.eqb (f y)) (map f l) = true).
  { apply existsb_eqb_In. rewrite <- E. now apply in_map. }
  congruence.
Qed.

Lemma distinct_filter_single A (f : A -> Z) (p : A -> bool) c l :
  distinct (map f l) = true ->
  In c l -> p c = true ->
  (forall x, p x = true -> f x = f c) ->
  filter p l = [c].
Proof.
  intros Hd Hin Hc Hp. induction l as [|y l IH].
  - contradiction.
  - pose proof (fun z => distinct_cons_neq A f y l z Hd) as Hrest.
    simpl in Hd. apply andb_true_iff in Hd. destruct Hd as [_ Hd].
    simpl. destruct Hin as [-> | Hin].
    + rewrite Hc. f_equal. apply filter_none. intros x Hx.
      destruct (p x) eqn:E; [|reflexivity].
      exfalso. apply (Hrest x Hx). now apply Hp.
    + destruct (p y) eqn:E.
      * exfalso. apply (Hrest c Hin). symmetry. now apply Hp.
      * now apply IH.
Qed.

Lemma filter_negb_length A (p : A -> bool) l :
  (List.length (filter p l) + List.length (filter (fun x => negb (p x)) l))%nat = List.length l.
Proof.
  induction l as [|y l IH]; simpl.
  - reflexivity.
  - destruct (p y); simpl; lia.
Qed.

(* ================================================================== *)
(** ** Clusters: listing, expiry and sweep *)
(* ================================================================== *)

Lemma expired_iff t c :
  expired t c = true <-> exists x, cluster_expires_at c = Some x /\ x < t.
Proof.
  unfold expired. destruct (cluster_expires_at c) as [x|].
  - rewrite Z.ltb_lt. split.
    + intros H. exists x. now split.
    + intros [y [E H]]. inversion E. now subst.
  - split; [discriminate | intros [y [E _]]; discriminate].
Qed.

Lemma expired_not_listed t c : expired t c = true -> not_expired t c = false.
Proof.
  unfold expired, not_expired. destruct (cluster_expires_at c) as [x|].
  - rewrite Z.ltb_lt, Z.ltb_ge. lia.
  - discriminate.
Qed.

Lemma delete_clusters_nothing p d :
  (forall c, In c (clusters d) -> p c = false) ->
  delete_clusters p d = (d, 0).
Proof.
  intros H. unfold delete_clusters.
  rewrite (filter_none _ p (clusters d) H). simpl.
  rewrite (filter_all _ (fun c => negb (p c)) (clusters d)).
  2:{ intros c Hc. now rewrite (H c Hc). }
  rewrite (filter_all _ _ (cluster_entries d)) by reflexivity.
  destruct d; reflexivity.
Qed.

(** C6.  When its round trip goes through, [RemoveExpiredClusters] removes
    exactly the clusters, of any owner, whose [expires_at] is set and
    earlier than the clock, keeps every other cluster as it was and in
    place, and returns how many it removed; run again at once on the
    result it removes nothing and returns 0. *)
Theorem RemoveExpiredClusters_sweep faults w :
  faults (calls w) = false ->
  faults (S (calls w)) = false ->
  exists n w',
    RemoveExpiredClusters faults w = (Ok n, w') /\
    clusters (store w') = filter (fun c => negb (expired (now w) c)) (clusters (store w)) /\
    (forall c, In c (clusters (store w')) <->
               In c (clusters (store w)) /\
               ~ (exists x, cluster_expires_at c = Some x /\ x < now w)) /\
    n = Z.of_nat (List.length (clusters (store w)))
        - Z.of_nat (List.length (clusters (store w'))) /\
    exists w'',
      RemoveExpiredClusters faults w' = (Ok 0, w'') /\ store w'' = store w'.
Proof.
  intros Hf1 Hf2.
  set (d := store w).
  set (d' := fst (delete_clusters (expired (now w)) d)).
  exists (snd (delete_clusters (expired (now w)) d)), (set_store (tick w) d').
  assert (Hc : clusters d' = filter (fun c => negb (expired (now w) c)) (clusters d))
    by reflexivity.
  split; [|split; [|split; [|split]]].
  - unfold RemoveExpiredClusters, wrap.
    rewrite (db_Exec_ok faults delete_expired_clusters w d'
               (snd (delete_clusters (expired (now w)) d)) Hf1); reflexivity.
  - exact Hc.
  - intros c. cbn [store set_store]. rewrite Hc, filter_In, negb_true_iff.
    rewrite <- expired_iff. destruct (expired (now w) c); intuition congruence.
  - cbn [store set_store]. rewrite Hc. cbn [delete_clusters snd].
    pose proof (filter_negb_length _ (expired (now w)) (clusters d)). lia.
  - exists (set_store (tick (set_store (tick w) d')) d'). split; [|reflexivity].
    unfold RemoveExpiredClusters, wrap.
    rewrite (db_Exec_ok faults delete_expired_clusters (set_store (tick w) d') d' 0);
      [reflexivity | exact Hf2 |].
    unfold delete_expired_clusters. cbn [now store set_store tick].
    rewrite delete_clusters_nothing; [reflexivity|].
    intros c Hin. rewrite Hc in Hin. apply filter_In in Hin.
    destruct Hin as [_ Hn]. now apply negb_true_iff in Hn.
Qed.

Lemma distinct_inj A (f : A -> Z) l a b :
  distinct (map f l) = true -> In a l -> In b l -> f a = f b -> a = b.
Proof.
  induction l as [|y l IH]; intros Hd Ha Hb E.
  - contradiction.
  - pose proof (fun z => distinct_cons_neq A f y l z Hd) as Hrest.
    simpl in Hd. apply andb_true_iff in Hd. destruct Hd as [_ Hd].
    destruct Ha as [-> | Ha], Hb as [-> | Hb].
    + reflexivity.
    + exfalso. apply (Hrest b Hb). now symmetry.
    + exfalso. now apply (Hrest a Ha).
    + now apply IH.
Qed.

Lemma not_expired_iff t c :
  not_expired t c = true <->
  cluster_expires_at c = None \/ exists x, cluster_expires_at c = Some x /\ t < x.
Proof.
  unfold not_expired. destruct (cluster_expires_at c) as [x|].
  - rewrite Z.ltb_lt. split.
    + intros H. right. exists x. now split.
    + intros [E | [y [E H]]]; [discriminate | inversion E; now subst].
  - split; [now left | reflexivity].
Qed.

Lemma In_select_clusters userID t d y :
  In y (select_clusters userID t d) <->
  exists c, In c (clusters d) /\ cluster_user_id c = userID /\ not_expired t c = true /\
            y = scan_cluster c (Some (count_cluster_entries d (cluster_id c))).
Proof.
  unfold select_clusters. rewrite in_map_iff. split.
  - intros [c [E Hin]]. apply In_order_by_desc in Hin. apply filter_In in Hin.
    destruct Hin as [Hin Hp]. apply andb_true_iff in Hp. destruct Hp as [Hu Hn].
    apply Z.eqb_eq in Hu. exists c. repeat split; auto.
  - intros [c [Hin [Hu [Hn E]]]]. exists c. split; [now symmetry|].
    apply In_order_by_desc. apply filter_In. split; [assumption|].
    apply andb_true_iff. split; [now apply Z.eqb_eq | assumption].
Qed.

Lemma In_select_entry_clusters entryID userID t d y :
  In y (select_entry_clusters entryID userID t d) <->
  exists c, In c (clusters d) /\ cluster_user_id c = userID /\ not_expired t c = true /\
            In (mkClusterEntry (cluster_id c) entryID) (cluster_entries d) /\
            y = scan_cluster c None.
Proof.
  unfold select_entry_clusters. rewrite in_map_iff. split.
  - intros [c [E Hin]]. apply In_order_by_desc in Hin. apply in_flat_map in Hin.
    destruct Hin as [c' [Hc' Hin]]. apply in_map_iff in Hin.
    destruct Hin as [ce [<- Hce]]. apply filter_In in Hce. destruct Hce as [Hce Hk].
    apply filter_In in Hc'. destruct Hc' as [Hc' Hp].
    apply andb_true_iff in Hp. destruct Hp as [Hu Hn]. apply Z.eqb_eq in Hu.
    apply andb_true_iff in Hk. destruct Hk as [Hk1 Hk2].
    apply Z.eqb_eq in Hk1. apply Z.eqb_eq in Hk2.
    exists c'. repeat split; auto.
    destruct ce as [a b]; simpl in *. now subst.
  - intros [c [Hin [Hu [Hn [Hce E]]]]]. exists c. split; [now symmetry|].
    apply In_order_by_desc. apply in_flat_map. exists c. split.
    + apply filter_In. split; [assumption|].
      apply andb_true_iff. split; [now apply Z.eqb_eq | assumption].
    + apply in_map_iff. exists (mkClusterEntry (cluster_id c) entryID).
      split; [reflexivity|]. apply filter_In. split; [assumption|].
      simpl. now rewrite !Z.eqb_refl.
Qed.

(** C5.  For a stored cluster [c] and a round trip that goes through:
    [ClusterByID] of its owner returns it whatever its expiry; when its
    [expires_at] is set and in the past no row with its id is in the answer
    of [Clusters] or of [GetEntryClusters], for any user and entry; when its
    [expires_at] is null or in the future it is in its owner's [Clusters]
    (with its live entry count) and in [GetEntryClusters] of its owner for
    every entry that is a member of it. *)
Theorem expired_cluster_listing faults w c :
  faults (calls w) = false ->
  pk_clusters (store w) = true ->
  In c (clusters (store w)) ->
  ClusterByID faults (cluster_user_id c) (cluster_id c) w
    = (Ok (Some (scan_cluster c None)), tick w) /\
  ((exists x, cluster_expires_at c = Some x /\ x < now w) ->
   forall userID entryID,
     (exists l, Clusters faults userID w = (Ok l, tick w) /\
                forall y, In y l -> ID y <> cluster_id c) /\
     (exists l, GetEntryClusters faults userID entryID w = (Ok l, tick w) /\
                forall y, In y l -> ID y <> cluster_id c)) /\
  ((cluster_expires_at c = None \/ exists x, cluster_expires_at c = Some x /\ now w < x) ->
   (exists l, Clusters faults (cluster_user_id c) w = (Ok l, tick w) /\
              In (scan_cluster c (Some (count_cluster_entries (store w) (cluster_id c)))) l) /\
   (forall entryID,
      In (mkClusterEntry (cluster_id c) entryID) (cluster_entries (store w)) ->
      exists l, GetEntryClusters faults (cluster_user_id c) entryID w = (Ok l, tick w) /\
                In (scan_cluster c None) l)).
Proof.
  intros Hf Hpk Hin. split; [|split].
  - unfold ClusterByID.
    rewrite (db_QueryRow_ok faults _ (select_cluster_by_id (cluster_user_id c) (cluster_id c))
               w c []); [reflexivity | assumption |].
    unfold select_cluster_by_id.
    apply (distinct_filter_single _ cluster_id); auto.
    + now rewrite !Z.eqb_refl.
    + intros y Hy. apply andb_true_iff in Hy. destruct Hy as [_ Hy]. now apply Z.eqb_eq.
  - intros Hpast userID entryID.
    apply expired_iff in Hpast. apply expired_not_listed in Hpast.
    split.
    + exists (select_clusters userID (now w) (store w)). split.
      * unfold Clusters, wrap. now rewrite db_Query_ok.
      * intros y Hy E. apply In_select_clusters in Hy.
        destruct Hy as [c' [Hc' [_ [Hn ->]]]]. simpl in E.
        assert (c' = c) by (apply (distinct_inj _ cluster_id (clusters (store w))); auto).
        subst. congruence.
    + exists (select_entry_clusters entryID userID (now w) (store w)). split.
      * unfold GetEntryClusters, wrap. now rewrite db_Query_ok.
      * intros y Hy E. apply In_select_entry_clusters in Hy.
        destruct Hy as [c' [Hc' [_ [Hn [_ ->]]]]]. simpl in E.
        assert (c' = c) by (apply (distinct_inj _ cluster_id (clusters (store w))); auto).
        subst. congruence.
  - intros Hact. apply not_expired_iff in Hact. split.
    + exists (select_clusters (cluster_user_id c) (now w) (store w)). split.
      * unfold Clusters, wrap. now rewrite db_Query_ok.
      * apply In_select_clusters. exists c. auto.
    + intros entryID Hm.
      exists (select_entry_clusters entryID (cluster_user_id c) (now w) (store w)). split.
      * unfold GetEntryClusters, wrap. now rewrite db_Query_ok.
      * apply In_select_entry_clusters. exists c. auto.
Qed.

(* ================================================================== *)
(** ** Cluster membership *)
(* ================================================================== *)

Lemma unique_by_count A (same : A -> A -> bool) (p : A -> bool) l :
  (forall x y, p x = true -> p y = true -> same x y = true) ->
  unique_by same l = true ->
  (List.length (filter p l) <= 1)%nat.
Proof.
  intros Hp. induction l as [|r l IH]; simpl; intros Hu.
  - lia.
  - apply andb_true_iff in Hu. destruct Hu as [Hn Hu]. apply negb_true_iff in Hn.
    destruct (p r) eqn:E.
    + rewrite (filter_none _ p l); [simpl; lia|].
      intros x Hx. destruct (p x) eqn:Ex; [|reflexivity].
      assert (existsb (same r) l = true).
      { apply existsb_exists. exists x. split; [assumption | now apply Hp]. }
      congruence.
    + now apply IH.
Qed.

Lemma unique_by_app A (same : A -> A -> bool) l r :
  (forall x, same x r = same r x) ->
  unique_by same l = true -> existsb (same r) l = false ->
  unique_by same (l ++ [r]) = true.
Proof.
  intros Hsym. induction l as [|y l IH]; simpl; intros Hu He.
  - reflexivity.
  - apply andb_true_iff in Hu. destruct Hu as [Hn Hu].
    apply orb_false_iff in He. destruct He as [Hy He].
    rewrite existsb_app, (proj1 (negb_true_iff _) Hn). simpl.
    rewrite Hsym, Hy. simpl. now apply IH.
Qed.

Lemma ce_is_iff c e r : ce_is c e r = true <-> ClusterID r = c /\ EntryID r = e.
Proof. unfold ce_is. now rewrite andb_true_iff, !Z.eqb_eq. Qed.

Lemma ce_is_In c e l :
  existsb (ce_is c e) l = true <-> In (mkClusterEntry c e) l.
Proof.
  rewrite existsb_exists. split.
  - intros [r [Hin H]]. apply ce_is_iff in H. destruct r; simpl in *.
    destruct H; now subst.
  - intros Hin. exists (mkClusterEntry c e). split; [assumption|].
    now apply ce_is_iff.
Qed.

Lemma count_ce_le_1 d c e : I4 d = true -> (count_ce d c e <= 1)%nat.
Proof.
  intros H. unfold count_ce.
  apply (unique_by_count _ (fun r => ce_is (ClusterID r) (EntryID r))); [|exact H].
  intros x y Hx Hy. apply ce_is_iff in Hx. apply ce_is_iff in Hy.
  apply ce_is_iff. destruct Hx, Hy. split; congruence.
Qed.

Lemma count_ce_existing d c e :
  I4 d = true -> existsb (ce_is c e) (cluster_entries d) = true -> count_ce d c e = 1%nat.
Proof.
  intros HI He. pose proof (count_ce_le_1 d c e HI) as Hle.
  unfold count_ce in *. apply existsb_exists in He. destruct He as [r [Hin Hr]].
  assert (In r (filter (ce_is c e) (cluster_entries d))) by (apply filter_In; auto).
  destruct (filter (ce_is c e) (cluster_entries d)); [contradiction | simpl in *; lia].
Qed.

Lemma AddEntryToCluster_existing faults w clusterID entryID :
  faults (calls w) = false ->
  existsb (ce_is clusterID entryID) (cluster_entries (store w)) = true ->
  AddEntryToCluster faults clusterID entryID w = (Ok tt, tick w).
Proof.
  intros Hf He. unfold AddEntryToCluster, bind, wrap.
  rewrite (db_Exec_ok faults _ w (store w) 0 Hf).
  - destruct w; reflexivity.
  - unfold insert_cluster_entry. now rewrite He.
Qed.

Lemma AddEntryToCluster_new faults w clusterID entryID :
  faults (calls w) = false ->
  existsb (ce_is clusterID entryID) (cluster_entries (store w)) = false ->
  has_cluster (store w) clusterID = true ->
  has_entry (store w) entryID = true ->
  AddEntryToCluster faults clusterID entryID w
  = (Ok tt, set_store (tick w)
              (set_cluster_entries (store w)
                 (cluster_entries (store w) ++ [mkClusterEntry clusterID entryID]))).
Proof.
  intros Hf He Hc Hen. unfold AddEntryToCluster, bind, wrap.
  rewrite (db_Exec_ok faults _ w
             (set_cluster_entries (store w)
                (cluster_entries (store w) ++ [mkClusterEntry clusterID entryID])) 1 Hf).
  - reflexivity.
  - unfold insert_cluster_entry. now rewrite He, Hc, Hen.
Qed.

Lemma add_entry_times_existing faults n clusterID entryID :
  (forall k, faults k = false) ->
  forall w,
    existsb (ce_is clusterID entryID) (cluster_entries (store w)) = true ->
    exists w', add_entry_times faults n clusterID entryID w = (Ok tt, w') /\
               store w' = store w.
Proof.
  intros Hf. induction n as [|n IH]; intros w He; simpl.
  - exists w. split; reflexivity.
  - unfold bind. rewrite AddEntryToCluster_existing by auto.
    destruct (IH (tick w) He) as [w' [H1 H2]]. exists w'. split; assumption.
Qed.

Lemma tx_Exec_ok faults stmt w d d' n :
  faults (calls w) = false ->
  txn w = Some d ->
  stmt (now w) d = Some (d', n) ->
  tx_Exec faults stmt w = (Ok n, set_txn (tick w) (Some d')).
Proof.
  intros Hf Ht Hs. unfold tx_Exec, bind. rewrite (roundtrip_ok faults w Hf).
  cbn [txn tick now]. now rewrite Ht, Hs.
Qed.

Lemma add_entries_loop_existing faults n clusterID entryID :
  (forall k, faults k = false) ->
  forall w d,
    txn w = Some d ->
    existsb (ce_is clusterID entryID) (cluster_entries d) = true ->
    exists w', add_entries_loop faults clusterID (repeat entryID n) w = (Ok tt, w') /\
               txn w' = Some d /\ store w' = store w.
Proof.
  intros Hf. induction n as [|n IH]; intros w d Ht He; cbn [repeat add_entries_loop].
  - exists w. auto.
  - unfold bind, wrap_rollback.
    assert (Hs : insert_cluster_entry clusterID entryID (now w) d = Some (d, 0)).
    { unfold insert_cluster_entry. now rewrite He. }
    unfold tx_Exec, bind. rewrite (roundtrip_ok faults w (Hf _)).
    cbn [txn tick now]. rewrite Ht, Hs.
    destruct (IH (set_txn (tick w) (Some d)) d eq_refl He) as [w' [H1 [H2 H3]]].
    exists w'. auto.
Qed.

Lemma insert_cluster_entry_stored clusterID entryID t d d' n :
  insert_cluster_entry clusterID entryID t d = Some (d', n) ->
  existsb (ce_is clusterID entryID) (cluster_entries d') = true.
Proof.
  unfold insert_cluster_entry.
  destruct (existsb (ce_is clusterID entryID) (cluster_entries d)) eqn:Ex.
  - intros H; inversion H; subst. exact Ex.
  - destruct (has_cluster d clusterID && has_entry d entryID); [|discriminate].
    intros H; inversion H; subst. cbn [cluster_entries set_cluster_entries].
    rewrite existsb_app. apply orb_true_iff. right. simpl.
    unfold ce_is. simpl. now rewrite !Z.eqb_refl.
Qed.

Lemma AddEntriesToCluster_repeat faults n clusterID entryID w d1 k1 :
  (forall k, faults k = false) ->
  (1 <= n)%nat ->
  insert_cluster_entry clusterID entryID (now w) (store w) = Some (d1, k1) ->
  exists wb, AddEntriesToCluster faults clusterID (repeat entryID n) w = (Ok tt, wb) /\
             store wb = d1.
Proof.
  intros Hf Hn Hs. destruct n as [|n]; [lia|].
  unfold AddEntriesToCluster. cbn [repeat List.length Nat.eqb add_entries_loop].
  unfold bind, wrap at 1, db_Begin, bind. rewrite (roundtrip_ok faults w (Hf _)).
  unfold wrap_rollback at 1, tx_Prepare.
  rewrite (roundtrip_ok faults _ (Hf _)).
  unfold wrap_rollback at 1.
  rewrite (tx_Exec_ok faults _ (tick (set_txn (tick w) (Some (store (tick w)))))
             (store w) d1 k1 (Hf _) eq_refl Hs).
  destruct (add_entries_loop_existing faults n clusterID entryID Hf
              (set_txn (tick (tick (set_txn (tick w) (Some (store (tick w)))))) (Some d1))
              d1 eq_refl (insert_cluster_entry_stored _ _ _ _ _ _ Hs))
    as [w' [H1 [H2 H3]]].
  rewrite H1. unfold wrap, tx_Commit. rewrite (roundtrip_ok faults w' (Hf _)).
  cbn [txn tick]. rewrite H2. eexists. split; reflexivity.
Qed.

(** C7.  With a driver that does not fail and I4 holding: adding a pair
    whose membership row is stored succeeds and leaves the tables as they
    are; and for a stored cluster and a stored entry, [n >= 1] additions of
    the pair in a row all succeed, leave exactly one membership row for the
    pair, and leave the tables, hence the cluster's entry count, as the
    first addition left them; so does one [AddEntriesToCluster] of the
    entry [n] times over. *)
Theorem AddEntryToCluster_idempotent faults w clusterID entryID :
  (forall k, faults k = false) ->
  I4 (store w) = true ->
  (In (mkClusterEntry clusterID entryID) (cluster_entries (store w)) ->
   AddEntryToCluster faults clusterID entryID w = (Ok tt, tick w) /\
   store (tick w) = store w) /\
  (has_cluster (store w) clusterID = true ->
   has_entry (store w) entryID = true ->
   forall n, (1 <= n)%nat ->
     exists w1 wn,
       AddEntryToCluster faults clusterID entryID w = (Ok tt, w1) /\
       add_entry_times faults n clusterID entryID w = (Ok tt, wn) /\
       store wn = store w1 /\
       count_ce (store wn) clusterID entryID = 1%nat /\
       count_cluster_entries (store wn) clusterID
       = count_cluster_entries (store w1) clusterID /\
       exists wb,
         AddEntriesToCluster faults clusterID (repeat entryID n) w = (Ok tt, wb) /\
         store wb = store w1).
Proof.
  intros Hf HI. split.
  - intros Hin. split; [|reflexivity].
    apply AddEntryToCluster_existing; [apply Hf | now apply ce_is_In].
  - intros Hc He n Hn. destruct n as [|n]; [lia|].
    destruct (existsb (ce_is clusterID entryID) (cluster_entries (store w))) eqn:Ex.
    + destruct (add_entry_times_existing faults n clusterID entryID Hf (tick w) Ex)
        as [wn [H1 H2]].
      exists (tick w), wn. split; [|split; [|split; [|split; [|split]]]].
      * now apply AddEntryToCluster_existing.
      * simpl. unfold bind. rewrite AddEntryToCluster_existing by auto. exact H1.
      * exact H2.
      * rewrite H2. now apply count_ce_existing.
      * now rewrite H2.
      * apply (AddEntriesToCluster_repeat faults (S n) clusterID entryID w (store w) 0);
          [exact Hf | lia |].
        unfold insert_cluster_entry. now rewrite Ex.
    + set (d1 := set_cluster_entries (store w)
                   (cluster_entries (store w) ++ [mkClusterEntry clusterID entryID])).
      assert (Ex1 : existsb (ce_is clusterID entryID) (cluster_entries d1) = true).
      { apply ce_is_In. simpl. apply in_app_iff. right. now left. }
      assert (HI1 : I4 d1 = true).
      { unfold I4, ce_unique. simpl. apply unique_by_app; auto.
        intros x. simpl. unfold ce_is. 
        rewrite (Z.eqb_sym (ClusterID x)), (Z.eqb_sym (EntryID x)). reflexivity. }
      destruct (add_entry_times_existing faults n clusterID entryID Hf
                  (set_store (tick w) d1) Ex1) as [wn [H1 H2]].
      exists (set_store (tick w) d1), wn. split; [|split; [|split; [|split; [|split]]]].
      * now apply AddEntryToCluster_new.
      * simpl. unfold bind. rewrite AddEntryToCluster_new by auto. exact H1.
      * exact H2.
      * rewrite H2. now apply count_ce_existing.
      * now rewrite H2.
      * apply (AddEntriesToCluster_repeat faults (S n) clusterID entryID w d1 1);
          [exact Hf | lia |].
        unfold insert_cluster_entry. now rewrite Ex, Hc, He.
Qed.

(* ================================================================== *)
(** ** Tags: rename and removal *)
(* ================================================================== *)

Lemma map_unless A (p : A -> bool) (f : A -> A) l :
  (forall x, In x l -> p x = false) ->
  map (fun x => if p x then f x else x) l = l.
Proof.
  induction l as [|y l IH]; simpl; intros H.
  - reflexivity.
  - rewrite (H y (or_introl eq_refl)). f_equal. apply IH.
    intros x Hx. apply H. now right.
Qed.

Lemma existsb_none A (p : A -> bool) l :
  (forall x, In x l -> p x = false) -> existsb p l = false.
Proof.
  induction l as [|y l IH]; simpl; intros H.
  - reflexivity.
  - rewrite (H y (or_introl eq_refl)). apply IH. intros x Hx. apply H. now right.
Qed.

Lemma delete_tags_nothing p d :
  (forall t, In t (tags d) -> p t = false) ->
  delete_tags p d = (d, 0).
Proof.
  intros H. unfold delete_tags.
  rewrite (filter_none _ p (tags d) H). simpl.
  rewrite (filter_all _ (fun t => negb (p t)) (tags d)).
  2:{ intros t Ht. now rewrite (H t Ht). }
  rewrite (filter_all _ _ (entry_tags d)) by reflexivity.
  destruct d; reflexivity.
Qed.

(** C9.  When no stored tag has the given id and owner, and the round trip
    goes through, [UpdateTag] answers [nil] and leaves the tables as they
    are, where [RemoveTag] answers the error "no tag has been removed". *)
Theorem UpdateTag_absent_is_success faults lower w tag :
  faults (calls w) = false ->
  (forall t, In t (tags (store w)) ->
             ~ (tag_id t = tag_id tag /\ tag_user_id t = tag_user_id tag)) ->
  UpdateTag faults lower tag w = (Ok tt, tick w) /\
  store (tick w) = store w /\
  RemoveTag faults (tag_user_id tag) (tag_id tag) w
  = (Err (New "store: no tag has been removed"), tick w).
Proof.
  intros Hf Habs.
  set (tagID := tag_id tag) in *. set (userID := tag_user_id tag) in *.
  set (name := tag_name tag).
  assert (Hhit : forall t, In t (tags (store w)) ->
                 (tag_id t =? tagID) && (tag_user_id t =? userID) = false).
  { intros t Ht. apply andb_false_iff.
    destruct (Z.eqb_spec (tag_id t) tagID); [|now left].
    destruct (Z.eqb_spec (tag_user_id t) userID); [|now right].
    exfalso. apply (Habs t Ht). now split. }
  split; [|split].
  - unfold UpdateTag, bind, wrap. fold tagID userID name.
    rewrite (db_Exec_ok faults _ w (store w) 0 Hf).
    + destruct w; reflexivity.
    + unfold update_tag_name. cbv zeta.
      rewrite (map_unless _ (fun t => (tag_id t =? tagID) && (tag_user_id t =? userID))
                 (fun t => mkTag (tag_id t) (tag_user_id t) name (tag_created_at t))
                 (tags (store w)) Hhit).
      rewrite existsb_none.
      2:{ intros t Ht. now rewrite (Hhit t Ht). }
      rewrite (filter_none _ _ (tags (store w)) Hhit).
      destruct (store w); reflexivity.
  - reflexivity.
  - unfold RemoveTag, bind, wrap.
    rewrite (db_Exec_ok faults _ w (store w) 0 Hf).
    + destruct w; reflexivity.
    + cbv beta. now rewrite delete_tags_nothing.
Qed.

(* ================================================================== *)
(** ** Entry-tag associations *)
(* ================================================================== *)

Lemma et_is_iff e t r : et_is e t r = true <-> et_entry_id r = e /\ et_tag_id r = t.
Proof. unfold et_is. now rewrite andb_true_iff, !Z.eqb_eq. Qed.

Lemma et_is_false_iff e t r :
  et_is e t r = false <-> ~ (et_entry_id r = e /\ et_tag_id r = t).
Proof.
  rewrite <- et_is_iff. destruct (et_is e t r); split; intros H; congruence.
Qed.

Lemma filter_hit A (p : A -> bool) l x :
  In x l -> p x = true -> exists y rest, filter p l = y :: rest.
Proof.
  intros Hin Hp.
  assert (H : In x (filter p l)) by (apply filter_In; auto).
  destruct (filter p l) as [|y rest]; [contradiction|].
  exists y, rest. reflexivity.
Qed.

Lemma select_entry_of_hit entryID userID t d :
  In (mkEntry entryID userID) (entries d) ->
  exists rest, select_entry_of entryID userID t d = true :: rest.
Proof.
  intros Hin. unfold select_entry_of.
  destruct (filter_hit _ (fun e => (entry_id e =? entryID) && (entry_user_id e =? userID))
              (entries d) _ Hin) as [y [rest ->]].
  - simpl. now rewrite !Z.eqb_refl.
  - simpl. eexists. reflexivity.
Qed.

Lemma select_tag_of_hit tagID userID t d x :
  In x (tags d) -> tag_id x = tagID -> tag_user_id x = userID ->
  exists rest, select_tag_of tagID userID t d = true :: rest.
Proof.
  intros Hin H1 H2. unfold select_tag_of.
  destruct (filter_hit _ (fun t => (tag_id t =? tagID) && (tag_user_id t =? userID))
              (tags d) _ Hin) as [y [rest ->]].
  - now rewrite H1, H2, !Z.eqb_refl.
  - simpl. eexists. reflexivity.
Qed.

(** The entry check that opens [AddTagToEntry], [RemoveTagFromEntry] and
    [ConfirmAutoTag]. *)
Lemma entry_check_ok faults w entryID userID fmt args :
  faults (calls w) = false ->
  In (mkEntry entryID userID) (entries (store w)) ->
  wrap fmt args (db_QueryRow faults (select_entry_of entryID userID)) w = (Ok true, tick w).
Proof.
  intros Hf Hin. unfold wrap.
  destruct (select_entry_of_hit entryID userID (now w) (store w) Hin) as [rest Hr].
  now rewrite (db_QueryRow_ok faults _ _ w true rest Hf Hr).
Qed.

(** C8.  For an entry of the caller and round trips that go through,
    [RemoveTagFromEntry] answers [nil]; the association of the pair, if
    there is one, is gone and every other row of every table is as it was;
    when the pair has no association the tables are unchanged. *)
Theorem RemoveTagFromEntry_idempotent faults w userID entryID tagID :
  faults (calls w) = false ->
  faults (S (calls w)) = false ->
  In (mkEntry entryID userID) (entries (store w)) ->
  exists w',
    RemoveTagFromEntry faults userID entryID tagID w = (Ok tt, w') /\
    (forall r, In r (entry_tags (store w')) <->
               In r (entry_tags (store w)) /\
               ~ (et_entry_id r = entryID /\ et_tag_id r = tagID)) /\
    store w' = set_entry_tags (store w)
                 (filter (fun r => negb (et_is entryID tagID r)) (entry_tags (store w))) /\
    ((forall r, In r (entry_tags (store w)) ->
                ~ (et_entry_id r = entryID /\ et_tag_id r = tagID)) ->
     store w' = store w).
Proof.
  intros Hf1 Hf2 Hin.
  set (d' := set_entry_tags (store w)
               (filter (fun r => negb (et_is entryID tagID r)) (entry_tags (store w)))).
  exists (set_store (tick (tick w)) d').
  split; [|split; [|split]].
  - unfold RemoveTagFromEntry, bind.
    rewrite entry_check_ok by assumption.
    unfold wrap. erewrite (db_Exec_ok faults _ (tick w)); [reflexivity | exact Hf2 |].
    reflexivity.
  - intros r. cbn [store set_store]. unfold d'. cbn [entry_tags set_entry_tags].
    rewrite filter_In, negb_true_iff, et_is_false_iff. reflexivity.
  - reflexivity.
  - intros Habs. cbn [store set_store]. unfold d'.
    rewrite filter_all.
    + destruct (store w); reflexivity.
    + intros r Hr. apply negb_true_iff, et_is_false_iff. now apply Habs.
Qed.

Lemma set_source_key s e t a b r :
  et_is a b (set_source s e t r) = et_is a b r.
Proof. unfold set_source. destruct (et_is e t r); reflexivity. Qed.

Lemma filter_map_key A (f : A -> A) (p : A -> bool) l :
  (forall x, p (f x) = p x) ->
  filter p (map f l) = map f (filter p l).
Proof.
  intros H. induction l as [|y l IH]; simpl.
  - reflexivity.
  - rewrite H. destruct (p y); simpl; now rewrite IH.
Qed.

Lemma existsb_map_key A (f : A -> A) (p : A -> bool) l :
  (forall x, p (f x) = p x) ->
  existsb p (map f l) = existsb p l.
Proof.
  intros H. induction l as [|y l IH]; simpl.
  - reflexivity.
  - now rewrite H, IH.
Qed.

Lemma et_unique_set_source s e t l :
  et_unique (map (set_source s e t) l) = et_unique l.
Proof.
  unfold et_unique. induction l as [|y l IH]; simpl.
  - reflexivity.
  - rewrite IH. f_equal. f_equal.
    rewrite existsb_map_key by (intros; apply set_source_key).
    unfold set_source. destruct (et_is e t y); reflexivity.
Qed.

Lemma In_set_source_hit s e t l r :
  In r (map (set_source s e t) l) -> et_is e t r = true -> et_source r = s.
Proof.
  intros Hin Hk. apply in_map_iff in Hin. destruct Hin as [x [<- _]].
  rewrite set_source_key in Hk. unfold set_source. now rewrite Hk.
Qed.

Lemma In_set_source_other s e t l r :
  et_is e t r = false ->
  (In r (map (set_source s e t) l) <-> In r l).
Proof.
  intros Hk. rewrite in_map_iff. split.
  - intros [x [E Hx]]. subst r. rewrite set_source_key in Hk.
    unfold set_source. now rewrite Hk.
  - intros Hin. exists r. split; [|assumption]. unfold set_source. now rewrite Hk.
Qed.

Lemma count_et_le_1 d e t : I3 d = true -> (count_et d e t <= 1)%nat.
Proof.
  intros H. unfold count_et.
  apply (unique_by_count _ (fun r => et_is (et_entry_id r) (et_tag_id r))); [|exact H].
  intros x y Hx Hy. apply et_is_iff in Hx. apply et_is_iff in Hy.
  apply et_is_iff. destruct Hx, Hy. split; congruence.
Qed.

Lemma count_et_existing d e t :
  I3 d = true -> existsb (et_is e t) (entry_tags d) = true -> count_et d e t = 1%nat.
Proof.
  intros HI He. pose proof (count_et_le_1 d e t HI) as Hle.
  unfold count_et in *. apply existsb_exists in He. destruct He as [r [Hin Hr]].
  assert (In r (filter (et_is e t) (entry_tags d))) by (apply filter_In; auto).
  destruct (filter (et_is e t) (entry_tags d)); [contradiction | simpl in *; lia].
Qed.

Lemma et_is_sym x r :
  et_is (et_entry_id x) (et_tag_id x) r = et_is (et_entry_id r) (et_tag_id r) x.
Proof.
  unfold et_is. now rewrite (Z.eqb_sym (et_entry_id r)), (Z.eqb_sym (et_tag_id r)).
Qed.

Lemma has_entry_In d e u : In (mkEntry e u) (entries d) -> has_entry d e = true.
Proof.
  intros H. apply existsb_exists. exists (mkEntry e u). split; [assumption|].
  apply Z.eqb_refl.
Qed.

Lemma has_tag_In d x : In x (tags d) -> has_tag d (tag_id x) = true.
Proof.
  intros H. apply existsb_exists. exists x. split; [assumption | apply Z.eqb_refl].
Qed.

Lemma AddTagToEntry_ok faults w userID entryID tagID source x :
  faults (calls w) = false ->
  faults (S (calls w)) = false ->
  faults (S (S (calls w))) = false ->
  In (mkEntry entryID userID) (entries (store w)) ->
  In x (tags (store w)) -> tag_id x = tagID -> tag_user_id x = userID ->
  AddTagToEntry faults userID entryID tagID source w
  = (Ok tt, set_store (tick (tick (tick w)))
              (attached (store w) entryID tagID
                 (if String.eqb source "" then TagSourceManual else source) (now w))).
Proof.
  intros Hf1 Hf2 Hf3 He Hx Hid Hu.
  unfold AddTagToEntry, bind.
  rewrite entry_check_ok by assumption.
  destruct (select_tag_of_hit tagID userID (now w) (store w) x Hx Hid Hu) as [rest Hr].
  unfold wrap at 1.
  rewrite (db_QueryRow_ok faults _ _ (tick w) true rest Hf2 Hr).
  unfold wrap.
  erewrite (db_Exec_ok faults _ (tick (tick w))); [reflexivity | exact Hf3 |].
  cbn [now store tick]. unfold upsert_entry_tag, attached.
  destruct (existsb (et_is entryID tagID) (entry_tags (store w))); [reflexivity|].
  unfold fk_entry_tag. cbn [et_tag_id et_entry_id].
  rewrite <- Hid at 1. rewrite (has_tag_In _ _ Hx), (has_entry_In _ _ _ He).
  reflexivity.
Qed.

Lemma attached_facts d e t s c :
  I3 d = true ->
  let d' := attached d e t s c in
  entries d' = entries d /\ tags d' = tags d /\
  I3 d' = true /\
  count_et d' e t = 1%nat /\
  (forall r, In r (entry_tags d') -> et_entry_id r = e -> et_tag_id r = t ->
             et_source r = s) /\
  (forall r, ~ (et_entry_id r = e /\ et_tag_id r = t) ->
             (In r (entry_tags d') <-> In r (entry_tags d))) /\
  (count_et d e t = 1%nat ->
   List.length (entry_tags d') = List.length (entry_tags d)).
Proof.
  intros HI d'. unfold d', attached.
  destruct (existsb (et_is e t) (entry_tags d)) eqn:Ex.
  - assert (HI' : I3 (set_entry_tags d (map (set_source s e t) (entry_tags d))) = true).
    { unfold I3. simpl. now rewrite et_unique_set_source. }
    split; [reflexivity|]. split; [reflexivity|]. split; [exact HI'|].
    split; [|split; [|split]].
    + apply count_et_existing; [exact HI'|]. simpl.
      rewrite existsb_map_key by (intros; apply set_source_key). exact Ex.
    + simpl. intros r Hin H1 H2. apply (In_set_source_hit s e t _ r Hin).
      now apply et_is_iff.
    + simpl. intros r Hk. apply In_set_source_other. now apply et_is_false_iff.
    + simpl. intros _. apply length_map.
  - assert (H0 : filter (et_is e t) (entry_tags d) = []).
    { apply filter_none. intros r Hr. destruct (et_is e t r) eqn:E; [|reflexivity].
      assert (existsb (et_is e t) (entry_tags d) = true)
        by (apply existsb_exists; eauto).
      congruence. }
    split; [reflexivity|]. split; [reflexivity|]. split; [|split; [|split; [|split]]].
    + unfold I3, et_unique. simpl. apply unique_by_app; auto.
      intros x. apply et_is_sym.
    + unfold count_et. simpl. rewrite filter_app, H0. simpl.
      unfold et_is. simpl. now rewrite !Z.eqb_refl.
    + simpl. intros r Hin H1 H2. apply in_app_iff in Hin. destruct Hin as [Hin | [<- | []]].
      * exfalso.
        assert (In r (filter (et_is e t) (entry_tags d))).
        { apply filter_In. split; [assumption | now apply et_is_iff]. }
        rewrite H0 in H. contradiction.
      * reflexivity.
    + simpl. intros r Hk. rewrite in_app_iff. split; [|now left].
      intros [Hin | [<- | []]]; [assumption|].
      exfalso. apply Hk. now split.
    + unfold count_et. rewrite H0. simpl. discriminate.
Qed.

(** C4.  For an entry and a tag of the caller, a driver that does not fail
    and I3 holding, [AddTagToEntry] succeeds and leaves exactly one row for
    the pair, whose source is the one just given ([manual] standing in for
    the empty string, the unspecified source); rows of other pairs are as
    they were, and when the pair had a row the table has as many rows as
    before.  In particular attaching with [auto] and then with [manual]
    leaves exactly one row for the pair, and its source is [manual]. *)
Theorem AddTagToEntry_upsert faults w userID entryID tagID source x :
  (forall k, faults k = false) ->
  I3 (store w) = true ->
  In (mkEntry entryID userID) (entries (store w)) ->
  In x (tags (store w)) -> tag_id x = tagID -> tag_user_id x = userID ->
  (exists w',
     AddTagToEntry faults userID entryID tagID source w = (Ok tt, w') /\
     count_et (store w') entryID tagID = 1%nat /\
     (forall r, In r (entry_tags (store w')) ->
                et_entry_id r = entryID -> et_tag_id r = tagID ->
                et_source r = if String.eqb source "" then TagSourceManual else source) /\
     (forall r, ~ (et_entry_id r = entryID /\ et_tag_id r = tagID) ->
                (In r (entry_tags (store w')) <-> In r (entry_tags (store w)))) /\
     (count_et (store w) entryID tagID = 1%nat ->
      List.length (entry_tags (store w')) = List.length (entry_tags (store w)))) /\
  (exists w1 w2,
     AddTagToEntry faults userID entryID tagID TagSourceAuto w = (Ok tt, w1) /\
     AddTagToEntry faults userID entryID tagID TagSourceManual w1 = (Ok tt, w2) /\
     count_et (store w2) entryID tagID = 1%nat /\
     (forall r, In r (entry_tags (store w2)) ->
                et_entry_id r = entryID -> et_tag_id r = tagID ->
                et_source r = TagSourceManual)).
Proof.
  intros Hf HI He Hx Hid Hu. split.
  - eexists. split.
    + apply (AddTagToEntry_ok faults w userID entryID tagID source x); auto.
    + cbn [store set_store].
      destruct (attached_facts (store w) entryID tagID
                  (if String.eqb source "" then TagSourceManual else source) (now w) HI)
        as [_ [_ [_ [H1 [H2 [H3 H4]]]]]].
      repeat split; auto; apply H3; auto.
  - destruct (attached_facts (store w) entryID tagID TagSourceAuto (now w) HI)
      as [E1 [E2 [HI1 _]]].
    set (d1 := attached (store w) entryID tagID TagSourceAuto (now w)) in *.
    set (w1 := set_store (tick (tick (tick w))) d1).
    destruct (attached_facts d1 entryID tagID TagSourceManual (now w1) HI1)
      as [_ [_ [_ [H1 [H2 _]]]]].
    exists w1. eexists. split; [|split; [|split]].
    + apply (AddTagToEntry_ok faults w userID entryID tagID TagSourceAuto x); auto.
    + apply (AddTagToEntry_ok faults w1 userID entryID tagID TagSourceManual x); auto.
    + exact H1.
    + exact H2.
Qed.

(* ================================================================== *)
(** ** Merge: the transaction *)
(* ================================================================== *)

Section MergeTransaction.
Variable faults : nat -> bool.

Lemma tx_Exec_run stmt w r w' :
  tx_Exec faults stmt w = (r, w') ->
  store w' = store w /\ now w' = now w /\ calls w' = S (calls w) /\
  match r with
  | Ok n => faults (calls w) = false /\
            exists d d', txn w = Some d /\ stmt (now w) d = Some (d', n) /\
                         txn w' = Some d'
  | Err _ => True
  end.
Proof.
  unfold tx_Exec, bind, roundtrip.
  destruct (faults (calls w)) eqn:Hf.
  - intros H. inversion H; subst. cbn. auto.
  - cbn [tick txn now]. destruct (txn w) as [d|] eqn:Ht.
    + destruct (stmt (now w) d) as [[d' n]|] eqn:Hs; intros H; inversion H; subst; cbn.
      * repeat split; auto. exists d, d'. auto.
      * auto.
    + intros H; inversion H; subst; cbn. auto.
Qed.

Lemma wrap_rollback_run A fmt args (m : M A) w r w' :
  wrap_rollback fmt args m w = (r, w') ->
  match r with
  | Ok a => m w = (Ok a, w')
  | Err _ => exists e w1, m w = (Err e, w1) /\ w' = tx_Rollback w1
  end.
Proof.
  unfold wrap_rollback. destruct (m w) as [[a|e] w1]; intros H; inversion H; subst.
  - reflexivity.
  - exists e, w1. auto.
Qed.

Lemma merge_loop_run userID targetTagID sourceTagIDs :
  forall w r w',
    merge_loop faults userID targetTagID sourceTagIDs w = (r, w') ->
    store w' = store w /\ now w' = now w /\
    match r with
    | Ok _ =>
        calls w' = (calls w + 2 * List.length (merged_sources targetTagID sourceTagIDs))%nat /\
        (forall k, (calls w <= k < calls w')%nat -> faults k = false) /\
        (forall d, txn w = Some d ->
           exists d', merged userID targetTagID sourceTagIDs (now w) d = Some d' /\
                      txn w' = Some d')
    | Err _ => txn w' = None
    end.
Proof.
  induction sourceTagIDs as [|s rest IH]; intros w r w' H.
  - inversion H; subst. cbn. repeat split; auto; try lia.
    intros d Hd. exists d. auto.
  - cbn [merge_loop merged merged_sources filter] in *.
    destruct (s =? targetTagID) eqn:Es.
    + cbn [negb]. apply IH. exact H.
    + cbn [negb List.length]. unfold bind in H.
      destruct (wrap_rollback "store: unable to reassign entries: %v" []
                  (tx_Exec faults (reassign_entry_tags targetTagID s)) w)
        as [[n1|e1] w1] eqn:H1.
      * apply wrap_rollback_run in H1. apply tx_Exec_run in H1.
        destruct H1 as [S1 [N1 [C1 [F1 [d0 [d1 [T0 [R1 T1]]]]]]]].
        destruct (wrap_rollback "store: unable to delete source tag: %v" []
                    (tx_Exec faults (delete_tag_of s userID)) w1)
          as [[n2|e2] w2] eqn:H2.
        -- apply wrap_rollback_run in H2. apply tx_Exec_run in H2.
           destruct H2 as [S2 [N2 [C2 [F2 [d1' [d2 [T1' [R2 T2]]]]]]]].
           rewrite T1 in T1'. inversion T1'; subst d1'.
           destruct (IH w2 r w' H) as [S3 [N3 H3]].
           split; [congruence|]. split; [congruence|].
           destruct r as [[]|e].
           ++ destruct H3 as [C3 [F3 M3]]. split; [|split].
              ** rewrite C3, C2, C1.
                 fold (merged_sources targetTagID rest). lia.
              ** intros k Hk.
                 destruct (Nat.eq_dec k (calls w)) as [->|]; [assumption|].
                 destruct (Nat.eq_dec k (calls w1)) as [->|]; [assumption|].
                 apply F3. lia.
              ** intros d Hd. rewrite T0 in Hd. inversion Hd; subst d.
                 rewrite R1. rewrite N1 in R2. rewrite R2.
                 destruct (M3 d2 T2) as [d' [Hm Ht]]. exists d'.
                 rewrite N2, N1 in Hm. auto.
           ++ exact H3.
        -- inversion H; subst. apply wrap_rollback_run in H2.
           destruct H2 as [e [w3 [H2 ->]]]. apply tx_Exec_run in H2.
           destruct H2 as [S2 [N2 _]]. cbn. repeat split; congruence.
      * inversion H; subst. apply wrap_rollback_run in H1.
        destruct H1 as [e [w3 [H1 ->]]]. apply tx_Exec_run in H1.
        destruct H1 as [S1 [N1 _]]. cbn. repeat split; congruence.
Qed.

End MergeTransaction.

Lemma tx_Commit_run faults w r w' :
  tx_Commit faults w = (r, w') ->
  calls w' = S (calls w) /\ txn w' = None /\
  match r with
  | Ok _ => faults (calls w) = false /\ exists d, txn w = Some d /\ store w' = d
  | Err _ => store w' = store w
  end.
Proof.
  unfold tx_Commit, roundtrip. destruct (faults (calls w)) eqn:Hf.
  - intros H; inversion H; subst. cbn. auto.
  - cbn [tick txn]. destruct (txn w) as [d|] eqn:Ht; intros H; inversion H; subst; cbn.
    + repeat split; auto. exists d. auto.
    + auto.
Qed.

(* ================================================================== *)
(** ** The batch insert and its round trips *)
(* ================================================================== *)

Lemma add_entries_loop_calls faults clusterID entryIDs :
  forall w r w',
    add_entries_loop faults clusterID entryIDs w = (r, w') ->
    (calls w <= calls w')%nat.
Proof.
  induction entryIDs as [|e rest IH]; intros w r w' H; cbn [add_entries_loop] in H.
  - inversion H; subst. lia.
  - unfold bind in H.
    destruct (wrap_rollback _ _ (tx_Exec faults (insert_cluster_entry clusterID e)) w)
      as [[n|err] w1] eqn:E.
    + apply wrap_rollback_run, tx_Exec_run in E. destruct E as [_ [_ [C _]]].
      apply IH in H. lia.
    + inversion H; subst. apply wrap_rollback_run in E.
      destruct E as [e0 [w2 [E ->]]]. apply tx_Exec_run in E.
      destruct E as [_ [_ [C _]]]. cbn [calls tx_Rollback set_txn]. lia.
Qed.

(** C10.  With an empty [entryIDs] the batch insert answers [nil] at once:
    no transaction is begun and no round trip is made, whatever the driver
    would have done, so the world (tables, open transaction, count of round
    trips) is the one it was called in; with any other list it makes at
    least one round trip. *)
Theorem AddEntriesToCluster_empty faults clusterID w :
  AddEntriesToCluster faults clusterID [] w = (Ok tt, w) /\
  (forall entryID rest,
     (calls w < calls (snd (AddEntriesToCluster faults clusterID (entryID :: rest) w)))%nat).
Proof.
  split; [reflexivity|]. intros entryID rest.
  unfold AddEntriesToCluster. cbn [List.length Nat.eqb].
  unfold bind, wrap at 1, db_Begin, bind, roundtrip.
  destruct (faults (calls w)); [cbn; lia|].
  set (w0 := set_txn (tick w) (Some (store (tick w)))).
  assert (C0 : calls w0 = S (calls w)) by reflexivity.
  unfold wrap_rollback at 1, tx_Prepare, roundtrip.
  destruct (faults (calls w0)); [cbn; lia|].
  destruct (add_entries_loop faults clusterID (entryID :: rest) (tick w0))
    as [[[]|e] w1] eqn:L; apply add_entries_loop_calls in L; cbn [calls tick] in L.
  - unfold wrap. destruct (tx_Commit faults w1) as [[[]|e] w2] eqn:C;
      apply tx_Commit_run in C; destruct C as [C _]; cbn [snd]; lia.
  - cbn [snd]. lia.
Qed.

Lemma MergeTags_run faults userID targetTagID sourceTagIDs w r w' :
  MergeTags faults userID targetTagID sourceTagIDs w = (r, w') ->
  match r with
  | Ok _ =>
      (forall k, (calls w <= k
                  < calls w + 2 + 2 * List.length (merged_sources targetTagID sourceTagIDs))%nat ->
                 faults k = false) /\
      merged userID targetTagID sourceTagIDs (now w) (store w) = Some (store w') /\
      txn w' = None
  | Err _ => store w' = store w /\ (txn w = None -> txn w' = None)
  end.
Proof.
  unfold MergeTags, bind, wrap at 1, db_Begin, bind, roundtrip.
  destruct (faults (calls w)) eqn:Hf0.
  - intros H; inversion H; subst. cbn. auto.
  - set (w0 := set_txn (tick w) (Some (store (tick w)))).
    destruct (merge_loop faults userID targetTagID sourceTagIDs w0) as [[[]|e] w1] eqn:HL.
    + apply merge_loop_run in HL. destruct HL as [S1 [N1 [C1 [F1 M1]]]].
      destruct (M1 (store w) eq_refl) as [d' [Hm T1]].
      unfold wrap.
      destruct (tx_Commit faults w1) as [[[]|e] w2] eqn:HC; intros H; inversion H; subst.
      * apply tx_Commit_run in HC. destruct HC as [C2 [T2 [F2 [d [Td Sd]]]]].
        assert (Ed : store w' = d') by congruence. cbv beta iota.
        split; [|split; [|assumption]].
        -- intros k Hk. unfold w0 in C1, F1. cbn [calls set_txn tick] in C1, F1.
           destruct (Nat.eq_dec k (calls w)) as [->|]; [assumption|].
           destruct (Nat.eq_dec k (calls w1)) as [->|]; [assumption|].
           apply F1. lia.
        -- rewrite Ed. exact Hm.
      * apply tx_Commit_run in HC. destruct HC as [C2 [T2 S2]]. cbv beta iota.
        split; [|auto]. rewrite S2, S1. reflexivity.
    + apply merge_loop_run in HL. destruct HL as [S1 [N1 T1]].
      intros H; inversion H; subst. cbv beta iota.
      split; [|auto]. rewrite S1. reflexivity.
Qed.

(** C2.  Whatever the driver does, a [MergeTags] in which a round trip
    fails answers an error, and a [MergeTags] that answers an error, for a
    failed round trip or a rejected statement, leaves the committed tables
    exactly as they were (no source tag removed, no reassignment to be
    seen) and no transaction open. *)
Theorem MergeTags_atomic faults userID targetTagID sourceTagIDs w r w' :
  MergeTags faults userID targetTagID sourceTagIDs w = (r, w') ->
  ((exists k, (calls w <= k
               < calls w + 2 + 2 * List.length (merged_sources targetTagID sourceTagIDs))%nat /\
              faults k = true) ->
   exists e, r = Err e) /\
  (forall e, r = Err e -> store w' = store w /\ (txn w = None -> txn w' = None)).
Proof.
  intros H. apply MergeTags_run in H. destruct r as [[]|e].
  - destruct H as [F _]. split.
    + intros [k [Hk Hf]]. rewrite (F k Hk) in Hf. discriminate.
    + intros e He. discriminate.
  - split.
    + intros _. exists e. reflexivity.
    + intros e' _. exact H.
Qed.

(* ================================================================== *)
(** ** Merge: the reassignment *)
(* ================================================================== *)

Lemma do_nothing_on_conflict_In rows :
  forall old x,
    In x (do_nothing_on_conflict old rows) ->
    In x rows /\ existsb (et_is (et_entry_id x) (et_tag_id x)) old = false.
Proof.
  induction rows as [|r rest IH]; intros old x Hin; simpl in Hin.
  - contradiction.
  - destruct (existsb (et_is (et_entry_id r) (et_tag_id r)) old) eqn:E.
    + destruct (IH old x Hin). split; [now right | assumption].
    + destruct Hin as [<- | Hin].
      * split; [now left | assumption].
      * destruct (IH (old ++ [r]) x Hin) as [H1 H2].
        rewrite existsb_app in H2. apply orb_false_iff in H2.
        split; [now right | tauto].
Qed.

Lemma do_nothing_on_conflict_covers rows :
  forall old r,
    In r rows ->
    existsb (et_is (et_entry_id r) (et_tag_id r))
            (old ++ do_nothing_on_conflict old rows) = true.
Proof.
  induction rows as [|r0 rest IH]; intros old r Hin; simpl.
  - contradiction.
  - destruct (existsb (et_is (et_entry_id r0) (et_tag_id r0)) old) eqn:E.
    + destruct Hin as [<- | Hin].
      * rewrite existsb_app, E. reflexivity.
      * now apply IH.
    + change (old ++ r0 :: do_nothing_on_conflict (old ++ [r0]) rest)
        with (old ++ [r0] ++ do_nothing_on_conflict (old ++ [r0]) rest).
      rewrite app_assoc. destruct Hin as [<- | Hin].
      * rewrite existsb_app. apply orb_true_iff. left.
        rewrite existsb_app. apply orb_true_iff. right. simpl.
        unfold et_is. now rewrite !Z.eqb_refl.
      * now apply IH.
Qed.

Lemma do_nothing_on_conflict_unique rows :
  forall old,
    et_unique old = true ->
    et_unique (old ++ do_nothing_on_conflict old rows) = true.
Proof.
  induction rows as [|r0 rest IH]; intros old Hu; simpl.
  - now rewrite app_nil_r.
  - destruct (existsb (et_is (et_entry_id r0) (et_tag_id r0)) old) eqn:E.
    + now apply IH.
    + change (old ++ r0 :: do_nothing_on_conflict (old ++ [r0]) rest)
        with (old ++ [r0] ++ do_nothing_on_conflict (old ++ [r0]) rest).
      rewrite app_assoc. apply IH.
      unfold et_unique. apply unique_by_app; auto.
      intros x. apply et_is_sym.
Qed.

Lemma unique_by_filter A (same : A -> A -> bool) (p : A -> bool) l :
  unique_by same l = true -> unique_by same (filter p l) = true.
Proof.
  induction l as [|y l IH]; simpl; intros Hu.
  - reflexivity.
  - apply andb_true_iff in Hu. destruct Hu as [Hn Hu]. apply negb_true_iff in Hn.
    destruct (p y); simpl.
    + rewrite (IH Hu), andb_true_r. apply negb_true_iff.
      apply existsb_none. intros x Hx. apply filter_In in Hx. destruct Hx as [Hx _].
      destruct (same y x) eqn:E; [|reflexivity].
      assert (existsb (same y) l = true) by (apply existsb_exists; eauto).
      congruence.
    + now apply IH.
Qed.

Lemma filter_filter A (f g : A -> bool) l :
  filter f (filter g l) = filter (fun x => g x && f x) l.
Proof.
  induction l as [|y l IH]; simpl.
  - reflexivity.
  - destruct (g y); simpl; [destruct (f y); simpl|]; now rewrite IH.
Qed.

Lemma existsb_filter A (f g : A -> bool) l :
  existsb f (filter g l) = existsb (fun x => g x && f x) l.
Proof.
  induction l as [|y l IH]; simpl.
  - reflexivity.
  - destruct (g y); simpl; now rewrite IH.
Qed.

Lemma existsb_ext_in A (f g : A -> bool) l :
  (forall x, In x l -> f x = g x) -> existsb f l = existsb g l.
Proof.
  induction l as [|y l IH]; simpl; intros H.
  - reflexivity.
  - rewrite (H y (or_introl eq_refl)). f_equal. apply IH. intros x Hx. apply H. now right.
Qed.

Lemma existsb_andb_const A (f : A -> bool) (c : bool) l :
  existsb (fun x => f x && c) l = existsb f l && c.
Proof.
  induction l as [|y l IH]; simpl.
  - reflexivity.
  - rewrite IH. destruct (f y), c, (existsb f l); reflexivity.
Qed.

Lemma cascade_ids s u y l :
  existsb (Z.eqb y)
          (map tag_id (filter (fun x => (tag_id x =? s) && (tag_user_id x =? u)) l))
  = (y =? s) && existsb (fun x => (tag_id x =? s) && (tag_user_id x =? u)) l.
Proof.
  induction l as [|x l IH]; simpl.
  - now rewrite andb_false_r.
  - destruct (Z.eqb_spec (tag_id x) s) as [E|E]; simpl.
    + destruct (tag_user_id x =? u); simpl.
      * rewrite IH, E. destruct (y =? s); reflexivity.
      * exact IH.
    + exact IH.
Qed.

Lemma owned_by_after u s done d d0 :
  tags d = filter (fun t => negb (existsb (Z.eqb (tag_id t)) done
                                  && (tag_user_id t =? u))) (tags d0) ->
  owned_by u s d = owned_by u s d0 && negb (existsb (Z.eqb s) done).
Proof.
  intros H. unfold owned_by. rewrite H, existsb_filter.
  rewrite <- existsb_andb_const. apply existsb_ext_in. intros x _.
  destruct (Z.eqb_spec (tag_id x) s) as [E|E]; simpl.
  - rewrite E. destruct (tag_user_id x =? u), (existsb (Z.eqb s) done); reflexivity.
  - now rewrite andb_false_r.
Qed.

Lemma removed_snoc u done s d0 x :
  removed u (done ++ [s]) d0 x
  = removed u done d0 x
    || ((x =? s) && (owned_by u s d0 && negb (existsb (Z.eqb s) done))).
Proof.
  unfold removed. rewrite existsb_app. simpl. rewrite orb_false_r.
  destruct (Z.eqb_spec x s) as [->|E]; simpl.
  - destruct (existsb (Z.eqb s) done), (owned_by u s d0); reflexivity.
  - now rewrite !orb_false_r.
Qed.

Lemma merge_inv_start userID targetTagID d0 : merge_inv userID targetTagID d0 [] d0.
Proof.
  constructor; auto.
  - symmetry. apply filter_all. reflexivity.
  - intros r _. unfold removed. simpl. tauto.
Qed.

Lemma In_select_reassigned targetTagID s d r' :
  In r' (select_reassigned targetTagID s d) <->
  exists x, In x (entry_tags d) /\ et_tag_id x = s /\
            r' = mkEntryTag (et_entry_id x) targetTagID (et_source x) (et_created_at x).
Proof.
  unfold select_reassigned. rewrite in_map_iff. split.
  - intros [x [E Hx]]. apply filter_In in Hx. destruct Hx as [Hx Ht].
    apply Z.eqb_eq in Ht. exists x. auto.
  - intros [x [Hx [Ht E]]]. exists x. split; [now symmetry|].
    apply filter_In. split; [assumption | now apply Z.eqb_eq].
Qed.

(** One turn of the loop on the working copy: what the two statements leave
    when neither is rejected. *)
Lemma merged_step userID targetTagID s t d d1 n1 d2 n2 :
  reassign_entry_tags targetTagID s t d = Some (d1, n1) ->
  delete_tag_of s userID t d1 = Some (d2, n2) ->
  entries d2 = entries d /\ clusters d2 = clusters d /\
  cluster_entries d2 = cluster_entries d /\
  tags d2 = filter (fun x => negb ((tag_id x =? s) && (tag_user_id x =? userID))) (tags d) /\
  (forall r, In r (entry_tags d2) <->
             (In r (entry_tags d) \/
              In r (do_nothing_on_conflict (entry_tags d) (select_reassigned targetTagID s d))) /\
             (et_tag_id r =? s) && owned_by userID s d = false) /\
  (et_unique (entry_tags d) = true -> et_unique (entry_tags d2) = true).
Proof.
  unfold reassign_entry_tags, delete_tag_of. intros H1 H2.
  destruct (forallb _ _) in H1; [|discriminate].
  inversion H1; subst d1 n1. inversion H2; subst d2 n2.
  cbn [delete_tags fst entries tags entry_tags clusters cluster_entries set_entry_tags].
  do 4 (split; [reflexivity|]). split.
  - intros r. rewrite filter_In, in_app_iff, negb_true_iff, cascade_ids. reflexivity.
  - intros Hu. unfold et_unique. apply unique_by_filter.
    now apply do_nothing_on_conflict_unique.
Qed.

Lemma merge_inv_step userID targetTagID d0 done s t d d1 n1 d2 n2 :
  s <> targetTagID ->
  merge_inv userID targetTagID d0 done d ->
  reassign_entry_tags targetTagID s t d = Some (d1, n1) ->
  delete_tag_of s userID t d1 = Some (d2, n2) ->
  merge_inv userID targetTagID d0 (done ++ [s]) d2.
Proof.
  intros Hs Inv H1 H2.
  destruct (merged_step userID targetTagID s t d d1 n1 d2 n2 H1 H2)
    as [E1 [E2 [E3 [E4 [E5 E6]]]]].
  destruct Inv as [J1 J2 J3 J4 J5 J6 J7 J8 J9].
  pose proof (owned_by_after userID s done d d0 J4) as Hown.
  set (added := do_nothing_on_conflict (entry_tags d)
                  (select_reassigned targetTagID s d)) in *.
  assert (Hadd : forall r, In r added ->
            et_tag_id r = targetTagID /\
            existsb (et_is (et_entry_id r) targetTagID) (entry_tags d) = false /\
            exists x, In x (entry_tags d) /\ et_tag_id x = s /\
                      et_entry_id x = et_entry_id r /\ et_source x = et_source r /\
                      et_created_at x = et_created_at r).
  { intros r Hr. apply do_nothing_on_conflict_In in Hr. destruct Hr as [Hr Hn].
    apply In_select_reassigned in Hr. destruct Hr as [x [Hx [Ht ->]]].
    cbn [et_entry_id et_tag_id et_source et_created_at] in *.
    split; [reflexivity|]. split; [exact Hn|]. exists x. auto. }
  assert (Hts : (targetTagID =? s) = false) by (apply Z.eqb_neq; congruence).
  assert (Hkeep : forall y, In y (entry_tags d) -> et_tag_id y = targetTagID ->
                            In y (entry_tags d2)).
  { intros y Hy Ht. apply E5. split; [now left|]. now rewrite Ht, Hts. }
  constructor.
  - congruence.
  - congruence.
  - congruence.
  - rewrite E4, J4, filter_filter. apply filter_ext. intros x.
    rewrite existsb_app. simpl. rewrite orb_false_r.
    destruct (existsb (Z.eqb (tag_id x)) done), (tag_id x =? s),
             (tag_user_id x =? userID); reflexivity.
  - intros r Hr. rewrite E5, removed_snoc, orb_false_iff, <- Hown. split.
    + intros [[Hin | Hin] Hc].
      * apply (J5 r Hr) in Hin. tauto.
      * apply Hadd in Hin. destruct Hin as [Ht _]. contradiction.
    + intros [Hin [Hrem Hc]]. split; [|exact Hc]. left. apply (J5 r Hr). tauto.
  - intros r Hin Ht. apply Hkeep; auto.
  - intros r' Hin Ht. apply E5 in Hin. destruct Hin as [[Hin | Hin] _].
    + destruct (J7 r' Hin Ht) as [H | [Hn [x [Hx [Hd H]]]]]; [now left|].
      right. split; [exact Hn|]. exists x. split; [exact Hx|].
      split; [apply in_app_iff; now left | exact H].
    + apply Hadd in Hin. destruct Hin as [_ [Hn [x [Hx [Hxs [He [Hso Hc]]]]]]].
      right. split.
      * destruct (existsb (et_is (et_entry_id r') targetTagID) (entry_tags d0)) eqn:Ex;
          [|reflexivity].
        apply existsb_exists in Ex. destruct Ex as [y [Hy Hk]].
        assert (In y (entry_tags d)).
        { apply J6; [exact Hy|]. apply et_is_iff in Hk. tauto. }
        assert (existsb (et_is (et_entry_id r') targetTagID) (entry_tags d) = true)
          by (apply existsb_exists; eauto).
        congruence.
      * exists x. split.
        -- apply (J5 x); [congruence | exact Hx].
        -- split; [apply in_app_iff; right; left; now symmetry |]. auto.
  - intros r Hin Hd.
    assert (Hex : existsb (et_is (et_entry_id r) targetTagID) (entry_tags d) = true \/
                  (et_tag_id r = s /\ existsb (Z.eqb s) done = false)).
    { apply in_app_iff in Hd. destruct Hd as [Hd | [Hd | []]].
      - left. now apply J8.
      - destruct (existsb (Z.eqb s) done) eqn:Ed.
        + left. apply J8; [exact Hin|]. rewrite <- Hd. now apply existsb_eqb_In.
        + right. auto. }
    destruct Hex as [Hex | [Ht Hnd]].
    + apply existsb_exists in Hex. destruct Hex as [y [Hy Hk]].
      apply existsb_exists. exists y. split; [|exact Hk].
      apply Hkeep; [exact Hy|]. apply et_is_iff in Hk. tauto.
    + assert (Hrd : In r (entry_tags d)).
      { apply (J5 r); [congruence|]. split; [exact Hin|].
        unfold removed. now rewrite Ht, Hnd. }
      assert (Hsel : In (mkEntryTag (et_entry_id r) targetTagID (et_source r) (et_created_at r))
                        (select_reassigned targetTagID s d)).
      { apply In_select_reassigned. exists r. auto. }
      pose proof (do_nothing_on_conflict_covers (select_reassigned targetTagID s d)
                    (entry_tags d) _ Hsel) as Hcov.
      cbn [et_entry_id et_tag_id] in Hcov.
      apply existsb_exists in Hcov. destruct Hcov as [y [Hy Hk]].
      apply existsb_exists. exists y. split; [|exact Hk].
      apply E5. split; [now apply in_app_iff in Hy|].
      apply et_is_iff in Hk. destruct Hk as [_ Hk]. now rewrite Hk, Hts.
  - intros Hu. apply E6. now apply J9.
Qed.

Lemma merged_inv userID targetTagID d0 t sourceTagIDs :
  forall done d d',
    merge_inv userID targetTagID d0 done d ->
    merged userID targetTagID sourceTagIDs t d = Some d' ->
    merge_inv userID targetTagID d0 (done ++ merged_sources targetTagID sourceTagIDs) d'.
Proof.
  induction sourceTagIDs as [|s rest IH]; intros done d d' Inv H; cbn [merged] in H.
  - inversion H; subst. cbn [merged_sources filter]. now rewrite app_nil_r.
  - unfold merged_sources. cbn [filter]. fold (merged_sources targetTagID rest).
    destruct (Z.eqb_spec s targetTagID) as [E|E]; cbn [negb].
    + now apply (IH done d).
    + destruct (reassign_entry_tags targetTagID s t d) as [[d1 n1]|] eqn:H1; [|discriminate].
      destruct (delete_tag_of s userID t d1) as [[d2 n2]|] eqn:H2; [|discriminate].
      change (s :: merged_sources targetTagID rest)
        with ([s] ++ merged_sources targetTagID rest).
      rewrite app_assoc. apply (IH (done ++ [s]) d2); [|exact H].
      now apply (merge_inv_step userID targetTagID d0 done s t d d1 n1 d2 n2).
Qed.

Lemma In_merged_sources targetTagID sourceTagIDs s :
  In s (merged_sources targetTagID sourceTagIDs) <->
  In s sourceTagIDs /\ s <> targetTagID.
Proof.
  unfold merged_sources. rewrite filter_In, negb_true_iff, Z.eqb_neq. reflexivity.
Qed.

Lemma removed_iff userID done d0 x :
  removed userID done d0 x = true <-> In x done /\ owned_by userID x d0 = true.
Proof. unfold removed. now rewrite andb_true_iff, existsb_eqb_In. Qed.

(** C1, as the code has it.  When [MergeTags] succeeds, with [S] the source
    ids other than the target: the target is not in [S]; the tags removed
    are exactly the tags of the caller with an id in [S]; every association
    of such a tag is gone and its entry has an association with the target;
    the associations the target had are all still there, unchanged; an
    association of the target that is new belongs to an entry that had none
    with the target, and carries the source and creation time of an
    association that entry had with a tag of [S]; I3 is kept; and the rows
    of all other tags are as they were. *)
Theorem MergeTags_reassigns faults userID targetTagID sourceTagIDs w w' :
  MergeTags faults userID targetTagID sourceTagIDs w = (Ok tt, w') ->
  let S := merged_sources targetTagID sourceTagIDs in
  ~ In targetTagID S /\
  (forall t, In t (tags (store w')) <->
             In t (tags (store w)) /\ ~ (In (tag_id t) S /\ tag_user_id t = userID)) /\
  (forall r, In r (entry_tags (store w)) -> In (et_tag_id r) S ->
             owned_by userID (et_tag_id r) (store w) = true ->
             ~ In r (entry_tags (store w')) /\
             exists r', In r' (entry_tags (store w')) /\
                        et_entry_id r' = et_entry_id r /\ et_tag_id r' = targetTagID) /\
  (forall r, In r (entry_tags (store w)) -> et_tag_id r = targetTagID ->
             In r (entry_tags (store w'))) /\
  (forall r', In r' (entry_tags (store w')) -> et_tag_id r' = targetTagID ->
      In r' (entry_tags (store w)) \/
      ((forall r, In r (entry_tags (store w)) ->
                  ~ (et_entry_id r = et_entry_id r' /\ et_tag_id r = targetTagID)) /\
       exists r, In r (entry_tags (store w)) /\ In (et_tag_id r) S /\
                 et_entry_id r = et_entry_id r' /\ et_source r = et_source r' /\
                 et_created_at r = et_created_at r')) /\
  (I3 (store w) = true -> I3 (store w') = true) /\
  (forall r, et_tag_id r <> targetTagID ->
             (In r (entry_tags (store w')) <->
              In r (entry_tags (store w)) /\
              ~ (In (et_tag_id r) S /\ owned_by userID (et_tag_id r) (store w) = true))).
Proof.
  intros H S. apply MergeTags_run in H. destruct H as [_ [Hm _]].
  pose proof (merged_inv userID targetTagID (store w) (now w) sourceTagIDs
                [] (store w) (store w')
                (merge_inv_start userID targetTagID (store w)) Hm) as Inv.
  cbn [app] in Inv. fold S in Inv.
  destruct Inv as [J1 J2 J3 J4 J5 J6 J7 J8 J9].
  assert (HS : ~ In targetTagID S).
  { intros Hin. apply In_merged_sources in Hin. now destruct Hin. }
  assert (Hother : forall r, et_tag_id r <> targetTagID ->
            (In r (entry_tags (store w')) <->
             In r (entry_tags (store w)) /\
             ~ (In (et_tag_id r) S /\ owned_by userID (et_tag_id r) (store w) = true))).
  { intros r Hr. rewrite (J5 r Hr), <- removed_iff.
    destruct (removed userID S (store w) (et_tag_id r)); intuition congruence. }
  split; [exact HS|]. split; [|split; [|split; [|split; [|split]]]].
  - intros t. rewrite J4, filter_In, negb_true_iff, andb_false_iff.
    rewrite <- existsb_eqb_In, <- Z.eqb_eq.
    destruct (existsb (Z.eqb (tag_id t)) S), (tag_user_id t =? userID);
      intuition congruence.
  - intros r Hin HinS Hown.
    assert (Hr : et_tag_id r <> targetTagID) by (intros E; apply HS; now rewrite <- E).
    split.
    + intros Hpost. apply (Hother r Hr) in Hpost. tauto.
    + pose proof (J8 r Hin HinS) as Hex. apply existsb_exists in Hex.
      destruct Hex as [y [Hy Hk]]. apply et_is_iff in Hk. exists y. tauto.
  - exact J6.
  - intros r' Hin Ht. destruct (J7 r' Hin Ht) as [H | [Hn Hex]]; [now left|].
    right. split; [|exact Hex].
    intros r Hr [E1 E2].
    assert (existsb (et_is (et_entry_id r') targetTagID) (entry_tags (store w)) = true).
    { apply existsb_exists. exists r. split; [exact Hr | now apply et_is_iff]. }
    congruence.
  - exact J9.
  - exact Hother.
Qed.

(** [MergeTags] does succeed: with a driver that does not fail, a stored
    target tag and associations that reference stored entries, no statement
    of the loop is rejected. *)
Lemma merged_defined userID targetTagID t sourceTagIDs :
  forall d,
    has_tag d targetTagID = true ->
    (forall r, In r (entry_tags d) -> has_entry d (et_entry_id r) = true) ->
    exists d', merged userID targetTagID sourceTagIDs t d = Some d'.
Proof.
  induction sourceTagIDs as [|s rest IH]; intros d Ht He; cbn [merged].
  - exists d. reflexivity.
  - destruct (Z.eqb_spec s targetTagID) as [E|E]; [now apply IH|].
    assert (Hfk : forallb (fk_entry_tag d)
                    (do_nothing_on_conflict (entry_tags d)
                       (select_reassigned targetTagID s d)) = true).
    { apply forallb_forall. intros x Hx. apply do_nothing_on_conflict_In in Hx.
      destruct Hx as [Hx _]. apply In_select_reassigned in Hx.
      destruct Hx as [y [Hy [_ ->]]]. unfold fk_entry_tag. cbn [et_tag_id et_entry_id].
      now rewrite Ht, (He y Hy). }
    destruct (reassign_entry_tags targetTagID s t d) as [[d1 n1]|] eqn:H1.
    2:{ unfold reassign_entry_tags in H1. rewrite Hfk in H1. discriminate. }
    destruct (delete_tag_of s userID t d1) as [[d2 n2]|] eqn:H2; [|discriminate].
    destruct (merged_step userID targetTagID s t d d1 n1 d2 n2 H1 H2)
      as [E1 [_ [_ [E4 [E5 _]]]]].
    apply IH.
    + unfold has_tag in *. rewrite E4, existsb_filter.
      apply existsb_exists in Ht. destruct Ht as [x [Hx Hid]].
      apply existsb_exists. exists x. split; [exact Hx|].
      apply Z.eqb_eq in Hid. rewrite Hid.
      destruct (Z.eqb_spec targetTagID s); [congruence|]. simpl. apply Z.eqb_refl.
    + intros r Hr. apply E5 in Hr. destruct Hr as [[Hr | Hr] _].
      * unfold has_entry in *. rewrite E1. now apply He.
      * apply do_nothing_on_conflict_In in Hr. destruct Hr as [Hr _].
        apply In_select_reassigned in Hr. destruct Hr as [y [Hy [_ ->]]].
        unfold has_entry in *. rewrite E1. cbn [et_entry_id]. now apply He.
Qed.

Lemma merge_loop_ok faults userID targetTagID sourceTagIDs :
  (forall k, faults k = false) ->
  forall w d d',
    txn w = Some d ->
    merged userID targetTagID sourceTagIDs (now w) d = Some d' ->
    exists w', merge_loop faults userID targetTagID sourceTagIDs w = (Ok tt, w') /\
               txn w' = Some d' /\ store w' = store w.
Proof.
  intros Hf. induction sourceTagIDs as [|s rest IH]; intros w d d' Ht Hm;
    cbn [merged merge_loop] in *.
  - inversion Hm; subst. exists w. auto.
  - destruct (s =? targetTagID); [now apply (IH w d)|].
    destruct (reassign_entry_tags targetTagID s (now w) d) as [[d1 n1]|] eqn:H1;
      [|discriminate].
    destruct (delete_tag_of s userID (now w) d1) as [[d2 n2]|] eqn:H2; [|discriminate].
    unfold bind, wrap_rollback.
    rewrite (tx_Exec_ok faults _ w d d1 n1 (Hf _) Ht H1).
    rewrite (tx_Exec_ok faults _ (set_txn (tick w) (Some d1)) d1 d2 n2 (Hf _) eq_refl H2).
    destruct (IH (set_txn (tick (set_txn (tick w) (Some d1))) (Some d2)) d2 d' eq_refl Hm)
      as [w' [Hl [Htx Hst]]].
    exists w'. auto.
Qed.

Lemma MergeTags_succeeds faults userID targetTagID sourceTagIDs w :
  (forall k, faults k = false) ->
  has_tag (store w) targetTagID = true ->
  (forall r, In r (entry_tags (store w)) -> has_entry (store w) (et_entry_id r) = true) ->
  exists w', MergeTags faults userID targetTagID sourceTagIDs w = (Ok tt, w').
Proof.
  intros Hf Ht He.
  destruct (merged_defined userID targetTagID (now w) sourceTagIDs (store w) Ht He)
    as [d' Hm].
  unfold MergeTags, bind, wrap at 1, db_Begin, bind.
  rewrite (roundtrip_ok faults w (Hf _)).
  destruct (merge_loop_ok faults userID targetTagID sourceTagIDs Hf
              (set_txn (tick w) (Some (store (tick w)))) (store w) d' eq_refl Hm)
    as [w1 [Hl [Htx Hst]]].
  rewrite Hl. unfold wrap, tx_Commit. rewrite (roundtrip_ok faults w1 (Hf _)).
  cbn [txn tick]. rewrite Htx. eexists. reflexivity.
Qed.

(* ================================================================== *)
(** ** I2 under the operations that write associations *)
(* ================================================================== *)

Lemma db_QueryRow_run faults A (q : Z -> DB -> list A) w r w' :
  db_QueryRow faults q w = (r, w') ->
  store w' = store w /\ now w' = now w /\
  match r with
  | Ok x => In x (q (now w) (store w))
  | Err _ => True
  end.
Proof.
  unfold db_QueryRow, bind, roundtrip. destruct (faults (calls w)).
  - intros H; inversion H; subst. cbn. auto.
  - cbn [now store tick]. destruct (q (now w) (store w)) as [|x rest];
      intros H; inversion H; subst; cbn; auto.
Qed.

Lemma db_Exec_run faults stmt w r w' :
  db_Exec faults stmt w = (r, w') ->
  now w' = now w /\
  match r with
  | Ok n => stmt (now w) (store w) = Some (store w', n)
  | Err _ => store w' = store w
  end.
Proof.
  unfold db_Exec, bind, roundtrip. destruct (faults (calls w)).
  - intros H; inversion H; subst. cbn. auto.
  - cbn [now store tick]. destruct (stmt (now w) (store w)) as [[d n]|] eqn:E;
      intros H; inversion H; subst; cbn; auto.
Qed.

Lemma wrap_run A fmt args (m : M A) w r w' :
  wrap fmt args m w = (r, w') ->
  match r with
  | Ok a => m w = (Ok a, w')
  | Err _ => exists e, m w = (Err e, w')
  end.
Proof.
  unfold wrap. destruct (m w) as [[a|e] w1]; intros H; inversion H; subst.
  - reflexivity.
  - exists e. reflexivity.
Qed.

Lemma isolated_same d d' r r' :
  tags d' = tags d -> entries d' = entries d ->
  et_tag_id r' = et_tag_id r -> et_entry_id r' = et_entry_id r ->
  isolated d' r' = isolated d r.
Proof. unfold isolated. now intros -> -> -> ->. Qed.

Lemma isolated_owned d r x y :
  In x (tags d) -> In y (entries d) ->
  tag_id x = et_tag_id r -> entry_id y = et_entry_id r ->
  entry_user_id y = tag_user_id x ->
  isolated d r = true.
Proof.
  intros Hx Hy E1 E2 E3. unfold isolated. apply existsb_exists. exists x.
  split; [exact Hx|]. apply andb_true_iff. split; [now apply Z.eqb_eq|].
  apply existsb_exists. exists y. split; [exact Hy|].
  apply andb_true_iff. split; now apply Z.eqb_eq.
Qed.

Lemma isolated_inv d r :
  isolated d r = true ->
  exists x y, In x (tags d) /\ In y (entries d) /\ tag_id x = et_tag_id r /\
              entry_id y = et_entry_id r /\ entry_user_id y = tag_user_id x.
Proof.
  unfold isolated. intros H. apply existsb_exists in H. destruct H as [x [Hx H]].
  apply andb_true_iff in H. destruct H as [E1 H]. apply existsb_exists in H.
  destruct H as [y [Hy H]]. apply andb_true_iff in H. destruct H as [E2 E3].
  apply Z.eqb_eq in E1, E2, E3. exists x, y. auto.
Qed.

Lemma I2_set_source d s e t :
  I2 d = true -> I2 (set_entry_tags d (map (set_source s e t) (entry_tags d))) = true.
Proof.
  unfold I2. cbn [entry_tags set_entry_tags]. rewrite !forallb_forall.
  intros H r Hr. apply in_map_iff in Hr. destruct Hr as [r0 [<- Hr0]].
  rewrite (isolated_same d _ r0); [now apply H | reflexivity | reflexivity | |];
    unfold set_source; destruct (et_is e t r0); reflexivity.
Qed.

Lemma I2_filter d p :
  I2 d = true -> I2 (set_entry_tags d (filter p (entry_tags d))) = true.
Proof.
  unfold I2. cbn [entry_tags set_entry_tags]. rewrite !forallb_forall.
  intros H r Hr. apply filter_In in Hr. destruct Hr as [Hr _].
  rewrite (isolated_same d _ r); auto.
Qed.

Lemma I2_attached d e t s c x y :
  I2 d = true ->
  In x (tags d) -> tag_id x = t ->
  In y (entries d) -> entry_id y = e ->
  entry_user_id y = tag_user_id x ->
  I2 (attached d e t s c) = true.
Proof.
  intros H Hx Et Hy Ee Eu. unfold attached.
  destruct (existsb (et_is e t) (entry_tags d)); [now apply I2_set_source|].
  unfold I2 in *. cbn [entry_tags set_entry_tags]. rewrite forallb_forall in *.
  intros r Hr. apply in_app_iff in Hr. destruct Hr as [Hr | [<- | []]].
  - rewrite (isolated_same d _ r); auto.
  - apply (isolated_owned _ _ x y); auto.
Qed.

Lemma upsert_attached e t s c d d' n :
  upsert_entry_tag e t s c d = Some (d', n) -> d' = attached d e t s c.
Proof.
  unfold upsert_entry_tag, attached.
  destruct (existsb (et_is e t) (entry_tags d)).
  - intros H; inversion H; reflexivity.
  - destruct (fk_entry_tag d _); intros H; inversion H; reflexivity.
Qed.

Lemma In_select_entry_of e u c d b :
  In b (select_entry_of e u c d) ->
  exists y, In y (entries d) /\ entry_id y = e /\ entry_user_id y = u.
Proof.
  unfold select_entry_of. intros H. apply in_map_iff in H. destruct H as [y [_ H]].
  apply filter_In in H. destruct H as [Hy H]. apply andb_true_iff in H.
  destruct H as [E1 E2]. apply Z.eqb_eq in E1, E2. exists y. auto.
Qed.

Lemma In_select_tag_of t u c d b :
  In b (select_tag_of t u c d) ->
  exists x, In x (tags d) /\ tag_id x = t /\ tag_user_id x = u.
Proof.
  unfold select_tag_of. intros H. apply in_map_iff in H. destruct H as [x [_ H]].
  apply filter_In in H. destruct H as [Hx H]. apply andb_true_iff in H.
  destruct H as [E1 E2]. apply Z.eqb_eq in E1, E2. exists x. auto.
Qed.

(** Whatever the driver does, [AddTagToEntry] keeps I2: the row it writes
    is for an entry and a tag it has just found to be the caller's. *)
Lemma AddTagToEntry_keeps_I2 faults userID entryID tagID source w r w' :
  AddTagToEntry faults userID entryID tagID source w = (r, w') ->
  I2 (store w) = true -> I2 (store w') = true.
Proof.
  unfold AddTagToEntry, bind. intros H HI.
  destruct (wrap _ _ (db_QueryRow faults (select_entry_of entryID userID)) w)
    as [[b1|e1] w1] eqn:Q1.
  2:{ inversion H; subst. apply wrap_run in Q1. destruct Q1 as [e Q1].
      apply db_QueryRow_run in Q1. destruct Q1 as [-> _]. exact HI. }
  apply wrap_run, db_QueryRow_run in Q1. destruct Q1 as [S1 [N1 Q1]].
  apply In_select_entry_of in Q1. destruct Q1 as [y [Hy [Ey Uy]]].
  destruct (wrap _ _ (db_QueryRow faults (select_tag_of tagID userID)) w1)
    as [[b2|e2] w2] eqn:Q2.
  2:{ inversion H; subst. apply wrap_run in Q2. destruct Q2 as [e Q2].
      apply db_QueryRow_run in Q2. destruct Q2 as [-> _]. now rewrite S1. }
  apply wrap_run, db_QueryRow_run in Q2. destruct Q2 as [S2 [N2 Q2]].
  apply In_select_tag_of in Q2. destruct Q2 as [x [Hx [Ex Ux]]].
  destruct (wrap _ _ (db_Exec faults (upsert_entry_tag entryID tagID _)) w2)
    as [[n|e3] w3] eqn:X.
  - inversion H; subst. apply wrap_run, db_Exec_run in X. destruct X as [_ X].
    apply upsert_attached in X. rewrite X, S2, S1.
    rewrite S1 in Hx. apply (I2_attached _ _ _ _ _ x y); auto; congruence.
  - inversion H; subst. apply wrap_run in X. destruct X as [e X].
    apply db_Exec_run in X. destruct X as [_ ->]. now rewrite S2, S1.
Qed.

Lemma AddTagsToEntry_keeps_I2 faults userID entryID source tagIDs :
  forall w r w',
    AddTagsToEntry faults userID entryID tagIDs source w = (r, w') ->
    I2 (store w) = true -> I2 (store w') = true.
Proof.
  induction tagIDs as [|t rest IH]; intros w r w' H HI; cbn [AddTagsToEntry] in H.
  - inversion H; subst. exact HI.
  - unfold bind in H.
    destruct (AddTagToEntry faults userID entryID t source w) as [[[]|e] w1] eqn:A.
    + apply (IH w1 r w' H). now apply (AddTagToEntry_keeps_I2 _ _ _ _ _ _ _ _ A).
    + inversion H; subst. now apply (AddTagToEntry_keeps_I2 _ _ _ _ _ _ _ _ A).
Qed.

Lemma RemoveTagFromEntry_keeps_I2 faults userID entryID tagID w r w' :
  RemoveTagFromEntry faults userID entryID tagID w = (r, w') ->
  I2 (store w) = true -> I2 (store w') = true.
Proof.
  unfold RemoveTagFromEntry, bind. intros H HI.
  destruct (wrap _ _ (db_QueryRow faults (select_entry_of entryID userID)) w)
    as [[b1|e1] w1] eqn:Q1.
  2:{ inversion H; subst. apply wrap_run in Q1. destruct Q1 as [e Q1].
      apply db_QueryRow_run in Q1. destruct Q1 as [-> _]. exact HI. }
  apply wrap_run, db_QueryRow_run in Q1. destruct Q1 as [S1 _].
  destruct (wrap _ _ (db_Exec faults (delete_entry_tag entryID tagID)) w1)
    as [[n|e3] w3] eqn:X.
  - inversion H; subst. apply wrap_run, db_Exec_run in X. destruct X as [_ X].
    unfold delete_entry_tag in X. inversion X as [[X1 X2]]. rewrite S1.
    now apply I2_filter.
  - inversion H; subst. apply wrap_run in X. destruct X as [e X].
    apply db_Exec_run in X. destruct X as [_ ->]. now rewrite S1.
Qed.

Lemma ConfirmAutoTag_keeps_I2 faults userID entryID tagID w r w' :
  ConfirmAutoTag faults userID entryID tagID w = (r, w') ->
  I2 (store w) = true -> I2 (store w') = true.
Proof.
  unfold ConfirmAutoTag, bind. intros H HI.
  destruct (wrap _ _ (db_QueryRow faults (select_entry_of entryID userID)) w)
    as [[b1|e1] w1] eqn:Q1.
  2:{ inversion H; subst. apply wrap_run in Q1. destruct Q1 as [e Q1].
      apply db_QueryRow_run in Q1. destruct Q1 as [-> _]. exact HI. }
  apply wrap_run, db_QueryRow_run in Q1. destruct Q1 as [S1 _].
  destruct (wrap _ _ (db_Exec faults (update_entry_tag_source _ entryID tagID)) w1)
    as [[n|e3] w3] eqn:X.
  - inversion H; subst. apply wrap_run, db_Exec_run in X. destruct X as [_ X].
    unfold update_entry_tag_source in X. inversion X as [[X1 X2]]. rewrite S1.
    now apply I2_set_source.
  - inversion H; subst. apply wrap_run in X. destruct X as [e X].
    apply db_Exec_run in X. destruct X as [_ ->]. now rewrite S1.
Qed.

Lemma owned_by_iff userID x d :
  owned_by userID x d = true <->
  exists t, In t (tags d) /\ tag_id t = x /\ tag_user_id t = userID.
Proof.
  unfold owned_by. rewrite existsb_exists. split.
  - intros [t [Ht H]]. apply andb_true_iff in H. destruct H as [E1 E2].
    apply Z.eqb_eq in E1, E2. exists t. auto.
  - intros [t [Ht [E1 E2]]]. exists t. split; [exact Ht|].
    apply andb_true_iff. split; now apply Z.eqb_eq.
Qed.

(** [MergeTags] keeps I2 when the target tag and the stored source tags are
    the caller's; nothing in it checks that they are. *)
Lemma MergeTags_keeps_I2_own faults userID targetTagID sourceTagIDs w r w' :
  MergeTags faults userID targetTagID sourceTagIDs w = (r, w') ->
  I2 (store w) = true ->
  owned_by userID targetTagID (store w) = true ->
  (forall t, In t (tags (store w)) ->
             In (tag_id t) (merged_sources targetTagID sourceTagIDs) ->
             tag_user_id t = userID) ->
  I2 (store w') = true.
Proof.
  intros H HI Htgt Hsrc. apply MergeTags_run in H. destruct r as [[]|e].
  2:{ destruct H as [-> _]. exact HI. }
  destruct H as [_ [Hm _]].
  pose proof (merged_inv userID targetTagID (store w) (now w) sourceTagIDs
                [] (store w) (store w')
                (merge_inv_start userID targetTagID (store w)) Hm) as Inv.
  cbn [app] in Inv. set (S := merged_sources targetTagID sourceTagIDs) in *.
  destruct Inv as [J1 J2 J3 J4 J5 J6 J7 J8 J9].
  assert (HS : existsb (Z.eqb targetTagID) S = false).
  { destruct (existsb (Z.eqb targetTagID) S) eqn:E; [|reflexivity].
    apply existsb_eqb_In, In_merged_sources in E. now destruct E. }
  assert (Hstay : forall x, In x (tags (store w)) ->
            existsb (Z.eqb (tag_id x)) S && (tag_user_id x =? userID) = false ->
            In x (tags (store w'))).
  { intros x Hx Hg. rewrite J4. apply filter_In. split; [exact Hx|]. now rewrite Hg. }
  unfold I2 in *. rewrite forallb_forall in *. intros r' Hr'.
  destruct (Z.eq_dec (et_tag_id r') targetTagID) as [Et|Et].
  - apply owned_by_iff in Htgt. destruct Htgt as [xt [Hxt [Ext Uxt]]].
    assert (Hxt' : In xt (tags (store w'))).
    { apply Hstay; [exact Hxt|]. now rewrite Ext, HS. }
    destruct (J7 r' Hr' Et) as [Hpre | [_ [r0 [Hr0 [HinS [Ee _]]]]]].
    + destruct (isolated_inv _ _ (HI r' Hpre)) as [x [y [Hx [Hy [E1 [E2 E3]]]]]].
      apply (isolated_owned _ _ x y); auto.
      * apply Hstay; [exact Hx|]. now rewrite E1, Et, HS.
      * now rewrite J1.
    + destruct (isolated_inv _ _ (HI r0 Hr0)) as [x [y [Hx [Hy [E1 [E2 E3]]]]]].
      apply (isolated_owned _ _ xt y); auto.
      * now rewrite J1.
      * congruence.
      * congruence.
      * rewrite E3, Uxt. apply Hsrc; [exact Hx|]. now rewrite E1.
  - apply (J5 r' Et) in Hr'. destruct Hr' as [Hpre Hrem].
    destruct (isolated_inv _ _ (HI r' Hpre)) as [x [y [Hx [Hy [E1 [E2 E3]]]]]].
    apply (isolated_owned _ _ x y); auto.
    + apply Hstay; [exact Hx|]. rewrite E1.
      unfold removed in Hrem. apply andb_false_iff in Hrem.
      destruct Hrem as [-> | Hown]; [reflexivity|].
      destruct (Z.eqb_spec (tag_user_id x) userID) as [Eu|Eu];
        [|now rewrite andb_false_r].
      assert (owned_by userID (et_tag_id r') (store w) = true).
      { apply owned_by_iff. exists x. auto. }
      congruence.
    + now rewrite J1.
Qed.

(* ================================================================== *)
(** ** The properties on the sample states *)
(* ================================================================== *)

(** P4 of the spec: merging A and B into C leaves the entry tagged with C
    once, with the source and creation time it had under A, and removes
    A and B. *)
Example merge_A_B_into_C :
  MergeTags reliable 1 3 [1; 2] (world_of merge_db 1000)
  = (Ok tt, mkWorld (mkDB [mkEntry 42 1] [mkTag 3 1 "c" 30]
                          [mkEntryTag 42 3 "auto" 100] [] [])
                    None 1000 6).
Proof. reflexivity. Qed.

(** P7 of the spec: three of the five clusters have expired. *)
Example sweep_three_of_five :
  fst (RemoveExpiredClusters reliable (world_of sweep_db 1000)) = Ok 3 /\
  map cluster_id
      (clusters (store (snd (RemoveExpiredClusters reliable (world_of sweep_db 1000)))))
  = [2; 4].
Proof. split; reflexivity. Qed.

Lemma MergeTags_reassigns_witness :
  MergeTags reliable 1 3 [1; 2] (world_of merge_db 1000)
  = (Ok tt, mkWorld (mkDB [mkEntry 42 1] [mkTag 3 1 "c" 30]
                          [mkEntryTag 42 3 "auto" 100] [] [])
                    None 1000 6) /\
  ~ In 3 (merged_sources 3 [1; 2]) /\
  (I3 merge_db = true ->
   I3 (mkDB [mkEntry 42 1] [mkTag 3 1 "c" 30] [mkEntryTag 42 3 "auto" 100] [] []) = true).
Proof.
  split; [reflexivity|].
  pose proof (MergeTags_reassigns reliable 1 3 [1; 2] (world_of merge_db 1000)
                (mkWorld (mkDB [mkEntry 42 1] [mkTag 3 1 "c" 30]
                               [mkEntryTag 42 3 "auto" 100] [] [])
                         None 1000 6) eq_refl) as H.
  cbv zeta in H. destruct H as [H1 [_ [_ [_ [_ [H6 _]]]]]].
  split; [exact H1 | exact H6].
Defined.

(** C1 as the spec states it does not hold: user 1 merges tag 2, a tag of
    user 2, into its own tag 1; the call succeeds and tag 2, a source tag
    that was not skipped, is still stored. *)
Lemma MergeTags_foreign_source_not_deleted :
  ~ (forall faults userID targetTagID sourceTagIDs w w',
       MergeTags faults userID targetTagID sourceTagIDs w = (Ok tt, w') ->
       forall s, In s sourceTagIDs -> s <> targetTagID ->
                 has_tag (store w') s = false).
Proof.
  intros H.
  specialize (H reliable 1 1 [2] (world_of two_owners_db 1000)
                (mkWorld (mkDB [mkEntry 10 2; mkEntry 11 1]
                               [mkTag 1 1 "go" 1; mkTag 2 2 "rust" 2]
                               [mkEntryTag 10 2 "manual" 7; mkEntryTag 10 1 "manual" 7]
                               [] [])
                         None 1000 4)
                eq_refl 2 (or_introl eq_refl)).
  assert (H2 : 2 <> 1) by discriminate.
  specialize (H H2). discriminate H.
Qed.

Lemma MergeTags_atomic_witness :
  MergeTags fourth_fails 1 3 [1; 2] (world_of merge_db 1000)
  = (Err (Errorf "store: unable to reassign entries: %v" [] (ErrDriver "bad connection")),
     mkWorld merge_db None 1000 4) /\
  (exists e : error,
     @Err unit (Errorf "store: unable to reassign entries: %v" []
                       (ErrDriver "bad connection")) = Err e) /\
  store (mkWorld merge_db None 1000 4) = store (world_of merge_db 1000).
Proof.
  split; [reflexivity|].
  destruct (MergeTags_atomic fourth_fails 1 3 [1; 2] (world_of merge_db 1000)
              (Err (Errorf "store: unable to reassign entries: %v" []
                           (ErrDriver "bad connection")))
              (mkWorld merge_db None 1000 4) eq_refl) as [H1 H2].
  split.
  - apply H1. exists 3%nat. split; [simpl; lia | reflexivity].
  - exact (proj1 (H2 _ eq_refl)).
Defined.

(** C3.  The stored state of [two_owners_db] satisfies I2.  User 2 merges
    its tag 2 into tag 1, a tag of user 1: [MergeTags] succeeds, entry 10
    of user 2 is now associated with tag 1, which user 2 does not own, and
    I2 no longer holds. *)
Theorem MergeTags_crosses_owners :
  I2 two_owners_db = true /\
  exists w',
    MergeTags reliable 2 1 [2] (world_of two_owners_db 1000) = (Ok tt, w') /\
    In (mkEntryTag 10 1 "manual" 7) (entry_tags (store w')) /\
    In (mkEntry 10 2) (entries (store w')) /\
    In (mkTag 1 1 "go" 1) (tags (store w')) /\
    owned_by 2 1 (store w') = false /\
    I2 (store w') = false.
Proof.
  split; [reflexivity|].
  eexists. split; [reflexivity|].
  cbn. repeat split; auto.
Qed.

Lemma AddTagToEntry_upsert_witness :
  exists w1 w2,
    AddTagToEntry reliable 1 42 3 TagSourceAuto (world_of merge_db 1000) = (Ok tt, w1) /\
    AddTagToEntry reliable 1 42 3 TagSourceManual w1 = (Ok tt, w2) /\
    count_et (store w2) 42 3 = 1%nat /\
    (forall r, In r (entry_tags (store w2)) ->
               et_entry_id r = 42 -> et_tag_id r = 3 -> et_source r = TagSourceManual).
Proof.
  apply (AddTagToEntry_upsert reliable (world_of merge_db 1000) 1 42 3 TagSourceAuto
           (mkTag 3 1 "c" 30)).
  - intros k. reflexivity.
  - reflexivity.
  - simpl. auto.
  - simpl. auto.
  - reflexivity.
  - reflexivity.
Defined.

Lemma expired_cluster_listing_witness :
  ClusterByID reliable 1 1 (world_of sweep_db 1000)
  = (Ok (Some (mkCluster 1 1 "c1" 10 (Some 500) None)), tick (world_of sweep_db 1000)) /\
  (exists l, Clusters reliable 1 (world_of sweep_db 1000)
             = (Ok l, tick (world_of sweep_db 1000)) /\
             forall y, In y l -> ID y <> 1) /\
  (exists l, GetEntryClusters reliable 1 42 (world_of sweep_db 1000)
             = (Ok l, tick (world_of sweep_db 1000)) /\
             In (mkCluster 2 1 "c2" 20 None None) l).
Proof.
  destruct (expired_cluster_listing reliable (world_of sweep_db 1000)
              (mkClusterRow 1 1 "c1" 10 (Some 500)))
    as [H1 [H2 _]]; [reflexivity | reflexivity | simpl; auto |].
  destruct (expired_cluster_listing reliable (world_of sweep_db 1000)
              (mkClusterRow 2 1 "c2" 20 None))
    as [_ [_ H3]]; [reflexivity | reflexivity | simpl; auto |].
  split; [exact H1|]. split.
  - apply (H2 (ex_intro _ 500 (conj eq_refl eq_refl)) 1 42).
  - apply (proj2 (H3 (or_introl eq_refl)) 42). simpl. auto.
Defined.

Lemma RemoveExpiredClusters_sweep_witness :
  exists n w',
    RemoveExpiredClusters reliable (world_of sweep_db 1000) = (Ok n, w') /\
    clusters (store w')
    = filter (fun c => negb (expired 1000 c)) (clusters sweep_db) /\
    (forall c, In c (clusters (store w')) <->
               In c (clusters sweep_db) /\
               ~ (exists x, cluster_expires_at c = Some x /\ x < 1000)) /\
    n = 5 - Z.of_nat (List.length (clusters (store w'))) /\
    exists w'', RemoveExpiredClusters reliable w' = (Ok 0, w'') /\ store w'' = store w'.
Proof.
  apply (RemoveExpiredClusters_sweep reliable (world_of sweep_db 1000)); reflexivity.
Defined.

Lemma AddEntryToCluster_idempotent_witness :
  exists w1 wn,
    AddEntryToCluster reliable 4 42 (world_of sweep_db 1000) = (Ok tt, w1) /\
    add_entry_times reliable 3 4 42 (world_of sweep_db 1000) = (Ok tt, wn) /\
    store wn = store w1 /\
    count_ce (store wn) 4 42 = 1%nat /\
    count_cluster_entries (store wn) 4 = count_cluster_entries (store w1) 4 /\
    exists wb,
      AddEntriesToCluster reliable 4 (repeat 42 3) (world_of sweep_db 1000) = (Ok tt, wb) /\
      store wb = store w1.
Proof.
  destruct (AddEntryToCluster_idempotent reliable (world_of sweep_db 1000) 4 42)
    as [_ H]; [intros k; reflexivity | reflexivity |].
  apply (H eq_refl eq_refl 3%nat). lia.
Defined.

Lemma RemoveTagFromEntry_idempotent_witness :
  exists w',
    RemoveTagFromEntry reliable 1 42 3 (world_of merge_db 1000) = (Ok tt, w') /\
    store w' = merge_db.
Proof.
  destruct (RemoveTagFromEntry_idempotent reliable (world_of merge_db 1000) 1 42 3)
    as [w' [H1 [_ [_ H4]]]]; [reflexivity | reflexivity | simpl; auto |].
  exists w'. split; [exact H1|]. apply H4.
  simpl. intros r [<- | [<- | []]] [_ E]; discriminate E.
Defined.

Lemma UpdateTag_absent_is_success_witness :
  UpdateTag reliable (fun s => s) (mkTag 9 1 "x" 0) (world_of merge_db 1000)
  = (Ok tt, tick (world_of merge_db 1000)) /\
  store (tick (world_of merge_db 1000)) = store (world_of merge_db 1000) /\
  RemoveTag reliable 1 9 (world_of merge_db 1000)
  = (Err (New "store: no tag has been removed"), tick (world_of merge_db 1000)).
Proof.
  apply (UpdateTag_absent_is_success reliable (fun s => s) (world_of merge_db 1000)
           (mkTag 9 1 "x" 0)).
  - reflexivity.
  - simpl. intros t [<- | [<- | [<- | []]]] [E _]; discriminate E.
Defined.

(* ================================================================== *)
(** ** Clusters: batches, removal and counts *)
(* ================================================================== *)

Lemma insert_cluster_entry_inv c e t d d' n :
  insert_cluster_entry c e t d = Some (d', n) ->
  entries d' = entries d /\ tags d' = tags d /\ entry_tags d' = entry_tags d /\
  clusters d' = clusters d /\
  existsb (ce_is c e) (cluster_entries d') = true /\
  (forall r, In r (cluster_entries d') <->
             In r (cluster_entries d) \/
             (r = mkClusterEntry c e /\ existsb (ce_is c e) (cluster_entries d) = false)) /\
  (I4 d = true -> I4 d' = true).
Proof.
  intros H. pose proof (insert_cluster_entry_stored c e t d d' n H) as Hs.
  unfold insert_cluster_entry in H.
  destruct (existsb (ce_is c e) (cluster_entries d)) eqn:Ex.
  - inversion H; subst. repeat split; auto.
    + intros [Hr | [_ Hf]]; [assumption | discriminate].
  - destruct (has_cluster d c && has_entry d e); [|discriminate].
    inversion H; subst. cbn [entries tags entry_tags clusters cluster_entries
                               set_cluster_entries] in *.
    repeat split; auto.
    + intros Hr. apply in_app_iff in Hr. destruct Hr as [Hr | [<- | []]]; auto.
    + intros [Hr | [-> _]]; apply in_app_iff; [now left | right; now left].
    + intros HI. unfold I4, ce_unique in *. cbn [cluster_entries].
      apply unique_by_app; auto. intros x. cbn [ClusterID EntryID]. unfold ce_is.
      now rewrite (Z.eqb_sym (ClusterID x)), (Z.eqb_sym (EntryID x)).
Qed.

Lemma add_entries_loop_run faults c ids :
  forall w r w',
    add_entries_loop faults c ids w = (r, w') ->
    store w' = store w /\
    match r with
    | Ok _ => forall d, txn w = Some d ->
                exists d', txn w' = Some d' /\ batch_added c ids d d'
    | Err _ => txn w' = None
    end.
Proof.
  induction ids as [|e rest IH]; intros w r w' H; cbn [add_entries_loop] in H.
  - inversion H; subst. split; [reflexivity|]. intros d Hd. exists d.
    split; [exact Hd|]. unfold batch_added. repeat split; auto. intros e [].
  - unfold bind in H.
    destruct (wrap_rollback _ _ (tx_Exec faults (insert_cluster_entry c e)) w)
      as [[n|err] w1] eqn:E.
    + apply wrap_rollback_run, tx_Exec_run in E.
      destruct E as [S1 [N1 [_ [_ [d0 [d1 [T0 [I1 T1]]]]]]]].
      destruct (IH w1 r w' H) as [S2 H2]. split; [congruence|].
      destruct r as [[]|err]; [|exact H2].
      intros d Hd. rewrite T0 in Hd. inversion Hd; subst d.
      destruct (H2 d1 T1) as [d' [T' B]]. exists d'. split; [exact T'|].
      apply insert_cluster_entry_inv in I1.
      destruct I1 as [A1 [A2 [A3 [A4 [A5 [A6 A7]]]]]].
      destruct B as [B1 [B2 [B3 [B4 [B5 [B6 [B7 B8]]]]]]].
      unfold batch_added. repeat split; try congruence.
      * intros x [<- | Hx]; [|now apply B5].
        apply B6. now apply ce_is_In.
      * intros x Hx. apply B6. apply A6. now left.
      * intros x Hx. destruct (B7 x Hx) as [Hd1 | [Hc Hi]].
        -- apply A6 in Hd1. destruct Hd1 as [Hd1 | [-> _]]; [now left|].
           right. split; [reflexivity | now left].
        -- right. split; [exact Hc | now right].
      * auto.
    + inversion H; subst. apply wrap_rollback_run in E.
      destruct E as [e0 [w2 [E ->]]]. apply tx_Exec_run in E.
      destruct E as [S1 _]. split; [exact S1 | reflexivity].
Qed.

(** X1.  [AddEntriesToCluster] is all or nothing, whatever the driver does:
    when it answers an error the committed tables are those it was called
    on; when it answers [nil] every entry of the list is a member of the
    cluster, the rows there were are all still there, each new row is a
    pair of the cluster and an entry of the list, I4 is kept and no other
    table has changed. *)
Theorem AddEntriesToCluster_all_or_nothing faults clusterID entryIDs w :
  match AddEntriesToCluster faults clusterID entryIDs w with
  | (Err _, w') => store w' = store w
  | (Ok _, w') => batch_added clusterID entryIDs (store w) (store w')
  end.
Proof.
  unfold AddEntriesToCluster.
  destruct entryIDs as [|e rest].
  { cbn. unfold batch_added. repeat split; auto. intros x []. }
  cbn [List.length Nat.eqb].
  unfold bind, wrap at 1, db_Begin, bind, roundtrip.
  destruct (faults (calls w)); [reflexivity|].
  set (w0 := set_txn (tick w) (Some (store (tick w)))).
  unfold wrap_rollback at 1, tx_Prepare, roundtrip.
  destruct (faults (calls w0)); [reflexivity|].
  destruct (add_entries_loop faults clusterID (e :: rest) (tick w0))
    as [[[]|err] w1] eqn:L; apply add_entries_loop_run in L; destruct L as [S1 L].
  - destruct (L (store w) eq_refl) as [d' [T' B]].
    unfold wrap. destruct (tx_Commit faults w1) as [[[]|err] w2] eqn:C;
      apply tx_Commit_run in C; destruct C as [_ [_ C]].
    + destruct C as [_ [d [Td Sd]]].
      assert (Ed : store w2 = d') by congruence. rewrite Ed. exact B.
    + rewrite C, S1. reflexivity.
  - exact S1.
Qed.

Lemma cascade_cluster_ids s u y l :
  existsb (Z.eqb y)
          (map cluster_id (filter (fun c => (cluster_id c =? s) && (cluster_user_id c =? u)) l))
  = (y =? s) && existsb (fun c => (cluster_id c =? s) && (cluster_user_id c =? u)) l.
Proof.
  induction l as [|x l IH]; simpl.
  - now rewrite andb_false_r.
  - destruct (Z.eqb_spec (cluster_id x) s) as [E|E]; simpl.
    + destruct (cluster_user_id x =? u); simpl.
      * rewrite IH, E. destruct (y =? s); reflexivity.
      * exact IH.
    + exact IH.
Qed.

(** X2.  Whatever the driver does, [RemoveCluster] that answers an error
    (the statement failed, or no row was affected) leaves the tables as they
    were; when it answers [nil] a cluster with that id and owner was stored,
    the clusters left are the others, the membership rows left are those of
    other cluster ids, and no other table has changed. *)
Theorem RemoveCluster_outcome faults userID clusterID w :
  match RemoveCluster faults userID clusterID w with
  | (Err _, w') => store w' = store w
  | (Ok _, w') =>
      (exists c, In c (clusters (store w)) /\
                 cluster_id c = clusterID /\ cluster_user_id c = userID) /\
      (forall c, In c (clusters (store w')) <->
                 In c (clusters (store w)) /\
                 ~ (cluster_id c = clusterID /\ cluster_user_id c = userID)) /\
      (forall r, In r (cluster_entries (store w')) <->
                 In r (cluster_entries (store w)) /\ ClusterID r <> clusterID) /\
      entries (store w') = entries (store w) /\
      tags (store w') = tags (store w) /\
      entry_tags (store w') = entry_tags (store w)
  end.
Proof.
  unfold RemoveCluster, bind.
  set (hit := fun c => (cluster_id c =? clusterID) && (cluster_user_id c =? userID)).
  destruct (wrap _ _ (db_Exec faults (fun _ d => Some (delete_clusters hit d))) w)
    as [[n|e] w1] eqn:X.
  - apply wrap_run, db_Exec_run in X. destruct X as [_ X].
    assert (ED : delete_clusters hit (store w) = (store w1, n)) by congruence.
    pose proof (f_equal fst ED) as X1. pose proof (f_equal snd ED) as X2.
    cbn [fst snd] in X1, X2. clear X.
    destruct (existsb hit (clusters (store w))) eqn:Ex.
    + assert (Hn : (n =? 0) = false).
      { apply Z.eqb_neq. rewrite <- X2. cbn [delete_clusters snd].
        apply existsb_exists in Ex.
        destruct Ex as [c [Hc Hh]].
        assert (Hin : In c (filter hit (clusters (store w)))) by (apply filter_In; auto).
        destruct (filter hit (clusters (store w))); [contradiction | simpl; lia]. }
      rewrite Hn. cbn [ret]. rewrite <- X1.
      cbn [delete_clusters fst clusters cluster_entries entries tags entry_tags].
      split; [|split; [|split; [|auto]]].
      * apply existsb_exists in Ex. destruct Ex as [c [Hc Hh]].
        apply andb_true_iff in Hh. destruct Hh as [H1 H2].
        apply Z.eqb_eq in H1, H2. exists c. auto.
      * intros c. rewrite filter_In, negb_true_iff. unfold hit.
        rewrite andb_false_iff, !Z.eqb_neq. intuition.
        destruct (Z.eq_dec (cluster_id c) clusterID); [|now left].
        destruct (Z.eq_dec (cluster_user_id c) userID); [|now right].
        exfalso. auto.
      * intros r. rewrite filter_In, negb_true_iff. unfold hit.
        rewrite cascade_cluster_ids. fold hit. rewrite Ex, andb_true_r, Z.eqb_neq.
        reflexivity.
    + assert (H0 : forall c, In c (clusters (store w)) -> hit c = false).
      { intros c Hc. destruct (hit c) eqn:E; [|reflexivity].
        assert (existsb hit (clusters (store w)) = true) by (apply existsb_exists; eauto).
        congruence. }
      rewrite (delete_clusters_nothing hit (store w) H0) in X1, X2.
      cbn [fst snd] in X1, X2. subst n. cbn. congruence.
  - apply wrap_run in X. destruct X as [e0 X]. apply db_Exec_run in X.
    destruct X as [_ X]. exact X.
Qed.

(** X3.  [RemoveAllClusters] that answers an error changes nothing.  When it
    answers [nil] no cluster of the user is left, so [Clusters] and
    [GetEntryClusters] of that user answer the empty list on their next
    round trip; the clusters of other users are all still there, and with
    unique cluster ids so are their membership rows. *)
Theorem RemoveAllClusters_outcome faults userID w :
  match RemoveAllClusters faults userID w with
  | (Err _, w') => store w' = store w
  | (Ok _, w') =>
      (forall c, In c (clusters (store w')) <->
                 In c (clusters (store w)) /\ cluster_user_id c <> userID) /\
      (faults (calls w') = false ->
       Clusters faults userID w' = (Ok [], tick w') /\
       forall entryID, GetEntryClusters faults userID entryID w' = (Ok [], tick w')) /\
      (pk_clusters (store w) = true ->
       forall r c, In c (clusters (store w)) -> cluster_id c = ClusterID r ->
                   cluster_user_id c <> userID ->
                   In r (cluster_entries (store w)) -> In r (cluster_entries (store w')))
  end.
Proof.
  unfold RemoveAllClusters, bind.
  set (hit := fun c => cluster_user_id c =? userID).
  destruct (wrap _ _ (db_Exec faults (fun _ d => Some (delete_clusters hit d))) w)
    as [[n|e] w1] eqn:X.
  - apply wrap_run, db_Exec_run in X. destruct X as [_ X].
    assert (ED : delete_clusters hit (store w) = (store w1, n)) by congruence.
    pose proof (f_equal fst ED) as X1. cbn [fst] in X1. clear X. cbn [ret].
    assert (Hc : forall c, In c (clusters (store w1)) <->
                           In c (clusters (store w)) /\ cluster_user_id c <> userID).
    { intros c. rewrite <- X1. cbn [delete_clusters fst clusters].
      rewrite filter_In, negb_true_iff.
      unfold hit. now rewrite Z.eqb_neq. }
    split; [exact Hc|]. split.
    + intros Hf.
      assert (H0 : filter (fun c => (cluster_user_id c =? userID) && not_expired (now w1) c)
                          (clusters (store w1)) = []).
      { apply filter_none. intros c Hin. apply Hc in Hin. destruct Hin as [_ Hu].
        apply Z.eqb_neq in Hu. now rewrite Hu. }
      split.
      * unfold Clusters, wrap. rewrite db_Query_ok by assumption.
        unfold select_clusters. now rewrite H0.
      * intros entryID. unfold GetEntryClusters, wrap. rewrite db_Query_ok by assumption.
        unfold select_entry_clusters. now rewrite H0.
    + intros Hpk r c Hin Hid Hu Hr. rewrite <- X1.
      cbn [delete_clusters fst cluster_entries].
      apply filter_In. split; [exact Hr|]. apply negb_true_iff.
      apply existsb_none. intros y Hy. apply Z.eqb_neq. intros E.
      apply in_map_iff in Hy. destruct Hy as [c' [Hc' Hf]].
      apply filter_In in Hf. destruct Hf as [Hin' Hh]. unfold hit in Hh.
      apply Z.eqb_eq in Hh.
      assert (c' = c).
      { apply (distinct_inj _ cluster_id (clusters (store w))); auto. congruence. }
      subst c'. contradiction.
  - apply wrap_run in X. destruct X as [e0 X]. apply db_Exec_run in X.
    destruct X as [_ X]. exact X.
Qed.

(** X4.  With round trips that go through, [RemoveEntryFromCluster] of a
    pair that is not a member answers [nil] and changes nothing; and for a
    stored cluster and entry that are not yet paired, [AddEntryToCluster]
    followed by [RemoveEntryFromCluster] gives back the tables it started
    from. *)
Theorem RemoveEntryFromCluster_undoes_add faults clusterID entryID w :
  faults (calls w) = false ->
  faults (S (calls w)) = false ->
  existsb (ce_is clusterID entryID) (cluster_entries (store w)) = false ->
  RemoveEntryFromCluster faults clusterID entryID w = (Ok tt, set_store (tick w) (store w)) /\
  (has_cluster (store w) clusterID = true ->
   has_entry (store w) entryID = true ->
   exists w1 w2,
     AddEntryToCluster faults clusterID entryID w = (Ok tt, w1) /\
     In (mkClusterEntry clusterID entryID) (cluster_entries (store w1)) /\
     RemoveEntryFromCluster faults clusterID entryID w1 = (Ok tt, w2) /\
     store w2 = store w).
Proof.
  intros Hf1 Hf2 Hab.
  assert (Hno : forall r, In r (cluster_entries (store w)) ->
                          negb (ce_is clusterID entryID r) = true).
  { intros r Hr. apply negb_true_iff.
    destruct (ce_is clusterID entryID r) eqn:E; [|reflexivity].
    assert (existsb (ce_is clusterID entryID) (cluster_entries (store w)) = true)
      by (apply existsb_exists; eauto).
    congruence. }
  assert (Hkeep : filter (fun r => negb (ce_is clusterID entryID r))
                         (cluster_entries (store w)) = cluster_entries (store w))
    by (apply filter_all; exact Hno).
  split.
  - unfold RemoveEntryFromCluster, bind, wrap.
    rewrite (db_Exec_ok faults _ w (store w)
               (Z.of_nat (List.length (filter (ce_is clusterID entryID)
                                              (cluster_entries (store w))))) Hf1).
    + reflexivity.
    + unfold delete_cluster_entry. cbv zeta. rewrite Hkeep.
      destruct (store w); reflexivity.
  - intros Hc He. eexists. eexists. split; [|split; [|split]].
    + apply AddEntryToCluster_new; assumption.
    + cbn [store set_store cluster_entries set_cluster_entries].
      apply in_app_iff. right. now left.
    + unfold RemoveEntryFromCluster, bind, wrap.
      erewrite (db_Exec_ok faults _ (set_store (tick w) _)); [reflexivity | exact Hf2 |].
      reflexivity.
    + cbn [store set_store cluster_entries set_cluster_entries].
      rewrite filter_app, Hkeep. cbn [filter]. unfold ce_is at 1.
      cbn [ClusterID EntryID]. rewrite !Z.eqb_refl. cbn. rewrite app_nil_r.
      destruct (store w); reflexivity.
Qed.

(** X5.  The entry count [Clusters] reports is live: for a stored cluster
    that has not expired and a stored entry that is not yet a member, after
    [AddEntryToCluster] the owner's [Clusters] lists the cluster with an
    [EntryCount] one above the number of membership rows it had. *)
Theorem Clusters_entry_count_is_live faults c entryID w :
  faults (calls w) = false ->
  faults (S (calls w)) = false ->
  In c (clusters (store w)) ->
  (cluster_expires_at c = None \/ exists x, cluster_expires_at c = Some x /\ now w < x) ->
  has_entry (store w) entryID = true ->
  existsb (ce_is (cluster_id c) entryID) (cluster_entries (store w)) = false ->
  exists w1 l,
    AddEntryToCluster faults (cluster_id c) entryID w = (Ok tt, w1) /\
    Clusters faults (cluster_user_id c) w1 = (Ok l, tick w1) /\
    In (scan_cluster c (Some (count_cluster_entries (store w) (cluster_id c) + 1))) l.
Proof.
  intros Hf1 Hf2 Hin Hact He Hab. apply not_expired_iff in Hact.
  assert (Hc : has_cluster (store w) (cluster_id c) = true).
  { apply existsb_exists. exists c. split; [exact Hin | apply Z.eqb_refl]. }
  eexists. eexists. split; [|split].
  - apply AddEntryToCluster_new; assumption.
  - unfold Clusters, wrap. rewrite db_Query_ok by exact Hf2. reflexivity.
  - apply In_select_clusters. exists c.
    cbn [store set_store tick now clusters set_cluster_entries].
    repeat split; auto.
    f_equal. f_equal. unfold count_cluster_entries.
    cbn [cluster_entries set_cluster_entries]. rewrite filter_app, length_app.
    cbn [filter ClusterID]. rewrite Z.eqb_refl. cbn [List.length]. lia.
Qed.

(** X6.  When the sequence hands out an id that no stored cluster has and
    the round trips go through, [CreateCluster] appends one row with that
    id, the caller as owner, the clock as creation time and the given name
    and expiry, changes no other table, and [ClusterByID] of the caller then
    returns the cluster it answered. *)
Theorem CreateCluster_then_ClusterByID faults clusters_id_seq userID name expiresAt w :
  faults (calls w) = false ->
  faults (S (calls w)) = false ->
  has_cluster (store w) (clusters_id_seq (calls w)) = false ->
  let row := mkClusterRow (clusters_id_seq (calls w)) userID name (now w) expiresAt in
  exists w1,
    CreateCluster faults clusters_id_seq userID name expiresAt w
    = (Ok (scan_cluster row None), w1) /\
    store w1 = set_clusters (store w) (clusters (store w) ++ [row]) /\
    ClusterByID faults userID (cluster_id row) w1 = (Ok (Some (scan_cluster row None)), tick w1).
Proof.
  intros Hf1 Hf2 Hfresh row.
  exists (set_store (tick w) (set_clusters (store w) (clusters (store w) ++ [row]))).
  split; [|split].
  - unfold CreateCluster, bind, wrap, db_QueryRowReturning.
    rewrite (roundtrip_ok faults w Hf1). unfold insert_cluster.
    cbv zeta. cbn [cluster_id]. rewrite Hfresh. reflexivity.
  - reflexivity.
  - unfold ClusterByID.
    rewrite (db_QueryRow_ok faults _ (select_cluster_by_id userID (cluster_id row)) _ row []);
      [reflexivity | exact Hf2 |].
    unfold select_cluster_by_id. cbn [store set_store tick clusters set_clusters].
    rewrite filter_app. rewrite filter_none.
    + cbn. now rewrite !Z.eqb_refl.
    + intros x Hx. apply andb_false_iff. right. apply Z.eqb_neq. intros E.
      assert (has_cluster (store w) (clusters_id_seq (calls w)) = true).
      { apply existsb_exists. exists x. split; [exact Hx | now apply Z.eqb_eq]. }
      congruence.
Qed.

Lemma descending_insert_desc A (key : A -> Z) x l :
  descending (map key l) -> descending (map key (insert_desc key x l)).
Proof.
  induction l as [|y l IH]; cbn [insert_desc map descending].
  - intros _. split; [intros z [] | exact I].
  - intros [Hy Hl]. destruct (Z.ltb_spec (key x) (key y)) as [Hlt|Hge];
      cbn [map descending].
    + split; [|now apply IH].
      intros z Hz. apply in_map_iff in Hz. destruct Hz as [a [<- Ha]].
      apply In_insert_desc in Ha. destruct Ha as [-> | Ha]; [lia|].
      apply Hy. now apply in_map.
    + split; [|split; assumption].
      intros z [<- | Hz]; [lia|]. specialize (Hy z Hz). lia.
Qed.

Lemma descending_order_by_desc A (key : A -> Z) l :
  descending (map key (order_by_desc key l)).
Proof.
  induction l as [|x l IH]; cbn [order_by_desc fold_right].
  - exact I.
  - now apply descending_insert_desc.
Qed.

(** X7.  The lists [Clusters] and [GetEntryClusters] answer are in
    descending order of [CreatedAt], and list clusters of the user
    only. *)
Theorem Clusters_newest_first faults userID entryID w :
  match Clusters faults userID w with
  | (Ok l, _) => descending (map CreatedAt l) /\ forall c, In c l -> UserID c = userID
  | (Err _, w') => store w' = store w
  end /\
  match GetEntryClusters faults userID entryID w with
  | (Ok l, _) => descending (map CreatedAt l) /\ forall c, In c l -> UserID c = userID
  | (Err _, w') => store w' = store w
  end.
Proof.
  split.
  - unfold Clusters, wrap, db_Query, bind, roundtrip.
    destruct (faults (calls w)); [reflexivity|]. split.
    + unfold select_clusters. rewrite map_map. cbn [CreatedAt scan_cluster].
      apply descending_order_by_desc.
    + intros c Hc. apply In_select_clusters in Hc.
      destruct Hc as [c0 [_ [Hu [_ ->]]]]. exact Hu.
  - unfold GetEntryClusters, wrap, db_Query, bind, roundtrip.
    destruct (faults (calls w)); [reflexivity|]. split.
    + unfold select_entry_clusters. rewrite map_map. cbn [CreatedAt scan_cluster].
      apply descending_order_by_desc.
    + intros c Hc. apply In_select_entry_clusters in Hc.
      destruct Hc as [c0 [_ [Hu [_ [_ ->]]]]]. exact Hu.
Qed.

(* ================================================================== *)
(** ** The tag store: lookups, creation and validation *)
(* ================================================================== *)

Lemma filter_first A (p : A -> bool) l x rest :
  filter p l = x :: rest -> In x l /\ p x = true.
Proof.
  intros H. assert (Hin : In x (filter p l)) by (rewrite H; now left).
  now apply filter_In in Hin.
Qed.

Lemma filter_nil_none A (p : A -> bool) l :
  filter p l = [] -> existsb p l = false.
Proof.
  intros H. apply existsb_none. intros x Hx.
  destruct (p x) eqn:E; [|reflexivity].
  assert (Hin : In x (filter p l)) by (apply filter_In; auto).
  rewrite H in Hin. contradiction.
Qed.


Lemma TagByID_ok faults userID tagID w :
  faults (calls w) = false ->
  TagByID faults userID tagID w
  = (Ok (hd_error (select_tag_by_id userID tagID (now w) (store w))), tick w).
Proof.
  intros Hf. unfold TagByID, db_QueryRow, bind. rewrite (roundtrip_ok faults w Hf).
  cbn [now store tick]. destruct (select_tag_by_id userID tagID (now w) (store w));
    reflexivity.
Qed.

Lemma TagByName_ok faults lower userID name w :
  faults (calls w) = false ->
  TagByName faults lower userID name w
  = (Ok (hd_error (select_tag_by_name lower userID name (now w) (store w))), tick w).
Proof.
  intros Hf. unfold TagByName, db_QueryRow, bind. rewrite (roundtrip_ok faults w Hf).
  cbn [now store tick]. destruct (select_tag_by_name lower userID name (now w) (store w));
    reflexivity.
Qed.

Lemma insert_tag_inv lower seq userID name k t d d' row :
  insert_tag lower seq userID name k t d = Some (d', row) ->
  row = mkTag (seq k) userID name t /\
  d' = set_tags d (tags d ++ [row]) /\
  has_tag d (tag_id row) = false /\
  (forall o, In o (tags d) -> tag_user_id o = userID ->
             lower (tag_name o) <> lower name).
Proof.
  unfold insert_tag. cbv zeta.
  destruct (has_tag d _ || name_taken lower (tags d) _) eqn:E; [discriminate|].
  intros H. inversion H; subst. apply orb_false_iff in E. destruct E as [E1 E2].
  repeat split; auto. intros o Ho Hu Hl.
  assert (name_taken lower (tags d) (mkTag (seq k) userID name t) = true).
  { apply existsb_exists. exists o. split; [exact Ho|]. cbn [tag_id tag_user_id tag_name].
    apply andb_true_iff. split; [apply andb_true_iff; split|].
    - apply negb_true_iff, Z.eqb_neq. intros Eid.
      assert (has_tag d (seq k) = true).
      { apply existsb_exists. exists o. split; [exact Ho | now apply Z.eqb_eq]. }
      cbn [tag_id] in E1. congruence.
    - now apply Z.eqb_eq.
    - now apply String.eqb_eq. }
  congruence.
Qed.

Lemma CreateTag_run faults lower seq userID request w :
  match CreateTag faults lower seq userID request w with
  | (Err _, w') => store w' = store w
  | (Ok t, w') =>
      calls w' = S (calls w) /\ now w' = now w /\
      t = mkTag (seq (calls w)) userID (TagCreationRequest.Name request) (now w) /\
      store w' = set_tags (store w) (tags (store w) ++ [t]) /\
      has_tag (store w) (tag_id t) = false /\
      (forall o, In o (tags (store w)) -> tag_user_id o = userID ->
                 lower (tag_name o) <> lower (TagCreationRequest.Name request))
  end.
Proof.
  unfold CreateTag, wrap, db_QueryRowReturning, roundtrip.
  destruct (faults (calls w)); [reflexivity|].
  destruct (insert_tag lower seq userID (TagCreationRequest.Name request)
              (calls w) (now w) (store w)) as [[d' row]|] eqn:I; [|reflexivity].
  apply insert_tag_inv in I. destruct I as [Hrow [Hd [Hfresh Hname]]].
  repeat split; auto.
Qed.

(** X9.  [CreateTag] that answers an error leaves the tables as they were.
    When it answers a tag, that tag has the id the sequence handed out, the
    caller as owner, the requested name and the clock as creation time; it
    is appended to [tags] and nothing else changes; no stored tag had that
    id, and the caller had no tag with that name up to case.  On the next
    round trip [TagByID] with its id, and [TagByName] with any name equal to
    its name up to case, return it. *)
Theorem CreateTag_outcome faults lower seq userID request w :
  match CreateTag faults lower seq userID request w with
  | (Err _, w') => store w' = store w
  | (Ok t, w') =>
      t = mkTag (seq (calls w)) userID (TagCreationRequest.Name request) (now w) /\
      store w' = set_tags (store w) (tags (store w) ++ [t]) /\
      has_tag (store w) (tag_id t) = false /\
      (forall o, In o (tags (store w)) -> tag_user_id o = userID ->
                 lower (tag_name o) <> lower (TagCreationRequest.Name request)) /\
      (faults (calls w') = false ->
       TagByID faults userID (tag_id t) w' = (Ok (Some t), tick w') /\
       forall name', lower name' = lower (TagCreationRequest.Name request) ->
                     TagByName faults lower userID name' w' = (Ok (Some t), tick w'))
  end.
Proof.
  pose proof (CreateTag_run faults lower seq userID request w) as R.
  destruct (CreateTag faults lower seq userID request w) as [[row|e] w1]; [|exact R].
  destruct R as [_ [_ [Hrow [Hd [Hfresh Hname]]]]].
  split; [exact Hrow|]. split; [exact Hd|]. split; [exact Hfresh|].
  split; [exact Hname|]. intros Hf.
  assert (Hu : tag_user_id row = userID) by (subst row; reflexivity).
  assert (Hn : tag_name row = TagCreationRequest.Name request) by (subst row; reflexivity).
  split.
  - rewrite TagByID_ok by exact Hf. f_equal. f_equal.
    unfold select_tag_by_id. rewrite Hd.
    cbn [tags set_tags]. rewrite filter_app, filter_none.
    + cbn. now rewrite Hu, !Z.eqb_refl.
    + intros x Hx. apply andb_false_iff. right. apply Z.eqb_neq. intros E.
      assert (has_tag (store w) (tag_id row) = true).
      { apply existsb_exists. exists x. split; [exact Hx | now apply Z.eqb_eq]. }
      congruence.
  - intros name' Hl. rewrite TagByName_ok by exact Hf. f_equal. f_equal.
    unfold select_tag_by_name. rewrite Hd.
    cbn [tags set_tags]. rewrite filter_app, filter_none.
    + cbn. rewrite Hu, Hn, Hl, Z.eqb_refl, String.eqb_refl. reflexivity.
    + intros x Hx. destruct (Z.eqb_spec (tag_user_id x) userID) as [E|E]; [|reflexivity].
      cbn. apply String.eqb_neq. rewrite Hl. now apply Hname.
Qed.

(** X10.  [GetOrCreateTag] is idempotent up to case: with a driver that
    does not fail, once it has answered a tag for a name, asking again with
    any name equal up to case answers the same tag after one round trip and
    writes nothing. *)
Theorem GetOrCreateTag_idempotent faults lower seq userID name name' w t w1 :
  (forall k, faults k = false) ->
  GetOrCreateTag faults lower seq userID name w = (Ok t, w1) ->
  lower name' = lower name ->
  GetOrCreateTag faults lower seq userID name' w1 = (Ok t, tick w1).
Proof.
  intros Hf H Hl. unfold GetOrCreateTag, bind in *.
  assert (Hsel : forall d, select_tag_by_name lower userID name' (now w1) d
                           = select_tag_by_name lower userID name (now w) d).
  { intros d. unfold select_tag_by_name. now rewrite Hl. }
  rewrite (TagByName_ok faults lower userID name w (Hf _)) in H.
  assert (Hhd : hd_error (select_tag_by_name lower userID name (now w) (store w1)) = Some t).
  { destruct (select_tag_by_name lower userID name (now w) (store w)) as [|t0 rest] eqn:F;
      cbn [hd_error] in H.
    - pose proof (CreateTag_run faults lower seq userID
                    (TagCreationRequest.mk name) (tick w)) as C.
      rewrite H in C. destruct C as [_ [_ [Ht [Hd _]]]].
      assert (Hu : tag_user_id t = userID) by (rewrite Ht; reflexivity).
      assert (Hn : tag_name t = name) by (rewrite Ht; reflexivity).
      rewrite Hd. cbn [store tick]. unfold select_tag_by_name in *.
      cbn [tags set_tags]. rewrite filter_app, F. cbn [app filter].
      rewrite Hu, Hn, Z.eqb_refl, String.eqb_refl. reflexivity.
    - inversion H; subst. cbn [store tick]. rewrite F. reflexivity. }
  rewrite (TagByName_ok faults lower userID name' w1 (Hf _)), Hsel, Hhd.
  reflexivity.
Qed.

Lemma scan_bool_exists faults A (p : A -> bool) (tbl : DB -> list A) w :
  scan_bool faults (fun _ d => firstn 1 (map (fun _ => true) (filter p (tbl d)))) w
  = (negb (faults (calls w)) && existsb p (tbl (store w)), tick w).
Proof.
  unfold scan_bool, db_QueryRow, bind, roundtrip.
  destruct (faults (calls w)); [reflexivity|].
  cbn [now store tick negb andb].
  destruct (filter p (tbl (store w))) as [|x rest] eqn:F.
  - now rewrite (filter_nil_none _ p _ F).
  - apply filter_first in F. destruct F as [Hin Hp].
    assert (E : existsb p (tbl (store w)) = true) by (apply existsb_exists; eauto).
    now rewrite E.
Qed.

(** X11.  [TagIDExists], [TagNameExists] and [AnotherTagExists] answer
    [true] exactly when the round trip went through and the caller has such
    a tag: a failed query is answered [false], as if the tag were absent.
    None of them writes. *)
Theorem exists_checks_read_failure_as_absence faults lower userID tagID name w :
  (fst (TagIDExists faults userID tagID w) = true <->
   faults (calls w) = false /\
   exists t, In t (tags (store w)) /\ tag_user_id t = userID /\ tag_id t = tagID) /\
  (fst (TagNameExists faults lower userID name w) = true <->
   faults (calls w) = false /\
   exists t, In t (tags (store w)) /\ tag_user_id t = userID /\
             lower (tag_name t) = lower name) /\
  (fst (AnotherTagExists faults lower userID tagID name w) = true <->
   faults (calls w) = false /\
   exists t, In t (tags (store w)) /\ tag_user_id t = userID /\ tag_id t <> tagID /\
             lower (tag_name t) = lower name) /\
  snd (TagIDExists faults userID tagID w) = tick w /\
  snd (TagNameExists faults lower userID name w) = tick w /\
  snd (AnotherTagExists faults lower userID tagID name w) = tick w.
Proof.
  unfold TagIDExists, TagNameExists, AnotherTagExists.
  rewrite !(scan_bool_exists faults TagRow _ tags). cbn [fst snd].
  rewrite !andb_true_iff, !negb_true_iff, !existsb_exists.
  repeat split; try tauto.
  - destruct H as [_ [t [Ht Hp]]]. apply andb_true_iff in Hp. destruct Hp as [H1 H2].
    apply Z.eqb_eq in H1, H2. exists t. auto.
  - destruct H as [_ [t [Ht [H1 H2]]]]. exists t. split; [exact Ht|].
    apply andb_true_iff. split; now apply Z.eqb_eq.
  - destruct H as [_ [t [Ht Hp]]]. apply andb_true_iff in Hp. destruct Hp as [H1 H2].
    apply Z.eqb_eq in H1. apply String.eqb_eq in H2. exists t. auto.
  - destruct H as [_ [t [Ht [H1 H2]]]]. exists t. split; [exact Ht|].
    apply andb_true_iff. split; [now apply Z.eqb_eq | now apply String.eqb_eq].
  - destruct H as [_ [t [Ht Hp]]]. apply andb_true_iff in Hp. destruct Hp as [Hp H3].
    apply andb_true_iff in Hp. destruct Hp as [H1 H2].
    apply Z.eqb_eq in H1. apply negb_true_iff, Z.eqb_neq in H2.
    apply String.eqb_eq in H3. exists t. auto.
  - destruct H as [_ [t [Ht [H1 [H2 H3]]]]]. exists t. split; [exact Ht|].
    apply andb_true_iff. split; [apply andb_true_iff; split|].
    + now apply Z.eqb_eq.
    + now apply negb_true_iff, Z.eqb_neq.
    + now apply String.eqb_eq.
Qed.

Lemma length_le_255 n : (255 <? n)%nat = false <-> (n <= 255)%nat.
Proof. rewrite Nat.ltb_ge. reflexivity. Qed.

(** X12.  [ValidateTagCreation] never writes.  It answers "name required"
    for the empty name and "name too long" for a name of more than 255
    bytes, both without a round trip.  It answers [nil] exactly when the
    name is neither and either the caller has no tag with that name up to
    case or the lookup failed: a failed lookup lets a duplicate through. *)
Theorem ValidateTagCreation_outcome faults lower userID request w :
  let name := TagCreationRequest.Name request in
  let r := ValidateTagCreation faults lower userID request w in
  store (snd r) = store w /\
  (name = "" -> r = (Some "error.tag_name_required", w)) /\
  (name <> "" -> (255 < String.length name)%nat ->
   r = (Some "error.tag_name_too_long", w)) /\
  (fst r = None <->
   name <> "" /\ (String.length name <= 255)%nat /\
   (faults (calls w) = true \/
    forall t, In t (tags (store w)) -> tag_user_id t = userID ->
              lower (tag_name t) <> lower name)).
Proof.
  intros name r. subst r. unfold ValidateTagCreation. fold name.
  destruct (String.eqb_spec name "") as [E|E].
  { cbn. repeat split; try tauto; try discriminate; intros [H _]; contradiction. }
  destruct (255 <? String.length name)%nat eqn:L.
  { apply Nat.ltb_lt in L. cbn.
    repeat split; try tauto; try discriminate; try (intros; lia);
      intros [_ [H _]]; lia. }
  apply length_le_255 in L.
  unfold TagNameExists. rewrite (scan_bool_exists faults TagRow _ tags).
  split; [|split; [|split]].
  - destruct (negb (faults (calls w)) && _); reflexivity.
  - intros H. contradiction.
  - intros _ H. lia.
  - destruct (faults (calls w)) eqn:Hf; cbn [negb andb fst].
    + split; [intros _; repeat split; auto | reflexivity].
    + destruct (existsb _ (tags (store w))) eqn:Ex; cbn [fst].
      * split; [discriminate|]. intros [_ [_ [H | H]]]; [discriminate|].
        apply existsb_exists in Ex. destruct Ex as [t [Ht Hp]].
        apply andb_true_iff in Hp. destruct Hp as [H1 H2].
        apply Z.eqb_eq in H1. apply String.eqb_eq in H2.
        exfalso. now apply (H t Ht H1).
      * split; [|reflexivity]. intros _. split; [exact E|]. split; [exact L|].
        right. intros t Ht Hu Hl.
        assert (existsb (fun t => (tag_user_id t =? userID)
                                  && String.eqb (lower (tag_name t)) (lower name))
                        (tags (store w)) = true).
        { apply existsb_exists. exists t. split; [exact Ht|].
          apply andb_true_iff. split; [now apply Z.eqb_eq | now apply String.eqb_eq]. }
        congruence.
Qed.

(** X13.  [ValidateTagModification] never writes; a request without a name
    is accepted without a round trip.  With a name it answers [nil] exactly
    when the name is not empty, has at most 255 bytes, and either the lookup
    failed or every tag of the caller with that name up to case is the tag
    being modified: a tag may take a case variant of its own name. *)
Theorem ValidateTagModification_outcome faults lower userID tagID request w :
  let r := ValidateTagModification faults lower userID tagID request w in
  store (snd r) = store w /\
  (TagModificationRequest.Name request = None -> r = (None, w)) /\
  (forall name, TagModificationRequest.Name request = Some name ->
     (fst r = None <->
      name <> "" /\ (String.length name <= 255)%nat /\
      (faults (calls w) = true \/
       forall t, In t (tags (store w)) -> tag_user_id t = userID ->
                 lower (tag_name t) = lower name -> tag_id t = tagID))).
Proof.
  intros r. subst r. unfold ValidateTagModification.
  destruct (TagModificationRequest.Name request) as [name|].
  2:{ cbn. split; [reflexivity|]. split; [reflexivity|]. intros n H. discriminate. }
  destruct (String.eqb_spec name "") as [E|E].
  { cbn. split; [reflexivity|]. split; [discriminate|].
    intros n H. inversion H; subst n. split; [discriminate|]. intros [H1 _]. contradiction. }
  destruct (255 <? String.length name)%nat eqn:L.
  { apply Nat.ltb_lt in L. cbn. split; [reflexivity|]. split; [discriminate|].
    intros n H. inversion H; subst n. split; [discriminate|]. intros [_ [H1 _]]. lia. }
  apply length_le_255 in L.
  unfold AnotherTagExists. rewrite (scan_bool_exists faults TagRow _ tags).
  split; [|split].
  - destruct (negb (faults (calls w)) && _); reflexivity.
  - discriminate.
  - intros n H. inversion H; subst n.
    destruct (faults (calls w)) eqn:Hf; cbn [negb andb fst].
    + split; [intros _; repeat split; auto | reflexivity].
    + destruct (existsb _ (tags (store w))) eqn:Ex; cbn [fst].
      * split; [discriminate|]. intros [_ [_ [H0 | H0]]]; [discriminate|].
        apply existsb_exists in Ex. destruct Ex as [t [Ht Hp]].
        apply andb_true_iff in Hp. destruct Hp as [Hp H3].
        apply andb_true_iff in Hp. destruct Hp as [H1 H2].
        apply Z.eqb_eq in H1. apply negb_true_iff, Z.eqb_neq in H2.
        apply String.eqb_eq in H3. exfalso. apply H2. now apply H0.
      * split; [|reflexivity]. intros _. split; [exact E|]. split; [exact L|].
        right. intros t Ht Hu Hl.
        destruct (Z.eq_dec (tag_id t) tagID) as [Eid|Eid]; [exact Eid|].
        assert (existsb (fun t => (tag_user_id t =? userID)
                                  && negb (tag_id t =? tagID)
                                  && String.eqb (lower (tag_name t)) (lower name))
                        (tags (store w)) = true).
        { apply existsb_exists. exists t. split; [exact Ht|].
          apply andb_true_iff. split; [apply andb_true_iff; split|].
          - now apply Z.eqb_eq.
          - now apply negb_true_iff, Z.eqb_neq.
          - now apply String.eqb_eq. }
        congruence.
Qed.

Lemma validate_names_ok names :
  validate_names names = None <->
  forall n, In n names -> n <> "" /\ (String.length n <= 255)%nat.
Proof.
  induction names as [|x rest IH]; cbn [validate_names].
  - split; [intros _ n [] | reflexivity].
  - destruct (String.eqb_spec x "") as [E|E].
    + split; [discriminate|]. intros H. destruct (H x (or_introl eq_refl)). contradiction.
    + destruct (255 <? String.length x)%nat eqn:L.
      * apply Nat.ltb_lt in L. split; [discriminate|]. intros H.
        destruct (H x (or_introl eq_refl)). lia.
      * apply length_le_255 in L. rewrite IH. split.
        -- intros H n [<- | Hn]; auto.
        -- intros H n Hn. apply H. now right.
Qed.

(** X14.  [ValidateEntryTagByNameRequest] accepts a request exactly when it
    names at least one tag, every name is non-empty and at most 255 bytes
    long, and the source is empty, [manual] or [auto];
    [ValidateEntryTagRequest] accepts exactly the requests with at least one
    tag id. *)
Theorem entry_tag_requests_accepted request idRequest :
  (ValidateEntryTagByNameRequest request = None <->
   EntryTagByNameRequest.TagNames request <> [] /\
   (forall n, In n (EntryTagByNameRequest.TagNames request) ->
              n <> "" /\ (String.length n <= 255)%nat) /\
   (EntryTagByNameRequest.Source request = "" \/
    EntryTagByNameRequest.Source request = TagSourceManual \/
    EntryTagByNameRequest.Source request = TagSourceAuto)) /\
  (ValidateEntryTagRequest idRequest = None <-> EntryTagRequest.TagIDs idRequest <> []).
Proof.
  split.
  - unfold ValidateEntryTagByNameRequest.
    destruct (EntryTagByNameRequest.TagNames request) as [|n0 rest] eqn:N.
    { cbn. split; [discriminate|]. intros [H _]. now contradiction H. }
    cbn [List.length Nat.eqb].
    destruct (validate_names (n0 :: rest)) as [e|] eqn:V.
    + split; [discriminate|]. intros [_ [H _]].
      pose proof (proj2 (validate_names_ok (n0 :: rest)) H) as H'. congruence.
    + pose proof (proj1 (validate_names_ok (n0 :: rest)) V) as V'. clear V.
      rename V' into V.
      destruct (String.eqb_spec (EntryTagByNameRequest.Source request) "") as [E1|E1];
        cbn [negb andb].
      { split; [|reflexivity]. intros _. repeat split; auto; try discriminate; apply V; auto. }
      destruct (String.eqb_spec (EntryTagByNameRequest.Source request) TagSourceManual)
        as [E2|E2]; cbn [negb andb].
      { split; [|reflexivity]. intros _. repeat split; auto; try discriminate; apply V; auto. }
      destruct (String.eqb_spec (EntryTagByNameRequest.Source request) TagSourceAuto)
        as [E3|E3]; cbn [negb andb].
      { split; [|reflexivity]. intros _. repeat split; auto; try discriminate; apply V; auto. }
      split; [discriminate|]. intros [_ [_ [H | [H | H]]]]; contradiction.
  - unfold ValidateEntryTagRequest.
    destruct (EntryTagRequest.TagIDs idRequest); cbn.
    + split; [discriminate | intros H; now contradiction H].
    + split; [discriminate | reflexivity].
Qed.

(* ================================================================== *)
(** ** Listings of tags and of entry tags *)
(* ================================================================== *)

Lemma In_insert_by A (ahead : A -> A -> bool) x y l :
  In y (insert_by ahead x l) <-> y = x \/ In y l.
Proof.
  induction l as [|z l IH]; cbn [insert_by].
  - cbn. intuition.
  - destruct (ahead z x); cbn [In].
    + rewrite IH. intuition.
    + intuition.
Qed.

Lemma In_order_by A (ahead : A -> A -> bool) y l :
  In y (order_by ahead l) <-> In y l.
Proof.
  induction l as [|x l IH]; cbn [order_by fold_right].
  - tauto.
  - rewrite In_insert_by. fold (order_by ahead l). rewrite IH. cbn. intuition.
Qed.

Lemma length_insert_by A (ahead : A -> A -> bool) x l :
  List.length (insert_by ahead x l) = S (List.length l).
Proof.
  induction l as [|z l IH]; cbn [insert_by]; [reflexivity|].
  destruct (ahead z x); cbn [List.length]; [now rewrite IH | reflexivity].
Qed.

Lemma length_insert_desc A (key : A -> Z) x l :
  List.length (insert_desc key x l) = S (List.length l).
Proof.
  induction l as [|z l IH]; cbn [insert_desc]; [reflexivity|].
  destruct (key x <? key z); cbn [List.length]; [now rewrite IH | reflexivity].
Qed.

Lemma length_order_by_desc A (key : A -> Z) l :
  List.length (order_by_desc key l) = List.length l.
Proof.
  induction l as [|x l IH]; cbn [order_by_desc fold_right List.length]; [reflexivity|].
  rewrite length_insert_desc. fold (order_by_desc key l). now rewrite IH.
Qed.

Lemma In_join_entry_tags p userID d x :
  In x (join_entry_tags p userID d) <->
  exists et t, In et (entry_tags d) /\ p et = true /\
               In t (tags d) /\ tag_id t = et_tag_id et /\ tag_user_id t = userID /\
               x = EntryTag.mk (et_entry_id et) (et_tag_id et) (et_source et)
                               (et_created_at et) (tag_name t).
Proof.
  unfold join_entry_tags. rewrite in_flat_map. split.
  - intros [et [Het Hx]]. apply filter_In in Het. destruct Het as [Het Hp].
    apply in_map_iff in Hx. destruct Hx as [t [<- Ht]].
    apply filter_In in Ht. destruct Ht as [Ht Hq].
    apply andb_true_iff in Hq. destruct Hq as [H1 H2]. apply Z.eqb_eq in H1, H2.
    exists et, t. auto 7.
  - intros [et [t [Het [Hp [Ht [H1 [H2 ->]]]]]]]. exists et. split.
    + apply filter_In. auto.
    + apply in_map_iff. exists t. split; [reflexivity|].
      apply filter_In. split; [exact Ht|].
      apply andb_true_iff. split; now apply Z.eqb_eq.
Qed.


(** X16.  [GetEntryTags] lists, with the tag's name, exactly the
    associations of the entry whose tag is a stored tag of the caller: a tag
    of another user is never listed.  [GetAutoTagsForEntry] lists exactly
    those of them whose source is [auto].  Neither writes. *)
Theorem entry_tag_listings faults name_lt userID entryID w :
  match GetEntryTags faults name_lt userID entryID w,
        GetAutoTagsForEntry faults name_lt userID entryID w with
  | (Ok l, w1), (Ok la, w2) =>
      store w1 = store w /\ store w2 = store w /\
      (forall x, In x l <->
         exists et t, In et (entry_tags (store w)) /\ et_entry_id et = entryID /\
                      In t (tags (store w)) /\ tag_id t = et_tag_id et /\
                      tag_user_id t = userID /\
                      x = EntryTag.mk (et_entry_id et) (et_tag_id et) (et_source et)
                                      (et_created_at et) (tag_name t)) /\
      (forall x, In x la <-> In x l /\ EntryTag.Source x = TagSourceAuto)
  | (Err _, w1), (Err _, w2) => store w1 = store w /\ store w2 = store w
  | _, _ => False
  end.
Proof.
  unfold GetEntryTags, GetAutoTagsForEntry, wrap, db_Query, bind, roundtrip.
  destruct (faults (calls w)); [split; reflexivity|].
  cbn [now store tick]. split; [reflexivity|]. split; [reflexivity|].
  unfold select_entry_tags, select_auto_tags. split.
  - intros x. rewrite In_order_by, In_join_entry_tags.
    split; intros [et [t [H1 [H2 H3]]]]; exists et, t;
      (split; [exact H1|]); (split; [|exact H3]).
    + now apply Z.eqb_eq.
    + now apply Z.eqb_eq.
  - intros x. rewrite !In_order_by, !In_join_entry_tags. split.
    + intros [et [t [H1 [H2 [H3 [H4 [H5 ->]]]]]]].
      apply andb_true_iff in H2. destruct H2 as [H2 Hs].
      apply String.eqb_eq in Hs. split; [|exact Hs].
      exists et, t. auto 7.
    + intros [[et [t [H1 [H2 [H3 [H4 [H5 ->]]]]]]] Hs]. cbn [EntryTag.Source] in Hs.
      exists et, t. repeat split; auto.
      apply andb_true_iff. split; [exact H2 | now apply String.eqb_eq].
Qed.

(* ================================================================== *)
(** ** Attaching and detaching tags *)
(* ================================================================== *)

Lemma nil_of_no_In A (l : list A) : (forall x, ~ In x l) -> l = [].
Proof.
  destruct l as [|x l]; [reflexivity|]. intros H. exfalso. apply (H x). now left.
Qed.

Lemma existsb_false_In A (p : A -> bool) l :
  existsb p l = false -> forall x, In x l -> p x = false.
Proof.
  intros H x Hx. destruct (p x) eqn:E; [|reflexivity].
  rewrite <- H. symmetry. apply existsb_exists. exists x. auto.
Qed.

(** [attached] writes a row for the pair, with the source asked for. *)
Lemma attached_has d e t s c :
  exists r, In r (entry_tags (attached d e t s c)) /\
            et_entry_id r = e /\ et_tag_id r = t /\ et_source r = s.
Proof.
  unfold attached. destruct (existsb (et_is e t) (entry_tags d)) eqn:Ex;
    cbn [entry_tags set_entry_tags].
  - apply existsb_exists in Ex. destruct Ex as [x [Hx Hk]].
    exists (set_source s e t x). split; [now apply in_map|].
    unfold set_source. rewrite Hk. cbn. apply et_is_iff in Hk. tauto.
  - exists (mkEntryTag e t s c). split; [|now cbn].
    apply in_app_iff. right. now left.
Qed.

(** A row with source [s] stays one when [attached] writes [s] elsewhere. *)
Lemma attached_keeps d e t t' s c :
  (exists r, In r (entry_tags d) /\
             et_entry_id r = e /\ et_tag_id r = t /\ et_source r = s) ->
  exists r, In r (entry_tags (attached d e t' s c)) /\
            et_entry_id r = e /\ et_tag_id r = t /\ et_source r = s.
Proof.
  intros [r [Hr [E1 [E2 E3]]]]. unfold attached.
  destruct (existsb (et_is e t') (entry_tags d)); cbn [entry_tags set_entry_tags].
  - exists (set_source s e t' r). split; [now apply in_map|].
    unfold set_source. destruct (et_is e t' r); cbn; auto.
  - exists r. split; [apply in_app_iff; now left | auto].
Qed.

(** [attached] adds or rewrites rows of its pair only. *)
Lemma attached_rows d e t s c r :
  In r (entry_tags (attached d e t s c)) ->
  In r (entry_tags d) \/ (et_entry_id r = e /\ et_tag_id r = t).
Proof.
  unfold attached. destruct (existsb (et_is e t) (entry_tags d));
    cbn [entry_tags set_entry_tags].
  - intros H. apply in_map_iff in H. destruct H as [x [<- Hx]].
    unfold set_source. destruct (et_is e t x) eqn:Hk.
    + right. cbn. apply et_is_iff in Hk. exact Hk.
    + now left.
  - intros H. apply in_app_iff in H. destruct H as [H | [<- | []]].
    + now left.
    + right. now cbn.
Qed.

Lemma AddTagToEntry_run faults userID entryID tagID source w r w' :
  AddTagToEntry faults userID entryID tagID source w = (r, w') ->
  match r with
  | Ok _ =>
      (exists y, In y (entries (store w)) /\ entry_id y = entryID /\ entry_user_id y = userID) /\
      (exists x, In x (tags (store w)) /\ tag_id x = tagID /\ tag_user_id x = userID) /\
      store w' = attached (store w) entryID tagID
                   (if String.eqb source "" then TagSourceManual else source) (now w)
  | Err _ => store w' = store w
  end.
Proof.
  unfold AddTagToEntry, bind. intros H.
  destruct (wrap _ _ (db_QueryRow faults (select_entry_of entryID userID)) w)
    as [[b1|e1] w1] eqn:Q1.
  2:{ inversion H; subst. apply wrap_run in Q1. destruct Q1 as [e Q1].
      apply db_QueryRow_run in Q1. now destruct Q1 as [-> _]. }
  apply wrap_run, db_QueryRow_run in Q1. destruct Q1 as [S1 [N1 Q1]].
  apply In_select_entry_of in Q1.
  destruct (wrap _ _ (db_QueryRow faults (select_tag_of tagID userID)) w1)
    as [[b2|e2] w2] eqn:Q2.
  2:{ inversion H; subst. apply wrap_run in Q2. destruct Q2 as [e Q2].
      apply db_QueryRow_run in Q2. destruct Q2 as [-> _]. exact S1. }
  apply wrap_run, db_QueryRow_run in Q2. destruct Q2 as [S2 [N2 Q2]].
  apply In_select_tag_of in Q2. rewrite S1 in Q2.
  destruct (wrap _ _ (db_Exec faults (upsert_entry_tag entryID tagID _)) w2)
    as [[n|e3] w3] eqn:X.
  - inversion H; subst. apply wrap_run, db_Exec_run in X. destruct X as [_ X].
    apply upsert_attached in X. rewrite X, S2, S1, N2, N1. auto.
  - inversion H; subst. apply wrap_run in X. destruct X as [e X].
    apply db_Exec_run in X. destruct X as [_ ->]. now rewrite S2, S1.
Qed.

(** X17.  [AddTagToEntry] writes only for an entry and a tag that are both
    the caller's: when it answers [nil] both were found and the tables are
    those of the upsert; when it answers an error, whichever step failed,
    the tables are as they were. *)
Theorem AddTagToEntry_guards_ownership faults userID entryID tagID source w :
  match AddTagToEntry faults userID entryID tagID source w with
  | (Ok _, w') =>
      (exists y, In y (entries (store w)) /\ entry_id y = entryID /\ entry_user_id y = userID) /\
      (exists x, In x (tags (store w)) /\ tag_id x = tagID /\ tag_user_id x = userID) /\
      store w' = attached (store w) entryID tagID
                   (if String.eqb source "" then TagSourceManual else source) (now w)
  | (Err _, w') => store w' = store w
  end.
Proof.
  destruct (AddTagToEntry faults userID entryID tagID source w) as [r w'] eqn:H.
  apply AddTagToEntry_run in H. destruct r; exact H.
Qed.

Lemma AddTagToEntry_foreign_tag faults userID entryID tagID source w :
  faults (calls w) = false ->
  faults (S (calls w)) = false ->
  In (mkEntry entryID userID) (entries (store w)) ->
  owned_by userID tagID (store w) = false ->
  exists e, AddTagToEntry faults userID entryID tagID source w = (Err e, tick (tick w)).
Proof.
  intros Hf1 Hf2 He Hno. unfold AddTagToEntry, bind.
  rewrite entry_check_ok by assumption.
  unfold wrap at 1. unfold db_QueryRow, bind, roundtrip.
  cbn [calls tick]. rewrite Hf2. cbn [now store tick].
  assert (E : select_tag_of tagID userID (now w) (store w) = []).
  { unfold select_tag_of. rewrite filter_none; [reflexivity|].
    intros x Hx. unfold owned_by in Hno.
    apply (existsb_false_In _ _ _ Hno x Hx). }
  rewrite E. eexists. reflexivity.
Qed.

Lemma AddTagsToEntry_partial faults userID entryID tagID after source :
  (forall k, faults k = false) ->
  let s := if String.eqb source "" then TagSourceManual else source in
  forall before w,
    In (mkEntry entryID userID) (entries (store w)) ->
    (forall t, In t before -> owned_by userID t (store w) = true) ->
    owned_by userID tagID (store w) = false ->
    exists e w',
      AddTagsToEntry faults userID entryID (before ++ tagID :: after) source w = (Err e, w') /\
      tags (store w') = tags (store w) /\ entries (store w') = entries (store w) /\
      (forall t, (In t before \/
                  exists r, In r (entry_tags (store w)) /\
                            et_entry_id r = entryID /\ et_tag_id r = t /\ et_source r = s) ->
                 exists r, In r (entry_tags (store w')) /\
                           et_entry_id r = entryID /\ et_tag_id r = t /\ et_source r = s) /\
      (forall r, In r (entry_tags (store w')) ->
                 In r (entry_tags (store w)) \/
                 (et_entry_id r = entryID /\ In (et_tag_id r) before)).
Proof.
  intros Hf s. induction before as [|t before IH]; intros w He Hown Hno.
  - cbn [app AddTagsToEntry]. unfold bind.
    destruct (AddTagToEntry_foreign_tag faults userID entryID tagID source w
                (Hf _) (Hf _) He Hno) as [e ->].
    exists e, (tick (tick w)). cbn [store tick].
    split; [reflexivity|]. split; [reflexivity|]. split; [reflexivity|]. split.
    + intros t [[] | H]; exact H.
    + intros r Hr. now left.
  - cbn [app AddTagsToEntry]. unfold bind.
    assert (Ht : owned_by userID t (store w) = true) by (apply Hown; now left).
    apply owned_by_iff in Ht. destruct Ht as [x [Hx [E1 E2]]].
    rewrite (AddTagToEntry_ok faults w userID entryID t source x
               (Hf _) (Hf _) (Hf _) He Hx E1 E2).
    fold s.
    set (w1 := set_store (tick (tick (tick w))) (attached (store w) entryID t s (now w))).
    assert (S1 : store w1 = attached (store w) entryID t s (now w)) by reflexivity.
    assert (T1 : tags (store w1) = tags (store w)) by (rewrite S1; reflexivity).
    assert (N1 : entries (store w1) = entries (store w)) by (rewrite S1; reflexivity).
    destruct (IH w1) as [e [w' [R [T' [N' [Hhas Hrows]]]]]].
    + now rewrite N1.
    + intros t0 Ht0. unfold owned_by. rewrite T1. apply Hown. now right.
    + unfold owned_by. rewrite T1. exact Hno.
    + exists e, w'. split; [exact R|].
      split; [congruence|]. split; [congruence|]. split.
      * intros t0 [[<- | Hin] | Hold].
        -- apply Hhas. right. rewrite S1. apply attached_has.
        -- apply Hhas. now left.
        -- apply Hhas. right. rewrite S1. now apply attached_keeps.
      * intros r Hr. apply Hrows in Hr. destruct Hr as [Hr | [E Hin]].
        -- rewrite S1 in Hr. apply attached_rows in Hr.
           destruct Hr as [Hr | [Ea Eb]]; [now left|]. right.
           split; [exact Ea | now left].
        -- right. split; [exact E | now right].
Qed.

(** X18.  [AddTagsToEntry] is not all-or-nothing.  With round trips that go
    through and an entry of the caller, a list whose first tag that is not
    the caller's comes after the tags [before] answers an error, and yet
    every tag of [before] is then attached to the entry with the source
    asked for; the tags are as they were and every association is an old
    one or one of the entry with a tag of [before]. *)
Theorem AddTagsToEntry_keeps_earlier_tags faults userID entryID before tagID after source w :
  (forall k, faults k = false) ->
  In (mkEntry entryID userID) (entries (store w)) ->
  (forall t, In t before -> owned_by userID t (store w) = true) ->
  owned_by userID tagID (store w) = false ->
  exists e w',
    AddTagsToEntry faults userID entryID (before ++ tagID :: after) source w = (Err e, w') /\
    tags (store w') = tags (store w) /\ entries (store w') = entries (store w) /\
    (forall t, In t before ->
               exists r, In r (entry_tags (store w')) /\
                         et_entry_id r = entryID /\ et_tag_id r = t /\
                         et_source r = if String.eqb source "" then TagSourceManual
                                       else source) /\
    (forall r, In r (entry_tags (store w')) ->
               In r (entry_tags (store w)) \/
               (et_entry_id r = entryID /\ In (et_tag_id r) before)).
Proof.
  intros Hf He Hown Hno.
  destruct (AddTagsToEntry_partial faults userID entryID tagID after source Hf
              before w He Hown Hno) as [e [w' [R [T [N [Hhas Hrows]]]]]].
  exists e, w'. split; [exact R|]. split; [exact T|]. split; [exact N|].
  split; [|exact Hrows].
  intros t Ht. apply Hhas. now left.
Qed.

Lemma GetEntryTags_none faults name_lt userID entryID w :
  faults (calls w) = false ->
  (forall r, In r (entry_tags (store w)) -> et_entry_id r <> entryID) ->
  GetEntryTags faults name_lt userID entryID w = (Ok [], tick w).
Proof.
  intros Hf Hnone. unfold GetEntryTags, wrap.
  rewrite (db_Query_ok faults _ _ w Hf). f_equal. f_equal.
  apply nil_of_no_In. intros x Hx. unfold select_entry_tags in Hx.
  apply In_order_by, In_join_entry_tags in Hx.
  destruct Hx as [et [t [Het [Hp _]]]]. apply Z.eqb_eq in Hp.
  exact (Hnone et Het Hp).
Qed.

(** X19.  [RemoveAllTagsFromEntry] answers [nil] only for an entry of the
    caller.  It then leaves the associations of every other entry, and no
    association of this one, so that [GetEntryTags] lists nothing for it;
    the other tables are as they were.  On an error nothing is written. *)
Theorem RemoveAllTagsFromEntry_outcome faults name_lt userID entryID w :
  match RemoveAllTagsFromEntry faults userID entryID w with
  | (Ok _, w') =>
      (exists y, In y (entries (store w)) /\ entry_id y = entryID /\ entry_user_id y = userID) /\
      entries (store w') = entries (store w) /\ tags (store w') = tags (store w) /\
      clusters (store w') = clusters (store w) /\
      cluster_entries (store w') = cluster_entries (store w) /\
      (forall r, In r (entry_tags (store w')) <->
                 In r (entry_tags (store w)) /\ et_entry_id r <> entryID) /\
      (faults (calls w') = false ->
       GetEntryTags faults name_lt userID entryID w' = (Ok [], tick w'))
  | (Err _, w') => store w' = store w
  end.
Proof.
  destruct (RemoveAllTagsFromEntry faults userID entryID w) as [r w'] eqn:H.
  unfold RemoveAllTagsFromEntry, bind in H.
  destruct (wrap _ _ (db_QueryRow faults (select_entry_of entryID userID)) w)
    as [[b1|e1] w1] eqn:Q1.
  2:{ inversion H; subst. apply wrap_run in Q1. destruct Q1 as [e Q1].
      apply db_QueryRow_run in Q1. now destruct Q1 as [-> _]. }
  apply wrap_run, db_QueryRow_run in Q1. destruct Q1 as [S1 [N1 Q1]].
  apply In_select_entry_of in Q1.
  destruct (wrap _ _ (db_Exec faults (delete_entry_tags_of entryID)) w1)
    as [[n|e3] w3] eqn:X.
  - inversion H; subst. apply wrap_run, db_Exec_run in X. destruct X as [_ X].
    unfold delete_entry_tags_of in X.
    assert (SD : store w' = set_entry_tags (store w)
                   (filter (fun r => negb (et_entry_id r =? entryID))
                           (entry_tags (store w)))) by (rewrite <- S1; congruence).
    assert (Hrows : forall r, In r (entry_tags (store w')) <->
                              In r (entry_tags (store w)) /\ et_entry_id r <> entryID).
    { intros r. rewrite SD. cbn [entry_tags set_entry_tags].
      rewrite filter_In, negb_true_iff, Z.eqb_neq. reflexivity. }
    split; [exact Q1|].
    split; [now rewrite SD|]. split; [now rewrite SD|].
    split; [now rewrite SD|]. split; [now rewrite SD|].
    split; [exact Hrows|].
    intros Hf. apply GetEntryTags_none; [exact Hf|].
    intros r Hr. now apply Hrows in Hr.
  - inversion H; subst. apply wrap_run in X. destruct X as [e X].
    apply db_Exec_run in X. destruct X as [_ ->]. exact S1.
Qed.

Lemma ConfirmAutoTag_ok faults userID entryID tagID w :
  faults (calls w) = false ->
  faults (S (calls w)) = false ->
  In (mkEntry entryID userID) (entries (store w)) ->
  ConfirmAutoTag faults userID entryID tagID w
  = (Ok tt, set_store (tick (tick w))
              (set_entry_tags (store w)
                 (map (set_source TagSourceManual entryID tagID) (entry_tags (store w))))).
Proof.
  intros Hf1 Hf2 He. unfold ConfirmAutoTag, bind.
  rewrite entry_check_ok by assumption.
  unfold wrap.
  erewrite (db_Exec_ok faults _ (tick w)); [reflexivity | exact Hf2 |].
  cbn [now store tick]. unfold update_entry_tag_source. reflexivity.
Qed.

(** X20.  For an entry of the caller and round trips that go through,
    [ConfirmAutoTag] answers [nil], and afterwards [GetAutoTagsForEntry]
    no longer lists the tag while [GetEntryTags] lists it, if at all, as
    [manual].  The rows of the other pairs are as they were, and when the
    pair had no association nothing is created. *)
Theorem ConfirmAutoTag_then_listed_manual faults name_lt userID entryID tagID w :
  faults (calls w) = false ->
  faults (S (calls w)) = false ->
  faults (S (S (calls w))) = false ->
  In (mkEntry entryID userID) (entries (store w)) ->
  exists w1 la l,
    ConfirmAutoTag faults userID entryID tagID w = (Ok tt, w1) /\
    GetAutoTagsForEntry faults name_lt userID entryID w1 = (Ok la, tick w1) /\
    GetEntryTags faults name_lt userID entryID w1 = (Ok l, tick w1) /\
    (forall x, In x la -> EntryTag.TagID x <> tagID) /\
    (forall x, In x l -> EntryTag.TagID x = tagID -> EntryTag.Source x = TagSourceManual) /\
    (forall r, ~ (et_entry_id r = entryID /\ et_tag_id r = tagID) ->
               (In r (entry_tags (store w1)) <-> In r (entry_tags (store w)))) /\
    List.length (entry_tags (store w1)) = List.length (entry_tags (store w)).
Proof.
  intros Hf1 Hf2 Hf3 He.
  rewrite (ConfirmAutoTag_ok faults userID entryID tagID w Hf1 Hf2 He).
  set (rows := map (set_source TagSourceManual entryID tagID) (entry_tags (store w))).
  set (w1 := set_store (tick (tick w)) (set_entry_tags (store w) rows)).
  assert (C1 : faults (calls w1) = false) by exact Hf3.
  assert (R1 : entry_tags (store w1) = rows) by reflexivity.
  exists w1, (select_auto_tags name_lt entryID userID (now w1) (store w1)),
         (select_entry_tags name_lt entryID userID (now w1) (store w1)).
  split; [reflexivity|].
  split; [unfold GetAutoTagsForEntry, wrap; now rewrite (db_Query_ok faults _ _ w1 C1)|].
  split; [unfold GetEntryTags, wrap; now rewrite (db_Query_ok faults _ _ w1 C1)|].
  split; [|split; [|split]].
  - intros x Hx Ex. unfold select_auto_tags in Hx.
    apply In_order_by, In_join_entry_tags in Hx.
    destruct Hx as [et [t [Het [Hp [_ [_ [_ ->]]]]]]]. cbn [EntryTag.TagID] in Ex.
    apply andb_true_iff in Hp. destruct Hp as [Hp Hs].
    apply Z.eqb_eq in Hp. apply String.eqb_eq in Hs.
    rewrite R1 in Het.
    assert (Hk : et_is entryID tagID et = true) by (apply et_is_iff; auto).
    rewrite (In_set_source_hit _ _ _ _ _ Het Hk) in Hs. discriminate Hs.
  - intros x Hx Ex. unfold select_entry_tags in Hx.
    apply In_order_by, In_join_entry_tags in Hx.
    destruct Hx as [et [t [Het [Hp [_ [_ [_ ->]]]]]]].
    cbn [EntryTag.TagID] in Ex. cbn [EntryTag.Source].
    apply Z.eqb_eq in Hp. rewrite R1 in Het.
    assert (Hk : et_is entryID tagID et = true) by (apply et_is_iff; auto).
    exact (In_set_source_hit _ _ _ _ _ Het Hk).
  - intros r Hr. rewrite R1. apply In_set_source_other.
    now apply et_is_false_iff.
  - rewrite R1. apply length_map.
Qed.


(* ================================================================== *)
(** ** Entries of a tag and tag names of entries *)
(* ================================================================== *)

Lemma In_join_tagged_entries tagID userID d p :
  In p (join_tagged_entries tagID userID d) <->
  In (fst p) (entry_tags d) /\ et_tag_id (fst p) = tagID /\
  In (snd p) (entries d) /\ entry_id (snd p) = et_entry_id (fst p) /\
  entry_user_id (snd p) = userID.
Proof.
  unfold join_tagged_entries. rewrite in_flat_map. split.
  - intros [et [Het Hp]]. apply filter_In in Het. destruct Het as [Het Ht].
    apply Z.eqb_eq in Ht. apply in_map_iff in Hp. destruct Hp as [y [<- Hy]].
    apply filter_In in Hy. destruct Hy as [Hy Hq].
    apply andb_true_iff in Hq. destruct Hq as [H1 H2]. apply Z.eqb_eq in H1, H2.
    cbn [fst snd]. auto.
  - destruct p as [et y]. cbn [fst snd]. intros [Het [Ht [Hy [H1 H2]]]].
    exists et. split.
    + apply filter_In. split; [exact Het | now apply Z.eqb_eq].
    + apply in_map_iff. exists y. split; [reflexivity|].
      apply filter_In. split; [exact Hy|].
      apply andb_true_iff. split; now apply Z.eqb_eq.
Qed.

(** X22.  [CountEntriesWithTag] answers the length of the list
    [GetEntriesWithTag] answers, and that list holds exactly the entries of
    the caller that carry an association with the tag id; whose tag it is
    plays no part.  Both fail only when the round trip fails, and neither
    writes. *)
Theorem CountEntriesWithTag_counts_listing faults published_at userID tagID w :
  match CountEntriesWithTag faults userID tagID w,
        GetEntriesWithTag faults published_at userID tagID w with
  | (Ok n, w1), (Ok l, w2) =>
      n = Z.of_nat (List.length l) /\ store w1 = store w /\ store w2 = store w /\
      (forall e, In e l <->
         exists et y, In et (entry_tags (store w)) /\ et_tag_id et = tagID /\
                      et_entry_id et = e /\
                      In y (entries (store w)) /\ entry_id y = e /\
                      entry_user_id y = userID)
  | (Err _, w1), (Err _, w2) =>
      faults (calls w) = true /\ store w1 = store w /\ store w2 = store w
  | _, _ => False
  end.
Proof.
  unfold CountEntriesWithTag, GetEntriesWithTag, wrap, db_QueryRow, db_Query, bind, roundtrip.
  destruct (faults (calls w)); [repeat split|].
  cbn [now store tick]. unfold select_entries_with_tag.
  split; [now rewrite length_map, length_order_by_desc|].
  split; [reflexivity|]. split; [reflexivity|].
  intros e. rewrite in_map_iff. split.
  - intros [p [<- Hp]]. apply In_order_by_desc, In_join_tagged_entries in Hp.
    destruct Hp as [Het [Ht [Hy [H1 H2]]]]. exists (fst p), (snd p). auto 7.
  - intros [et [y [Het [Ht [He [Hy [H1 H2]]]]]]]. exists (et, y). split; [exact He|].
    apply In_order_by_desc, In_join_tagged_entries. cbn [fst snd].
    repeat split; auto. congruence.
Qed.

Lemma map_lookup_append k v e m :
  map_lookup e (map_append k v m)
  = if k =? e then map_lookup e m ++ [v] else map_lookup e m.
Proof.
  induction m as [|[k' vs] m IH]; cbn [map_append map_lookup].
  - destruct (k =? e); reflexivity.
  - destruct (k' =? k) eqn:E1; cbn [map_lookup].
    + apply Z.eqb_eq in E1. subst k'. destruct (k =? e); reflexivity.
    + destruct (k' =? e) eqn:E2; [|exact IH].
      apply Z.eqb_eq in E2. subst k'. rewrite Z.eqb_sym, E1. reflexivity.
Qed.

Lemma map_lookup_fold e name rows :
  forall m,
    In name (map_lookup e (fold_left (fun result row => map_append (fst row) (snd row) result)
                                     rows m))
    <-> In name (map_lookup e m) \/ In (e, name) rows.
Proof.
  induction rows as [|[k v] rows IH]; intros m; cbn [fold_left fst snd].
  - cbn. tauto.
  - rewrite IH, map_lookup_append. cbn [In].
    destruct (Z.eqb_spec k e) as [->|N].
    + rewrite in_app_iff. cbn [In]. split.
      * intros [[H | [<- | []]] | H]; auto.
      * intros [H | [H | H]]; auto. inversion H; subst. auto.
    + split.
      * intros [H | H]; auto.
      * intros [H | [H | H]]; auto. inversion H; subst. contradiction.
Qed.

(** X23.  [GetTagNamesForEntries] with no entry ids answers the empty map
    without a round trip.  Otherwise, when it answers a map, the names
    under an entry id are exactly the names of the caller's tags associated
    with that entry, for the ids asked for; an id that was not asked for, or
    an entry without such a tag, has no names.  It never writes. *)
Theorem GetTagNamesForEntries_outcome faults name_lt userID entryIDs w :
  match GetTagNamesForEntries faults name_lt userID entryIDs w with
  | (Ok m, w') =>
      store w' = store w /\
      (entryIDs = [] -> m = [] /\ w' = w) /\
      (forall e name, In name (map_lookup e m) <->
         In e entryIDs /\
         exists et t, In et (entry_tags (store w)) /\ et_entry_id et = e /\
                      In t (tags (store w)) /\ tag_id t = et_tag_id et /\
                      tag_user_id t = userID /\ tag_name t = name)
  | (Err _, w') => store w' = store w /\ entryIDs <> [] /\ faults (calls w) = true
  end.
Proof.
  unfold GetTagNamesForEntries. destruct entryIDs as [|i ids].
  - cbn [List.length Nat.eqb ret]. split; [reflexivity|]. split; [auto|].
    intros e name. cbn. split; [tauto | intros [[] _]].
  - cbn [List.length Nat.eqb]. unfold bind, wrap, db_Query, bind, roundtrip.
    destruct (faults (calls w)).
    + cbn [store tick]. split; [reflexivity|]. split; [discriminate | reflexivity].
    + cbn [now store tick ret]. split; [reflexivity|]. split; [discriminate|].
      intros e name. rewrite map_lookup_fold. cbn [map_lookup In].
      unfold select_tag_names. rewrite In_order_by, in_map_iff. split.
      * intros [[] | [x [E Hx]]]. apply In_join_entry_tags in Hx.
        destruct Hx as [et [t [Het [Hp [Ht [E1 [E2 ->]]]]]]].
        cbn [EntryTag.EntryID EntryTag.TagName] in E. inversion E; subst.
        apply existsb_exists in Hp. destruct Hp as [j [Hj Ej]]. apply Z.eqb_eq in Ej.
        split; [now rewrite Ej|]. exists et, t. auto 7.
      * intros [Hin [et [t [Het [He [Ht [E1 [E2 En]]]]]]]]. right.
        exists (EntryTag.mk (et_entry_id et) (et_tag_id et) (et_source et)
                            (et_created_at et) (tag_name t)).
        split; [cbn; congruence|].
        apply In_join_entry_tags. exists et, t. repeat split; auto.
        apply existsb_exists. exists e. split; [exact Hin | now apply Z.eqb_eq].
Qed.

(* ================================================================== *)
(** ** Attaching tags by name *)
(* ================================================================== *)

Lemma TagByName_run faults lower userID name w r w1 :
  TagByName faults lower userID name w = (r, w1) ->
  store w1 = store w /\ now w1 = now w /\ calls w1 = S (calls w) /\
  match r with
  | Ok (Some t) => In t (tags (store w)) /\ tag_user_id t = userID /\
                   lower (tag_name t) = lower name
  | Ok None => faults (calls w) = false /\
               forall o, In o (tags (store w)) -> tag_user_id o = userID ->
                         lower (tag_name o) <> lower name
  | Err _ => True
  end.
Proof.
  unfold TagByName, db_QueryRow, bind, roundtrip. destruct (faults (calls w)).
  - intros H; inversion H; subst. cbn. auto.
  - cbn [now store tick].
    destruct (select_tag_by_name lower userID name (now w) (store w)) as [|t rest] eqn:F;
      intros H; inversion H; subst; cbn [store now calls tick].
    + split; [reflexivity|]. split; [reflexivity|]. split; [reflexivity|].
      split; [reflexivity|]. intros o Ho Hu Hl.
      assert (Hin : In o (select_tag_by_name lower userID name (now w) (store w))).
      { unfold select_tag_by_name. apply filter_In. split; [exact Ho|].
        apply andb_true_iff. split; [now apply Z.eqb_eq | now apply String.eqb_eq]. }
      rewrite F in Hin. contradiction.
    + split; [reflexivity|]. split; [reflexivity|]. split; [reflexivity|].
      apply filter_first in F. destruct F as [Ht Hp].
      apply andb_true_iff in Hp. destruct Hp as [H1 H2].
      apply Z.eqb_eq in H1. apply String.eqb_eq in H2. auto.
Qed.

Lemma GetOrCreateTag_run faults lower seq userID name w r w' :
  GetOrCreateTag faults lower seq userID name w = (r, w') ->
  now w' = now w /\
  match r with
  | Ok t => tag_user_id t = userID /\ lower (tag_name t) = lower name /\
            In t (tags (store w')) /\
            (store w' = store w \/
             (calls w' = S (S (calls w)) /\
              t = mkTag (seq (S (calls w))) userID name (now w) /\
              store w' = set_tags (store w) (tags (store w) ++ [t])))
  | Err _ => store w' = store w
  end.
Proof.
  unfold GetOrCreateTag, bind. intros H.
  destruct (TagByName faults lower userID name w) as [[[t|]|e] w1] eqn:Q;
    apply TagByName_run in Q; destruct Q as [S1 [N1 [C1 Q]]].
  - inversion H; subst. destruct Q as [Ht [Hu Hl]].
    split; [exact N1|]. split; [exact Hu|]. split; [exact Hl|].
    split; [now rewrite S1 | now left].
  - pose proof (CreateTag_run faults lower seq userID (TagCreationRequest.mk name) w1) as C.
    rewrite H in C. destruct r as [t|e].
    + destruct C as [C2 [N2 [Ht [Hd _]]]]. cbn [TagCreationRequest.Name] in Ht.
      rewrite C1, N1 in Ht. rewrite S1 in Hd.
      split; [congruence|].
      split; [rewrite Ht; reflexivity|]. split; [rewrite Ht; reflexivity|].
      split.
      * rewrite Hd. cbn [tags set_tags]. apply in_app_iff. right. now left.
      * right. split; [congruence|]. split; [exact Ht | exact Hd].
    + split; [|congruence].
      unfold CreateTag, wrap, db_QueryRowReturning, roundtrip in H.
      destruct (faults (calls w1)); [inversion H; subst; exact N1|].
      destruct (insert_tag _ _ _ _ _ _ _) as [[d' row]|]; inversion H; subst; exact N1.
  - inversion H; subst. auto.
Qed.

(** X24.  [AddTagToEntryByName] runs outside any transaction.  When it
    answers [nil], the entry is the caller's and carries, with the source
    asked for, a tag of the caller that has the name up to case: a tag that
    was stored, or one created by this call and appended to [tags].  When
    it answers an error no association has changed, but a tag created by
    this call may have stayed. *)
Theorem AddTagToEntryByName_outcome faults lower seq userID entryID name source w :
  match AddTagToEntryByName faults lower seq userID entryID name source w with
  | (Ok _, w') =>
      entries (store w') = entries (store w) /\
      (exists y, In y (entries (store w)) /\ entry_id y = entryID /\ entry_user_id y = userID) /\
      exists t, In t (tags (store w')) /\ tag_user_id t = userID /\
                lower (tag_name t) = lower name /\
                (tags (store w') = tags (store w) \/
                 tags (store w') = tags (store w) ++ [t]) /\
                (exists r, In r (entry_tags (store w')) /\
                           et_entry_id r = entryID /\ et_tag_id r = tag_id t /\
                           et_source r = if String.eqb source "" then TagSourceManual
                                         else source) /\
                (forall r, In r (entry_tags (store w')) ->
                           In r (entry_tags (store w)) \/
                           (et_entry_id r = entryID /\ et_tag_id r = tag_id t))
  | (Err _, w') =>
      entries (store w') = entries (store w) /\
      entry_tags (store w') = entry_tags (store w) /\
      (tags (store w') = tags (store w) \/
       tags (store w') = tags (store w)
                         ++ [mkTag (seq (S (calls w))) userID name (now w)])
  end.
Proof.
  destruct (AddTagToEntryByName faults lower seq userID entryID name source w)
    as [r w'] eqn:H.
  unfold AddTagToEntryByName, bind in H.
  destruct (GetOrCreateTag faults lower seq userID name w) as [[t|e] w1] eqn:G;
    apply GetOrCreateTag_run in G; destruct G as [N1 G].
  2:{ inversion H; subst. rewrite G. auto. }
  destruct G as [Hu [Hl [Ht Hs]]].
  assert (E1 : entries (store w1) = entries (store w))
    by (destruct Hs as [-> | [_ [_ ->]]]; reflexivity).
  assert (R1 : entry_tags (store w1) = entry_tags (store w))
    by (destruct Hs as [-> | [_ [_ ->]]]; reflexivity).
  assert (T1 : tags (store w1) = tags (store w) \/ tags (store w1) = tags (store w) ++ [t])
    by (destruct Hs as [-> | [_ [_ ->]]]; [now left | now right]).
  apply AddTagToEntry_run in H. destruct r as [u|e].
  - destruct H as [Hy [_ Hd]].
    split; [rewrite Hd; cbn; exact E1|].
    split; [now rewrite <- E1|].
    exists t. split; [rewrite Hd; exact Ht|]. split; [exact Hu|]. split; [exact Hl|].
    split; [rewrite Hd; exact T1|]. split.
    + rewrite Hd. apply attached_has.
    + intros r Hr. rewrite Hd in Hr. apply attached_rows in Hr. now rewrite R1 in Hr.
  - rewrite H. split; [exact E1|]. split; [exact R1|].
    destruct Hs as [-> | [_ [Et ->]]]; [now left|]. right.
    cbn [tags set_tags]. now rewrite Et.
Qed.

Lemma CreateTag_ok faults lower seq userID request w :
  faults (calls w) = false ->
  has_tag (store w) (seq (calls w)) = false ->
  (forall o, In o (tags (store w)) -> tag_user_id o = userID ->
             lower (tag_name o) <> lower (TagCreationRequest.Name request)) ->
  let t := mkTag (seq (calls w)) userID (TagCreationRequest.Name request) (now w) in
  CreateTag faults lower seq userID request w
  = (Ok t, set_store (tick w) (set_tags (store w) (tags (store w) ++ [t]))).
Proof.
  intros Hf Hfresh Hname t.
  unfold CreateTag, wrap, db_QueryRowReturning. rewrite (roundtrip_ok faults w Hf).
  unfold insert_tag. cbv zeta. cbn [tag_id]. rewrite Hfresh.
  unfold name_taken. rewrite existsb_none; [reflexivity|].
  intros o Ho. cbn [tag_id tag_user_id tag_name].
  destruct (Z.eqb_spec (tag_user_id o) userID) as [E|E].
  - apply andb_false_iff. right. apply String.eqb_neq. now apply Hname.
  - apply andb_false_iff. left. apply andb_false_iff. now right.
Qed.

Lemma AddTagToEntry_foreign_entry faults userID entryID tagID source w :
  faults (calls w) = false ->
  (forall y, In y (entries (store w)) ->
             ~ (entry_id y = entryID /\ entry_user_id y = userID)) ->
  exists e, AddTagToEntry faults userID entryID tagID source w = (Err e, tick w).
Proof.
  intros Hf Hno. unfold AddTagToEntry, bind, wrap at 1.
  unfold db_QueryRow, bind. rewrite (roundtrip_ok faults w Hf). cbn [now store tick].
  assert (E : select_entry_of entryID userID (now w) (store w) = []).
  { unfold select_entry_of. rewrite filter_none; [reflexivity|].
    intros y Hy. destruct (Z.eqb_spec (entry_id y) entryID) as [E1|E1]; [|reflexivity].
    destruct (Z.eqb_spec (entry_user_id y) userID) as [E2|E2]; [|reflexivity].
    exfalso. exact (Hno y Hy (conj E1 E2)). }
  rewrite E. eexists. reflexivity.
Qed.

(** X25.  A tag that [AddTagToEntryByName] creates outlives the failure of
    the call.  With round trips that go through, a name the caller has no
    tag for, an id from the sequence that is free, and an entry that is not
    the caller's, the call answers an error and the tables are those before
    the call with the new tag appended. *)
Theorem AddTagToEntryByName_leaves_created_tag faults lower seq userID entryID name source w :
  faults (calls w) = false ->
  faults (S (calls w)) = false ->
  faults (S (S (calls w))) = false ->
  (forall o, In o (tags (store w)) -> tag_user_id o = userID ->
             lower (tag_name o) <> lower name) ->
  has_tag (store w) (seq (S (calls w))) = false ->
  (forall y, In y (entries (store w)) ->
             ~ (entry_id y = entryID /\ entry_user_id y = userID)) ->
  exists e w',
    AddTagToEntryByName faults lower seq userID entryID name source w = (Err e, w') /\
    store w' = set_tags (store w)
                 (tags (store w) ++ [mkTag (seq (S (calls w))) userID name (now w)]).
Proof.
  intros Hf1 Hf2 Hf3 Hname Hfresh Hentry.
  unfold AddTagToEntryByName, GetOrCreateTag, bind.
  rewrite (TagByName_ok faults lower userID name w Hf1).
  assert (F : select_tag_by_name lower userID name (now w) (store w) = []).
  { unfold select_tag_by_name. apply filter_none. intros o Ho.
    destruct (Z.eqb_spec (tag_user_id o) userID) as [E|E]; [|reflexivity].
    cbn. apply String.eqb_neq. now apply Hname. }
  rewrite F. cbn [hd_error].
  rewrite (CreateTag_ok faults lower seq userID (TagCreationRequest.mk name) (tick w)
             Hf2 Hfresh Hname).
  cbn [TagCreationRequest.Name calls now store tick].
  set (t := mkTag (seq (S (calls w))) userID name (now w)).
  set (w2 := set_store (tick (tick w)) (set_tags (store w) (tags (store w) ++ [t]))).
  destruct (AddTagToEntry_foreign_entry faults userID entryID (tag_id t) source w2 Hf3)
    as [e ->].
  - exact Hentry.
  - exists e, (tick w2). split; reflexivity.
Qed.

(* ================================================================== *)
(** ** I2 under every writer of associations but the merge *)
(* ================================================================== *)

Lemma I2_add_tag d t :
  I2 d = true -> I2 (set_tags d (tags d ++ [t])) = true.
Proof.
  unfold I2. cbn [entry_tags set_tags]. rewrite !forallb_forall.
  intros H r Hr. specialize (H r Hr). apply isolated_inv in H.
  destruct H as [x [y [Hx [Hy [E1 [E2 E3]]]]]].
  apply (isolated_owned _ _ x y); auto.
  cbn [tags set_tags]. apply in_app_iff. now left.
Qed.

Lemma GetOrCreateTag_keeps_I2 faults lower seq userID name w r w' :
  GetOrCreateTag faults lower seq userID name w = (r, w') ->
  I2 (store w) = true -> I2 (store w') = true.
Proof.
  intros H HI. apply GetOrCreateTag_run in H. destruct H as [_ H].
  destruct r as [t|e]; [|now rewrite H].
  destruct H as [_ [_ [_ [-> | [_ [_ ->]]]]]]; [exact HI | now apply I2_add_tag].
Qed.

Lemma AddTagToEntryByName_keeps_I2 faults lower seq userID entryID name source w r w' :
  AddTagToEntryByName faults lower seq userID entryID name source w = (r, w') ->
  I2 (store w) = true -> I2 (store w') = true.
Proof.
  unfold AddTagToEntryByName, bind. intros H HI.
  destruct (GetOrCreateTag faults lower seq userID name w) as [[t|e] w1] eqn:G.
  - apply (AddTagToEntry_keeps_I2 _ _ _ _ _ _ _ _ H).
    exact (GetOrCreateTag_keeps_I2 _ _ _ _ _ _ _ _ G HI).
  - inversion H; subst. exact (GetOrCreateTag_keeps_I2 _ _ _ _ _ _ _ _ G HI).
Qed.

Lemma AddTagsToEntryByName_keeps_I2 faults lower seq userID entryID source names :
  forall w r w',
    AddTagsToEntryByName faults lower seq userID entryID names source w = (r, w') ->
    I2 (store w) = true -> I2 (store w') = true.
Proof.
  induction names as [|n rest IH]; intros w r w' H HI; cbn [AddTagsToEntryByName] in H.
  - inversion H; subst. exact HI.
  - unfold bind in H.
    destruct (AddTagToEntryByName faults lower seq userID entryID n source w)
      as [[[]|e] w1] eqn:A.
    + apply (IH w1 r w' H). exact (AddTagToEntryByName_keeps_I2 _ _ _ _ _ _ _ _ _ _ A HI).
    + inversion H; subst. exact (AddTagToEntryByName_keeps_I2 _ _ _ _ _ _ _ _ _ _ A HI).
Qed.

Lemma delete_rows_keep_I2 faults fmt args stmt w r w' :
  (forall t d d' n, stmt t d = Some (d', n) ->
                    exists p, d' = set_entry_tags d (filter p (entry_tags d))) ->
  wrap fmt args (db_Exec faults stmt) w = (r, w') ->
  I2 (store w) = true -> I2 (store w') = true.
Proof.
  intros Hstmt X HI. destruct r as [n|e].
  - apply wrap_run, db_Exec_run in X. destruct X as [_ X].
    apply Hstmt in X. destruct X as [p ->]. now apply I2_filter.
  - apply wrap_run in X. destruct X as [e0 X]. apply db_Exec_run in X.
    destruct X as [_ ->]. exact HI.
Qed.

Lemma RemoveAllTagsFromEntry_keeps_I2 faults userID entryID w r w' :
  RemoveAllTagsFromEntry faults userID entryID w = (r, w') ->
  I2 (store w) = true -> I2 (store w') = true.
Proof.
  unfold RemoveAllTagsFromEntry, bind. intros H HI.
  destruct (wrap _ _ (db_QueryRow faults (select_entry_of entryID userID)) w)
    as [[b1|e1] w1] eqn:Q1.
  2:{ inversion H; subst. apply wrap_run in Q1. destruct Q1 as [e Q1].
      apply db_QueryRow_run in Q1. destruct Q1 as [-> _]. exact HI. }
  apply wrap_run, db_QueryRow_run in Q1. destruct Q1 as [S1 _].
  destruct (wrap _ _ (db_Exec faults (delete_entry_tags_of entryID)) w1)
    as [[n|e3] w3] eqn:X.
  - inversion H; subst. eapply delete_rows_keep_I2; [|exact X|now rewrite S1].
    intros t d d' k E. unfold delete_entry_tags_of in E. inversion E. eexists. reflexivity.
  - inversion H; subst. eapply delete_rows_keep_I2; [|exact X|now rewrite S1].
    intros t d d' k E. unfold delete_entry_tags_of in E. inversion E. eexists. reflexivity.
Qed.

Lemma RemoveAutoTagsFromEntry_keeps_I2 faults userID entryID w r w' :
  RemoveAutoTagsFromEntry faults userID entryID w = (r, w') ->
  I2 (store w) = true -> I2 (store w') = true.
Proof.
  unfold RemoveAutoTagsFromEntry, bind. intros H HI.
  destruct (wrap _ _ (db_Exec faults (delete_auto_entry_tags entryID userID)) w)
    as [[n|e3] w3] eqn:X; inversion H; subst;
    (eapply delete_rows_keep_I2; [|exact X|exact HI]);
    intros t d d' k E; unfold delete_auto_entry_tags in E; cbv zeta in E; inversion E;
    eexists; reflexivity.
Qed.

(** X26.  I2 is an invariant of every operation that writes associations
    one entry at a time: whatever the driver does and whatever they answer,
    [AddTagToEntry], [AddTagsToEntry], [AddTagToEntryByName],
    [AddTagsToEntryByName], [RemoveTagFromEntry], [RemoveAllTagsFromEntry],
    [ConfirmAutoTag] and [RemoveAutoTagsFromEntry] leave tables in which
    every association joins an entry and a stored tag of one owner, when
    they start from such tables. *)
Theorem association_writers_keep_I2 faults lower seq userID entryID tagID tagIDs
        name names source w :
  I2 (store w) = true ->
  I2 (store (snd (AddTagToEntry faults userID entryID tagID source w))) = true /\
  I2 (store (snd (AddTagsToEntry faults userID entryID tagIDs source w))) = true /\
  I2 (store (snd (AddTagToEntryByName faults lower seq userID entryID name source w))) = true /\
  I2 (store (snd (AddTagsToEntryByName faults lower seq userID entryID names source w))) = true /\
  I2 (store (snd (RemoveTagFromEntry faults userID entryID tagID w))) = true /\
  I2 (store (snd (RemoveAllTagsFromEntry faults userID entryID w))) = true /\
  I2 (store (snd (ConfirmAutoTag faults userID entryID tagID w))) = true /\
  I2 (store (snd (RemoveAutoTagsFromEntry faults userID entryID w))) = true.
Proof.
  intros HI.
  split; [|split; [|split; [|split; [|split; [|split; [|split]]]]]].
  - destruct (AddTagToEntry faults userID entryID tagID source w) as [r w'] eqn:H.
    exact (AddTagToEntry_keeps_I2 _ _ _ _ _ _ _ _ H HI).
  - destruct (AddTagsToEntry faults userID entryID tagIDs source w) as [r w'] eqn:H.
    exact (AddTagsToEntry_keeps_I2 _ _ _ _ _ _ _ _ H HI).
  - destruct (AddTagToEntryByName faults lower seq userID entryID name source w)
      as [r w'] eqn:H.
    exact (AddTagToEntryByName_keeps_I2 _ _ _ _ _ _ _ _ _ _ H HI).
  - destruct (AddTagsToEntryByName faults lower seq userID entryID names source w)
      as [r w'] eqn:H.
    exact (AddTagsToEntryByName_keeps_I2 _ _ _ _ _ _ _ _ _ _ H HI).
  - destruct (RemoveTagFromEntry faults userID entryID tagID w) as [r w'] eqn:H.
    exact (RemoveTagFromEntry_keeps_I2 _ _ _ _ _ _ _ H HI).
  - destruct (RemoveAllTagsFromEntry faults userID entryID w) as [r w'] eqn:H.
    exact (RemoveAllTagsFromEntry_keeps_I2 _ _ _ _ _ _ H HI).
  - destruct (ConfirmAutoTag faults userID entryID tagID w) as [r w'] eqn:H.
    exact (ConfirmAutoTag_keeps_I2 _ _ _ _ _ _ _ H HI).
  - destruct (RemoveAutoTagsFromEntry faults userID entryID w) as [r w'] eqn:H.
    exact (RemoveAutoTagsFromEntry_keeps_I2 _ _ _ _ _ _ H HI).
Qed.

(* ================================================================== *)
(** ** The tag handlers *)
(* ================================================================== *)


Lemma ValidateTagCreation_run faults lower userID request w :
  let r := ValidateTagCreation faults lower userID request w in
  store (snd r) = store w /\ now (snd r) = now w /\
  (fst r = None ->
   calls (snd r) = S (calls w) /\ TagCreationRequest.Name request <> "" /\
   (String.length (TagCreationRequest.Name request) <= 255)%nat).
Proof.
  cbv zeta. unfold ValidateTagCreation.
  destruct (String.eqb_spec (TagCreationRequest.Name request) "") as [E|E].
  { cbn. split; [reflexivity|]. split; [reflexivity | discriminate]. }
  destruct (255 <? String.length (TagCreationRequest.Name request))%nat eqn:L.
  { cbn. split; [reflexivity|]. split; [reflexivity | discriminate]. }
  apply length_le_255 in L.
  unfold TagNameExists. rewrite (scan_bool_exists faults TagRow _ tags).
  destruct (negb (faults (calls w)) && _); cbn [fst snd store now calls tick].
  - split; [reflexivity|]. split; [reflexivity | discriminate].
  - auto.
Qed.

(** X28.  The handler [createTag] answers 201 only for a decoded request
    whose name is not empty and at most 255 bytes long, with the tag that
    was appended to [tags]: the caller's, with the requested name and a
    fresh id, where the caller had no tag of that name up to case.  Every
    other answer is a 400 or a server error and leaves the tables as they
    were. *)
Theorem createTag_outcome faults lower seq userID body w :
  match createTag faults lower seq userID body w with
  | (Created (BodyTag t), w') =>
      exists request,
        body = Some request /\
        TagCreationRequest.Name request <> "" /\
        (String.length (TagCreationRequest.Name request) <= 255)%nat /\
        t = mkTag (seq (S (calls w))) userID (TagCreationRequest.Name request) (now w) /\
        store w' = set_tags (store w) (tags (store w) ++ [t]) /\
        has_tag (store w) (tag_id t) = false /\
        (forall o, In o (tags (store w)) -> tag_user_id o = userID ->
                   lower (tag_name o) <> lower (TagCreationRequest.Name request))
  | (BadRequest _, w') => store w' = store w
  | (ServerError _, w') => store w' = store w
  | _ => False
  end.
Proof.
  unfold createTag. destruct body as [request|]; [|reflexivity].
  pose proof (ValidateTagCreation_run faults lower userID request w) as V. cbv zeta in V.
  destruct (ValidateTagCreation faults lower userID request w) as [[err|] w1];
    cbn [fst snd] in V; destruct V as [S1 [N1 V]]; [exact S1|].
  destruct (V eq_refl) as [C1 [Hne Hlen]].
  pose proof (CreateTag_run faults lower seq userID request w1) as C.
  destruct (CreateTag faults lower seq userID request w1) as [[t|e] w2].
  - destruct C as [_ [_ [Ht [Hd [Hfresh Hname]]]]].
    rewrite C1, N1 in Ht. rewrite S1 in Hd, Hfresh, Hname.
    exists request. auto 8.
  - now rewrite C.
Qed.





(* ================================================================== *)
(** ** The statements above on sample tables *)
(* ================================================================== *)

Lemma RemoveEntryFromCluster_undoes_add_witness :
  exists w1 w2,
    AddEntryToCluster reliable 3 42 (world_of sweep_db 1000) = (Ok tt, w1) /\
    In (mkClusterEntry 3 42) (cluster_entries (store w1)) /\
    RemoveEntryFromCluster reliable 3 42 w1 = (Ok tt, w2) /\
    store w2 = store (world_of sweep_db 1000).
Proof.
  destruct (RemoveEntryFromCluster_undoes_add reliable 3 42 (world_of sweep_db 1000))
    as [_ H]; [reflexivity | reflexivity | reflexivity |].
  apply H; reflexivity.
Defined.

Lemma Clusters_entry_count_is_live_witness :
  exists w1 l,
    AddEntryToCluster reliable 4 42 (world_of sweep_db 1000) = (Ok tt, w1) /\
    Clusters reliable 2 w1 = (Ok l, tick w1) /\
    In (mkCluster 4 2 "c4" 40 (Some 2000) (Some 1)) l.
Proof.
  apply (Clusters_entry_count_is_live reliable (mkClusterRow 4 2 "c4" 40 (Some 2000)) 42
           (world_of sweep_db 1000)).
  - reflexivity.
  - reflexivity.
  - simpl. auto 6.
  - right. exists 2000. split; [reflexivity|]. simpl. lia.
  - reflexivity.
  - reflexivity.
Defined.

Lemma CreateCluster_then_ClusterByID_witness :
  exists w1,
    CreateCluster reliable (fun k => 100 + Z.of_nat k) 1 "news" None (world_of sweep_db 1000)
    = (Ok (mkCluster 100 1 "news" 1000 None None), w1) /\
    store w1 = set_clusters sweep_db (clusters sweep_db ++ [mkClusterRow 100 1 "news" 1000 None]) /\
    ClusterByID reliable 1 100 w1 = (Ok (Some (mkCluster 100 1 "news" 1000 None None)), tick w1).
Proof.
  apply (CreateCluster_then_ClusterByID reliable (fun k => 100 + Z.of_nat k) 1 "news" None
           (world_of sweep_db 1000)); reflexivity.
Defined.

Lemma GetOrCreateTag_idempotent_witness :
  GetOrCreateTag reliable (fun s => s) (fun k => 100 + Z.of_nat k) 1 "d"
    (snd (GetOrCreateTag reliable (fun s => s) (fun k => 100 + Z.of_nat k) 1 "d"
            (world_of merge_db 1000)))
  = (Ok (mkTag 101 1 "d" 1000),
     tick (snd (GetOrCreateTag reliable (fun s => s) (fun k => 100 + Z.of_nat k) 1 "d"
                  (world_of merge_db 1000)))).
Proof.
  apply (GetOrCreateTag_idempotent reliable (fun s => s) (fun k => 100 + Z.of_nat k) 1
           "d" "d" (world_of merge_db 1000)).
  - intros k. reflexivity.
  - reflexivity.
  - reflexivity.
Defined.

Lemma AddTagsToEntry_keeps_earlier_tags_witness :
  exists e w',
    AddTagsToEntry reliable 1 42 ([3] ++ 7 :: [2]) "" (world_of merge_db 1000) = (Err e, w') /\
    tags (store w') = tags merge_db /\ entries (store w') = entries merge_db /\
    (forall t, In t [3] ->
               exists r, In r (entry_tags (store w')) /\
                         et_entry_id r = 42 /\ et_tag_id r = t /\
                         et_source r = TagSourceManual) /\
    (forall r, In r (entry_tags (store w')) ->
               In r (entry_tags merge_db) \/ (et_entry_id r = 42 /\ In (et_tag_id r) [3])).
Proof.
  apply (AddTagsToEntry_keeps_earlier_tags reliable 1 42 [3] 7 [2] ""
           (world_of merge_db 1000)).
  - intros k. reflexivity.
  - simpl. auto.
  - intros t [<- | []]. reflexivity.
  - reflexivity.
Defined.

Lemma ConfirmAutoTag_then_listed_manual_witness :
  exists w1 la l,
    ConfirmAutoTag reliable 1 42 1 (world_of merge_db 1000) = (Ok tt, w1) /\
    GetAutoTagsForEntry reliable String.ltb 1 42 w1 = (Ok la, tick w1) /\
    GetEntryTags reliable String.ltb 1 42 w1 = (Ok l, tick w1) /\
    (forall x, In x la -> EntryTag.TagID x <> 1) /\
    (forall x, In x l -> EntryTag.TagID x = 1 -> EntryTag.Source x = TagSourceManual) /\
    (forall r, ~ (et_entry_id r = 42 /\ et_tag_id r = 1) ->
               (In r (entry_tags (store w1)) <-> In r (entry_tags merge_db))) /\
    List.length (entry_tags (store w1)) = List.length (entry_tags merge_db).
Proof.
  apply (ConfirmAutoTag_then_listed_manual reliable String.ltb 1 42 1
           (world_of merge_db 1000)).
  - reflexivity.
  - reflexivity.
  - reflexivity.
  - simpl. auto.
Defined.

Lemma AddTagToEntryByName_leaves_created_tag_witness :
  exists e w',
    AddTagToEntryByName reliable (fun s => s) (fun k => 100 + Z.of_nat k) 1 10 "zig" ""
      (world_of two_owners_db 1000) = (Err e, w') /\
    store w' = set_tags two_owners_db (tags two_owners_db ++ [mkTag 101 1 "zig" 1000]).
Proof.
  apply (AddTagToEntryByName_leaves_created_tag reliable (fun s => s)
           (fun k => 100 + Z.of_nat k) 1 10 "zig" "" (world_of two_owners_db 1000)).
  - reflexivity.
  - reflexivity.
  - reflexivity.
  - simpl. intros o [<- | [<- | []]] _; discriminate.
  - reflexivity.
  - simpl. intros y [<- | [<- | []]] [E1 E2]; discriminate.
Defined.

Lemma association_writers_keep_I2_witness :
  I2 (store (snd (AddTagToEntry reliable 1 42 3 "auto" (world_of merge_db 1000)))) = true /\
  I2 (store (snd (AddTagsToEntry reliable 1 42 [3; 7] "auto" (world_of merge_db 1000)))) = true /\
  I2 (store (snd (AddTagToEntryByName reliable (fun s => s) (fun k => 100 + Z.of_nat k)
                    1 42 "d" "auto" (world_of merge_db 1000)))) = true /\
  I2 (store (snd (AddTagsToEntryByName reliable (fun s => s) (fun k => 100 + Z.of_nat k)
                    1 42 ["d"; "a"] "auto" (world_of merge_db 1000)))) = true /\
  I2 (store (snd (RemoveTagFromEntry reliable 1 42 3 (world_of merge_db 1000)))) = true /\
  I2 (store (snd (RemoveAllTagsFromEntry reliable 1 42 (world_of merge_db 1000)))) = true /\
  I2 (store (snd (ConfirmAutoTag reliable 1 42 3 (world_of merge_db 1000)))) = true /\
  I2 (store (snd (RemoveAutoTagsFromEntry reliable 1 42 (world_of merge_db 1000)))) = true.
Proof.
  apply (association_writers_keep_I2 reliable (fun s => s) (fun k => 100 + Z.of_nat k)
           1 42 3 [3; 7] "d" ["d"; "a"] "auto" (world_of merge_db 1000)).
  reflexivity.
Defined.
